(** * EchoVault: the recording pipeline, its two edge functions and the
      derived views, embedded from the TypeScript sources.

    Layout
    - [JS]         the fragment of JavaScript the sources rely on: strings,
                   JSON values, truthiness, objects with their key order;
    - [Search]     src/components/search-interface.tsx;
    - [Graph]      src/components/knowledge-graph.tsx;
    - [Recorder]   src/hooks/use-audio-recorder.tsx;
    - [Edge]       requests, responses and the upstream call, as the two
                   edge functions see them;
    - [Transcribe] supabase/functions/transcribe-audio/index.ts;
    - [Analyze]    supabase/functions/analyze-recording/index.ts;
    - [Pipeline]   handleSaveAndTranscribe of the recording interface;
    - [Session], [Drawing], [Exchange], [Run]
                   vocabulary and samples for sessions of the recorder,
                   the drawn graph, the edge functions and the runs of the
                   pipeline;
    - [Library]    fetchStats, handleRenameRecording and
                   handleDeleteRecording of the Index page;
    - the properties, component by component, after the definitions.

    Strings are sequences of code units below 256 (Rocq's [ascii]); every
    literal of the sources is plain ASCII.  Collaborators that are not part
    of the sources (storage, database, the generation endpoint, the browser
    clock and media elements) answer through explicit parameters. *)

From Stdlib Require Import ZArith NArith List String Ascii Bool Lia QArith.
From Stdlib Require Import Qminmax Qround DecimalString DecimalN.
Import ListNotations.

Local Open Scope string_scope.
Local Open Scope Z_scope.

(* ================================================================== *)
(** * The JavaScript fragment *)
(* ================================================================== *)

Module JS.

(** ** Strings *)

Definition code (c : ascii) : N := N_of_ascii c.

Definition in_range (lo hi n : N) : bool := (N.leb lo n && N.leb n hi)%bool.

(** [String.prototype.toLowerCase] on one code unit: A-Z and the
    upper-case letters of the Latin-1 supplement move up by 32. *)
Definition lower_char (c : ascii) : ascii :=
  let n := code c in
  if (in_range 65 90 n || in_range 192 214 n || in_range 216 222 n)%bool
  then ascii_of_N (n + 32)
  else c.

Fixpoint toLowerCase (s : string) : string :=
  match s with
  | EmptyString => EmptyString
  | String c s' => String (lower_char c) (toLowerCase s')
  end.

(** White space and line terminators below 256, as [trim] sees them. *)
Definition is_space (c : ascii) : bool :=
  let n := code c in
  (in_range 9 13 n || N.eqb n 32 || N.eqb n 160)%bool.

Fixpoint trimStart (s : string) : string :=
  match s with
  | EmptyString => EmptyString
  | String c s' => if is_space c then trimStart s' else s
  end.

Fixpoint trimEnd (s : string) : string :=
  match s with
  | EmptyString => EmptyString
  | String c s' =>
      match trimEnd s' with
      | EmptyString => if is_space c then EmptyString else String c EmptyString
      | r => String c r
      end
  end.

Definition trim (s : string) : string := trimEnd (trimStart s).

Fixpoint startsWith (s q : string) : bool :=
  match q, s with
  | EmptyString, _ => true
  | String a q', String b s' => (Ascii.eqb a b && startsWith s' q')%bool
  | String _ _, EmptyString => false
  end.

(** [s.includes(q)] *)
Fixpoint includes (s q : string) : bool :=
  (startsWith s q ||
   match s with
   | EmptyString => false
   | String _ s' => includes s' q
   end)%bool.

(** [s.substring(0, n)] *)
Fixpoint take (n : nat) (s : string) : string :=
  match n, s with
  | S n', String c s' => String c (take n' s')
  | _, _ => EmptyString
  end.

Fixpoint strlen (s : string) : Z :=
  match s with
  | EmptyString => 0
  | String _ s' => Z.succ (strlen s')
  end.

(** [a < b] on strings: code units compared left to right. *)
Fixpoint str_lt (a b : string) : bool :=
  match a, b with
  | _, EmptyString => false
  | EmptyString, String _ _ => true
  | String x a', String y b' =>
      if N.ltb (code x) (code y) then true
      else if N.ltb (code y) (code x) then false
      else str_lt a' b'
  end.

(** [s.split(',')] *)
Fixpoint split_on (sep : ascii) (s : string) : list string :=
  match s with
  | EmptyString => [EmptyString]
  | String c s' =>
      if Ascii.eqb c sep then EmptyString :: split_on sep s'
      else match split_on sep s' with
           | [] => [String c EmptyString]
           | p :: ps => String c p :: ps
           end
  end.

Fixpoint has_char (c : ascii) (s : string) : bool :=
  match s with
  | EmptyString => false
  | String x s' => (Ascii.eqb x c || has_char c s')%bool
  end.

Fixpoint repeat_char (n : nat) (c : ascii) : string :=
  match n with
  | O => EmptyString
  | S n' => String c (repeat_char n' c)
  end.

(** [s.padStart(n, '0')] *)
Definition padStart0 (n : nat) (s : string) : string :=
  repeat_char (n - String.length s) "0"%char ++ s.

(** [n.toString()] for an integral number. *)
Definition N_toString (n : N) : string := NilZero.string_of_uint (N.to_uint n).

Definition Z_toString (z : Z) : string :=
  if z <? 0 then String "-"%char (N_toString (Z.to_N (- z)))
  else N_toString (Z.to_N z).

(** ** Values: what [JSON.parse] and the service clients hand back *)

#[warnings="-register-all"]
Inductive JsVal : Type :=
| JUndefined
| JNull
| JBool (b : bool)
| JNum (q : Q)
| JStr (s : string)
| JArr (l : list JsVal)
| JObj (fields : list (string * JsVal)).

Definition truthy (v : JsVal) : bool :=
  match v with
  | JUndefined | JNull => false
  | JBool b => b
  | JNum q => negb (Qeq_bool q 0)
  | JStr s => negb (String.eqb s EmptyString)
  | JArr _ | JObj _ => true
  end.

Fixpoint assoc {V : Type} (k : string) (l : list (string * V)) : option V :=
  match l with
  | [] => None
  | (k', v) :: l' => if String.eqb k k' then Some v else assoc k l'
  end.

(** [v.k] on a value that is neither null nor undefined. *)
Definition prop (v : JsVal) (k : string) : JsVal :=
  match v with
  | JObj fields => match assoc k fields with Some x => x | None => JUndefined end
  | JStr s => if String.eqb k "length" then JNum (inject_Z (strlen s)) else JUndefined
  | JArr l => if String.eqb k "length" then JNum (inject_Z (Z.of_nat (List.length l)))
              else JUndefined
  | _ => JUndefined
  end.

Definition nullish (v : JsVal) : bool :=
  match v with JUndefined | JNull => true | _ => false end.

(** [v?.k] *)
Definition opt_prop (v : JsVal) (k : string) : JsVal :=
  if nullish v then JUndefined else prop v k.

(** [v?.[0]] *)
Definition opt_first (v : JsVal) : JsVal :=
  match v with
  | JArr (x :: _) => x
  | JStr (String c _) => JStr (String c EmptyString)
  | JObj fields => match assoc "0" fields with Some x => x | None => JUndefined end
  | _ => JUndefined
  end.

(** [v > n] for the values a [length] property can hold: numbers, and
    the primitives whose conversion to a number is immediate.  A [length]
    that is itself a string, an array or an object (only possible on an
    object literal carrying such a member) compares as false here, where
    JavaScript would first convert it to a number: the conversion of
    strings and objects to numbers is not part of this fragment, and what
    is proved below only relies on the answers [true]. *)
Definition num_gt (v : JsVal) (n : Z) : bool :=
  match v with
  | JNum q => negb (Qle_bool q (inject_Z n))
  | JBool b => (if b then 1 else 0) >? n
  | JNull => 0 >? n
  | _ => false
  end.

(** ** Exceptions *)

Record Exn : Type := mkExn { exn_name : string; exn_message : string }.

Definition Error (msg : string) : Exn := mkExn "Error" msg.
Definition TypeError (msg : string) : Exn := mkExn "TypeError" msg.

(** The TypeError of reading member [k] of [v], which is null or
    undefined. *)
Definition cannot_read (v : JsVal) (k : string) : Exn :=
  TypeError ("Cannot read properties of "
             ++ match v with JNull => "null" | _ => "undefined" end
             ++ " (reading '" ++ k ++ "')").

(** ** Plain objects used as dictionaries

    [Object.entries] lists the own keys that are array indices first, in
    ascending numeric order, then every other own key in insertion order.
    An object is kept as the list of its own entries in that order.  An
    object literal [{}] also inherits the members of [Object.prototype]:
    see [member] below. *)

Definition is_digit (c : ascii) : bool := in_range 48 57 (code c).

Fixpoint all_digits (s : string) : bool :=
  match s with
  | EmptyString => true
  | String c s' => (is_digit c && all_digits s')%bool
  end.

Fixpoint digits_value (acc : N) (s : string) : N :=
  match s with
  | EmptyString => acc
  | String c s' => digits_value (acc * 10 + (code c - 48))%N s'
  end.

(** The canonical numeric strings below 2^32 - 1. *)
Definition array_index (k : string) : option N :=
  match k with
  | EmptyString => None
  | String c rest =>
      if (all_digits k
          && (negb (Ascii.eqb c "0"%char) || String.eqb rest EmptyString)
          && Nat.leb (String.length k) 10)%bool
      then let n := digits_value 0 k in
           if N.ltb n 4294967295 then Some n else None
      else None
  end.

Definition Obj (V : Type) : Type := list (string * V).

Fixpoint has_key {V : Type} (k : string) (o : Obj V) : bool :=
  match o with
  | [] => false
  | (k', _) :: o' => (String.eqb k k' || has_key k o')%bool
  end.

Fixpoint replace {V : Type} (k : string) (v : V) (o : Obj V) : Obj V :=
  match o with
  | [] => []
  | (k', v') :: o' =>
      if String.eqb k k' then (k', v) :: o' else (k', v') :: replace k v o'
  end.

(** Insert a fresh index key [k] (of value [n]) at its numeric rank. *)
Fixpoint insert_index {V : Type} (n : N) (k : string) (v : V) (o : Obj V) : Obj V :=
  match o with
  | [] => [(k, v)]
  | (k', v') :: o' =>
      match array_index k' with
      | Some m => if N.ltb m n then (k', v') :: insert_index n k v o'
                  else (k, v) :: o
      | None => (k, v) :: o
      end
  end.

(** [o[k] = v] for a key other than [__proto__]: the own property is
    written, or created. *)
Definition set {V : Type} (k : string) (v : V) (o : Obj V) : Obj V :=
  if has_key k o then replace k v o
  else match array_index k with
       | Some n => insert_index n k v o
       | None => (o ++ [(k, v)])%list
       end.

(** The own property [k] of [o] ([None] when there is none).  It is what
    [o[k]] reads whenever [k] is an own key or names no member of
    [Object.prototype]. *)
Definition get {V : Type} (k : string) (o : Obj V) : option V := assoc k o.

Definition keys {V : Type} (o : Obj V) : list string := map fst o.

(** The names of the members of [Object.prototype], which every object
    literal inherits. *)
Definition prototype_members : list string :=
  [ "constructor"; "hasOwnProperty"; "isPrototypeOf"; "propertyIsEnumerable";
    "toLocaleString"; "toString"; "valueOf"; "__proto__";
    "__defineGetter__"; "__defineSetter__";
    "__lookupGetter__"; "__lookupSetter__" ].

Definition inherited (k : string) : bool :=
  existsb (String.eqb k) prototype_members.

(** What [o[k]] reads on an object literal: an own property, else the
    member of [Object.prototype] of that name, else [undefined]. *)
Inductive Member (V : Type) : Type :=
| Own (v : V)
| Inherited
| Undefined.
Arguments Own {V} v.
Arguments Inherited {V}.
Arguments Undefined {V}.

Definition member {V : Type} (k : string) (o : Obj V) : Member V :=
  match get k o with
  | Some v => Own v
  | None => if inherited k then Inherited else Undefined
  end.

(** [o[k] = v] for a primitive [v]: the setter behind [__proto__] ignores
    a value that is neither an object nor null, and no own property is
    created; the other inherited members are writable data properties,
    which an assignment shadows by an own property. *)
Definition assign {V : Type} (k : string) (v : V) (o : Obj V) : Obj V :=
  if String.eqb k "__proto__" then o else set k v o.

(** What [String] makes of the inherited member [k]: [Object.prototype]
    itself for [__proto__], and for the others the source text of a native
    function, whose name is [Object] for [constructor] and [k] otherwise.
    The text is written as V8 prints it; engines differ in the white space
    that follows the name only. *)
Definition inherited_text (k : string) : string :=
  if String.eqb k "__proto__" then "[object Object]"
  else "function " ++ (if String.eqb k "constructor" then "Object" else k)
       ++ "() { [native code] }".

(** [Set.prototype.add] on a set kept in insertion order. *)
Definition set_add (x : string) (s : list string) : list string :=
  if existsb (String.eqb x) s then s else (s ++ [x])%list.

End JS.

(* ================================================================== *)
(** * Search view (src/components/search-interface.tsx) *)
(* ================================================================== *)

Module Search.
Import JS.

(** A row of [recordings] as [select('*')] returns it; nullable columns
    are options. *)
Record Recording : Type := mkRecording {
  rec_id : string;
  rec_title : option string;
  rec_transcription : option string;
  rec_summary : option string;
  rec_tags : option (list string);
  rec_audio_url : option string;
  rec_created_at : string
}.

Record SearchResult : Type := mkSearchResult {
  id : string;
  title : string;
  snippet : string;
  timestamp : string;
  tags : list string;
  audio_url : option string;
  transcription : option string
}.

(** The component's state cells. *)
Record State : Type := mkState {
  query : string;
  isSearching : bool;
  results : list SearchResult;
  allRecordings : list Recording
}.

(** [field?.toLowerCase().includes(searchText)], read as a condition. *)
Definition field_includes (field : option string) (searchText : string) : bool :=
  match field with
  | Some s => includes (toLowerCase s) searchText
  | None => false
  end.

(** The predicate handed to [allRecordings.filter]. *)
Definition matches (query : string) (recording : Recording) : bool :=
  let searchText := toLowerCase query in
  (field_includes (rec_title recording) searchText
   || field_includes (rec_transcription recording) searchText
   || field_includes (rec_summary recording) searchText
   || match rec_tags recording with
      | Some ts => existsb (fun tag => includes (toLowerCase tag) searchText) ts
      | None => false
      end)%bool.

Definition nonempty (o : option string) : option string :=
  match o with
  | Some s => if String.eqb s "" then None else Some s
  | None => None
  end.

Section View.

(** [new Date(created_at).toLocaleDateString()] depends on the locale of
    the browser. *)
Variable toLocaleDateString : string -> string.

(** The object built by [.map(recording => ({ ... }))].  In the snippet
    [+] binds tighter than [||]: a missing transcription is concatenated
    as the text of [undefined], and the last alternative is never used. *)
Definition toResult (recording : Recording) : SearchResult :=
  {| id := rec_id recording;
     title := match nonempty (rec_title recording) with
              | Some t => t
              | None => "Untitled Recording"
              end;
     snippet := match nonempty (rec_summary recording) with
                | Some s => s
                | None =>
                    match rec_transcription recording with
                    | Some t => take 150 t
                    | None => "undefined"
                    end ++ "..."
                end;
     timestamp := toLocaleDateString (rec_created_at recording);
     tags := match rec_tags recording with Some ts => ts | None => [] end;
     audio_url := rec_audio_url recording;
     transcription := rec_transcription recording |}.

Definition handleSearch (st : State) : State :=
  if String.eqb (trim (query st)) "" then
    {| query := query st; isSearching := isSearching st;
       results := []; allRecordings := allRecordings st |}
  else
    {| query := query st; isSearching := false;
       results := map toResult (filter (matches (query st)) (allRecordings st));
       allRecordings := allRecordings st |}.

End View.

(** *** The wording of the specification *)

(** [q] is a substring of [s]. *)
Definition substring_of (q s : string) : Prop :=
  exists pre post, s = pre ++ q ++ post.

(** The lowercased query is a substring of the (lowercased) title,
    transcription, summary, or of at least one tag. *)
Definition Hit (query : string) (r : Recording) : Prop :=
  let q := toLowerCase query in
  (exists t, rec_title r = Some t /\ substring_of q (toLowerCase t)) \/
  (exists t, rec_transcription r = Some t /\ substring_of q (toLowerCase t)) \/
  (exists t, rec_summary r = Some t /\ substring_of q (toLowerCase t)) \/
  (exists ts tag, rec_tags r = Some ts /\ In tag ts /\
                  substring_of q (toLowerCase tag)).

(** "Search returns exactly the Recordings that hit", result records in
    corpus order. *)
Definition returns_exactly_hits
    (toLocaleDateString : string -> string) (st : State) : Prop :=
  exists keep : Recording -> bool,
    (forall r, keep r = true <-> Hit (query st) r) /\
    results (handleSearch toLocaleDateString st)
    = map (toResult toLocaleDateString) (filter keep (allRecordings st)).

(** The corpus of the specification's example. *)
Definition teamSync : Recording :=
  {| rec_id := "r1";
     rec_title := Some "Team Sync";
     rec_transcription := Some "We reviewed the roadmap for next quarter.";
     rec_summary := Some "Quarterly planning.";
     rec_tags := Some ["planning"; "meeting"];
     rec_audio_url := Some "https://storage.example/u1/1700000000000.webm";
     rec_created_at := "2025-08-06T18:33:42Z" |}.

Definition corpus (q : string) : State :=
  {| query := q; isSearching := false; results := []; allRecordings := [teamSync] |}.

End Search.

(* ================================================================== *)
(** * Graph view (src/components/knowledge-graph.tsx) *)
(* ================================================================== *)

Module Graph.
Import JS.

(** A node position: the literal coordinates of a placeholder node, or
    slot [slot] of [slots] on the circle of centre (300, 200) and radius
    [radius], i.e. the point at angle 2.pi.slot/slots. *)
Inductive Position : Type :=
| At (x y : Z)
| OnCircle (radius : Z) (slot slots : nat).

Record NodeData : Type := mkNodeData {
  label : string;
  count : option Z;
  sentiment : option string
}.

Record NodeStyle : Type := mkNodeStyle {
  background : string;
  color : string;
  border : string;
  borderRadius : string;
  fontSize : string;
  fontWeight : option string;
  (** [width] and [height], always equal *)
  size : option Z;
  (** display: flex, alignItems/justifyContent/textAlign: center, padding: 8px *)
  centered : bool
}.

Record Node : Type := mkNode {
  node_id : string;
  node_type : string;
  position : Position;
  data : NodeData;
  style : NodeStyle
}.

(** [strokeWidth] is a number; [None] stands for NaN. *)
Record Edge : Type := mkEdge {
  edge_id : string;
  source : string;
  target : string;
  stroke : string;
  strokeWidth : option Q;
  strokeOpacity : option Q
}.

Definition placeholder (id : string) (x y : Z) (lbl bg fg bd fs : string)
    (fw : option string) : Node :=
  {| node_id := id; node_type := "default"; position := At x y;
     data := {| label := lbl; count := None; sentiment := None |};
     style := {| background := bg; color := fg; border := bd;
                 borderRadius := "12px"; fontSize := fs; fontWeight := fw;
                 size := None; centered := false |} |}.

Definition initialNodes : list Node :=
  [ placeholder "meetings" 250 50 "Meetings"
      "hsl(var(--primary))" "hsl(var(--primary-foreground))"
      "2px solid hsl(var(--primary-glow))" "14px" (Some "600");
    placeholder "project-planning" 100 150 "Project Planning"
      "hsl(var(--secondary))" "hsl(var(--secondary-foreground))"
      "2px solid hsl(var(--secondary))" "12px" None;
    placeholder "brainstorming" 400 150 "Brainstorming"
      "hsl(var(--accent))" "hsl(var(--accent-foreground))"
      "2px solid hsl(var(--accent))" "12px" None;
    placeholder "ideas" 350 250 "Ideas"
      "hsl(var(--card))" "hsl(var(--card-foreground))"
      "1px solid hsl(var(--border))" "11px" None;
    placeholder "decisions" 50 250 "Decisions"
      "hsl(var(--card))" "hsl(var(--card-foreground))"
      "1px solid hsl(var(--border))" "11px" None ].

Definition initialEdges : list Edge :=
  [ mkEdge "meetings-planning" "meetings" "project-planning"
      "hsl(var(--primary))" (Some 2%Q) None;
    mkEdge "meetings-brainstorming" "meetings" "brainstorming"
      "hsl(var(--primary))" (Some 2%Q) None;
    mkEdge "planning-decisions" "project-planning" "decisions"
      "hsl(var(--secondary))" (Some 1%Q) None;
    mkEdge "brainstorming-ideas" "brainstorming" "ideas"
      "hsl(var(--accent))" (Some 1%Q) None ].

(** A stored row of [recordings], with the columns the view reads. *)
Record Row : Type := mkRow {
  user_id : string;
  tags : option (list string);
  row_sentiment : option string;
  row_title : option string
}.

(** [.select('tags, sentiment, title').eq('user_id', uid).not('tags', 'is', null)] *)
Definition select_tagged (uid : string) (table : list Row) : list Row :=
  filter (fun r => (String.eqb (user_id r) uid
                    && match tags r with Some _ => true | None => false end)%bool)
         table.

(** The three dictionaries filled by the double loop. *)
Record Tables : Type := mkTables {
  tagConnections : Obj (list string);
  tagCounts : Obj Z;
  tagSentiments : Obj (list string)
}.

Definition or_zero (c : option Z) : Z :=
  match c with Some n => n | None => 0 end.

Definition or_nil {A : Type} (l : option (list A)) : list A :=
  match l with Some x => x | None => [] end.

(** [recording.sentiment || 'neutral'] *)
Definition sentiment_of (r : Row) : string :=
  match row_sentiment r with
  | Some s => if String.eqb s "" then "neutral" else s
  | None => "neutral"
  end.

(** The inner [tags.forEach(otherTag => ...)] on the set of [tag]. *)
Definition link (tag : string) (tags : list string) (targets : list string)
  : list string :=
  fold_left (fun acc otherTag =>
               if String.eqb tag otherTag then acc else set_add otherTag acc)
            tags targets.

(** The statements of the body of [tags.forEach(tag => ...)], for a
    [tag] under which the three dictionaries hold what the loop has put
    there, or nothing. *)
Definition enter (tags : list string) (sentiment : string)
    (t : Tables) (tag : string) : Tables :=
  let counts := set tag (or_zero (get tag (tagCounts t)) + 1) (tagCounts t) in
  let sents :=
    set tag (or_nil (get tag (tagSentiments t)) ++ [sentiment])%list
        (tagSentiments t) in
  let conns0 :=
    match get tag (tagConnections t) with
    | Some _ => tagConnections t
    | None => set tag [] (tagConnections t)
    end in
  let conns := set tag (link tag tags (or_nil (get tag conns0))) conns0 in
  {| tagConnections := conns; tagCounts := counts; tagSentiments := sents |}.

(** The body of [tags.forEach(tag => ...)].  The dictionaries are object
    literals that get their keys in this loop only.  For a [tag] that names
    a member of [Object.prototype], [tagSentiments[tag] || []] is that
    member, not an array, and the call of its [push] throws; no tag of
    that kind ever becomes an own key. *)
Definition visit (tags : list string) (sentiment : string)
    (t : Tables) (tag : string) : Exn + Tables :=
  if inherited tag
  then inl (TypeError "tagSentiments[tag].push is not a function")
  else inr (enter tags sentiment t tag).

(** [l.forEach(body)] on a state, left at the first throw. *)
Fixpoint forEach {A S : Type} (body : S -> A -> Exn + S) (l : list A) (s : S)
  : Exn + S :=
  match l with
  | [] => inr s
  | x :: rest =>
      match body s x with
      | inl e => inl e
      | inr s' => forEach body rest s'
      end
  end.

Definition visit_recording (t : Tables) (recording : Row) : Exn + Tables :=
  let tgs := or_nil (tags recording) in
  forEach (visit tgs (sentiment_of recording)) tgs t.

Definition scan (recordings : list Row) : Exn + Tables :=
  forEach visit_recording recordings (mkTables [] [] []).

(** A value of the counting object of [getDominantSentiment]: a number,
    or the text that [+ 1] makes of an inherited member (never the spelling
    of a number). *)
Inductive Count : Type :=
| Times (n : Z)
| Script (s : string).

(** [(acc[sentiment] || 0) + 1] *)
Definition plus_one (sentiment : string) (m : Member Count) : Count :=
  match m with
  | Own (Times n) => Times (n + 1)
  | Own (Script s) => if String.eqb s "" then Times 1 else Script (s ++ "1")
  | Inherited => Script (inherited_text sentiment ++ "1")
  | Undefined => Times 1
  end.

(** [counts[a] > counts[b]]: numbers by value, two strings by their code
    units; a comparison with [undefined], or of a number with a string of
    the kind held here (which converts to NaN), is false. *)
Definition count_gt (a b : option Count) : bool :=
  match a, b with
  | Some (Times x), Some (Times y) => x >? y
  | Some (Script x), Some (Script y) => str_lt y x
  | _, _ => false
  end.

Definition tally (sentiments : list string) : Obj Count :=
  fold_left (fun acc sentiment =>
               assign sentiment (plus_one sentiment (member sentiment acc)) acc)
            sentiments [].

(** [getDominantSentiment]; [None] is the TypeError raised by [reduce] on
    an empty entry list. *)
Definition getDominantSentiment (sentiments : list string) : option string :=
  let counts := tally sentiments in
  match counts with
  | [] => None
  | first :: rest =>
      Some (fst (fold_left
                   (fun a b => if count_gt (get (fst a) counts) (get (fst b) counts)
                               then a else b)
                   rest first))
  end.

Record Palette : Type := mkPalette {
  pal_background : string; pal_text : string; pal_border : string
}.

Definition getSentimentColor (sentiment : string) : Palette :=
  if String.eqb sentiment "positive" then
    mkPalette "hsl(var(--accent))" "hsl(var(--accent-foreground))" "hsl(var(--accent))"
  else if String.eqb sentiment "negative" then
    mkPalette "hsl(var(--destructive))" "hsl(var(--destructive-foreground))"
              "hsl(var(--destructive))"
  else
    mkPalette "hsl(var(--secondary))" "hsl(var(--secondary-foreground))"
              "hsl(var(--secondary))".

(** [generateCircularPositions(count)[index]] *)
Definition circularPosition (count index : nat) : Position :=
  OnCircle (Z.max 150 (Z.of_nat count * 25)) index count.

Definition mkTagNode (total index : nat) (tag : string) (cnt : Z)
    (dominantSentiment : string) : Node :=
  let nodeColor := getSentimentColor dominantSentiment in
  let nodeSize := Z.max 60 (Z.min 120 (cnt * 20)) in
  {| node_id := tag; node_type := "default";
     position := circularPosition total index;
     data := {| label := tag ++ " (" ++ Z_toString cnt ++ ")";
                count := Some cnt;
                sentiment := Some dominantSentiment |};
     style := {| background := pal_background nodeColor;
                 color := pal_text nodeColor;
                 border := "2px solid " ++ pal_border nodeColor;
                 borderRadius := "12px"; fontSize := "12px";
                 fontWeight := Some "600";
                 size := Some nodeSize; centered := true |} |}.

(** [Object.entries(tagCounts).forEach(([tag, count], index) => ...)];
    [None] when [getDominantSentiment] raises.  Here and in the edges
    below, the tables are read under tags that the loop has entered, which
    are own keys. *)
Fixpoint make_nodes (sents : Obj (list string)) (total index : nat)
    (entries : list (string * Z)) : option (list Node) :=
  match entries with
  | [] => Some []
  | (tag, cnt) :: rest =>
      match get tag sents with
      | None => None
      | Some l =>
          match getDominantSentiment l with
          | None => None
          | Some dom =>
              match make_nodes sents total (S index) rest with
              | None => None
              | Some ns => Some (mkTagNode total index tag cnt dom :: ns)
              end
          end
      end
  end.

(** [Math.min(tagCounts[source], tagCounts[target])]; NaN if one is missing. *)
Definition connectionStrength (counts : Obj Z) (src tgt : string) : option Z :=
  match get src counts, get tgt counts with
  | Some a, Some b => Some (Z.min a b)
  | _, _ => None
  end.

(** [Math.max(1, connectionStrength / 2)] *)
Definition stroke_width (strength : option Z) : option Q :=
  match strength with
  | Some w => Some (Qmax 1 (inject_Z w / 2))%Q
  | None => None
  end.

Definition mkTagEdge (counts : Obj Z) (src tgt : string) : Edge :=
  {| edge_id := src ++ "-" ++ tgt; source := src; target := tgt;
     stroke := "hsl(var(--primary))";
     strokeWidth := stroke_width (connectionStrength counts src tgt);
     strokeOpacity := Some (6 # 10)%Q |}.

(** [tagCounts[target] && source < target] *)
Definition wants_edge (counts : Obj Z) (src tgt : string) : bool :=
  (match get tgt counts with Some c => negb (c =? 0) | None => false end
   && str_lt src tgt)%bool.

Definition make_edges (counts : Obj Z) (conns : Obj (list string)) : list Edge :=
  flat_map (fun '(src, targets) =>
              flat_map (fun tgt => if wants_edge counts src tgt
                                   then [mkTagEdge counts src tgt] else [])
                       targets)
           conns.

(** The state cells of the component. *)
Record View : Type := mkView {
  nodes : list Node;
  edges : list Edge;
  isLoading : bool
}.

(** The body of the [try]: [None] when something is thrown. *)
Definition derive (recordings : list Row) : option (list Node * list Edge) :=
  match scan recordings with
  | inl _ => None
  | inr t =>
      match make_nodes (tagSentiments t) (List.length (tagCounts t)) 0 (tagCounts t) with
      | Some ns => Some (ns, make_edges (tagCounts t) (tagConnections t))
      | None => None
      end
  end.

(** [generateKnowledgeGraph] for the signed-in user [uid].  [table] is the
    content of [recordings], or [None] when the query returns an error. *)
Definition generateKnowledgeGraph (uid : string) (table : option (list Row))
    (before : View) : View :=
  match table with
  | None => mkView initialNodes initialEdges false
  | Some rows =>
      match select_tagged uid rows with
      | [] => mkView initialNodes initialEdges false
      | recordings =>
          match derive recordings with
          | Some (ns, es) => mkView ns es false
          | None => mkView initialNodes initialEdges false
          end
      end
  end.

(** *** Vocabulary of the specification *)

(** Number of occurrences of [tag] over all the recordings. *)
Fixpoint occurrences (tag : string) (recordings : list Row) : Z :=
  match recordings with
  | [] => 0
  | r :: rest =>
      Z.of_nat (count_occ string_dec (or_nil (tags r)) tag) + occurrences tag rest
  end.

(** [a] and [b] are two tags of one recording. *)
Definition cooccur (recordings : list Row) (a b : string) : Prop :=
  exists r, In r recordings /\ In a (or_nil (tags r)) /\ In b (or_nil (tags r)).

(** Number of occurrences of [s] in a list of sentiments. *)
Definition votes (s : string) (l : list string) : Z :=
  Z.of_nat (count_occ string_dec l s).

(** The distinct elements of a list, in the order of first encounter. *)
Definition encounter_order (l : list string) : list string :=
  fold_left (fun acc x => set_add x acc) l [].

(** A sentiment that is not spelled like an array index; the three values
    "positive", "neutral" and "negative" are of this kind. *)
Definition plain (s : string) : Prop := array_index s = None.

(** [s] has the greatest count in [l] and, among the sentiments with that
    count, is the one met first. *)
Definition first_of_greatest (l : list string) (s : string) : Prop :=
  (forall t, votes t l <= votes s l) /\
  exists l1 l2, (l = l1 ++ s :: l2)%list /\ ~ In s l1 /\
    forall t, In t l1 -> votes t l < votes s l.

(** [s] has the greatest count in [l] and, among the sentiments with that
    count, is the one met last: the others are all met before it. *)
Definition last_of_greatest (l : list string) (s : string) : Prop :=
  (forall t, votes t l <= votes s l) /\
  exists l1 l2, (l = l1 ++ s :: l2)%list /\ ~ In s l1 /\
    forall t, t <> s -> votes t l = votes s l -> In t l1.

(** No tag and no sentiment of the recordings is the name of a member
    of [Object.prototype]. *)
Definition ordinary (recordings : list Row) : bool :=
  forallb (fun r => (negb (inherited (sentiment_of r))
                     && forallb (fun tag => negb (inherited tag)) (or_nil (tags r)))%bool)
          recordings.

(** The double loop of [scan], flattened: one visit per recording and
    tag, in the order the loops run. *)
Definition visits (recordings : list Row) : list (Row * string) :=
  flat_map (fun r => map (fun tag => (r, tag)) (or_nil (tags r))) recordings.

Definition step (t : Tables) (v : Row * string) : Tables :=
  enter (or_nil (tags (fst v))) (sentiment_of (fst v)) t (snd v).

(** The tables that the double loop leaves when no visit throws. *)
Definition charted (recordings : list Row) : Tables :=
  fold_left step (visits recordings) (mkTables [] [] []).

(** The numbers a dictionary holds after counting the names of a list
    under keys that are all its own: [tagCounts] after the visits, and the
    counting object of [getDominantSentiment] on ordinary sentiments. *)
Definition census (names : list string) : Obj Z :=
  fold_left (fun acc s => set s (or_zero (get s acc) + 1) acc) names [].

(** The sentiments of the recordings visited for [tag], in visit order. *)
Definition sentiments_for (tag : string) (vs : list (Row * string)) : list string :=
  map (fun v => sentiment_of (fst v))
      (filter (fun v => String.eqb (snd v) tag) vs).


(** [e] is an edge between [a] and [b], whichever end comes first. *)
Definition joins (e : Edge) (a b : string) : Prop :=
  (source e = a /\ target e = b) \/ (source e = b /\ target e = a).

Definition two_recordings (s1 s2 t1 t2 : option string) : list Row :=
  [ mkRow "u1" (Some ["a"; "b"]) s1 t1; mkRow "u1" (Some ["b"; "c"]) s2 t2 ].

(** One recording of a talk about code. *)
Definition code_review : list Row :=
  [ mkRow "u1" (Some ["constructor"; "refactoring"]) (Some "neutral")
          (Some "Code review") ].

End Graph.

(* ================================================================== *)
(** * Reading the drawn graph *)
(* ================================================================== *)

Module Drawing.
Import Graph.

(** The two tags an edge joins, source first. *)
Definition ends (e : Edge) : string * string := (source e, target e).

End Drawing.

(* ================================================================== *)
(** * Recorder hook (src/hooks/use-audio-recorder.tsx) *)
(* ================================================================== *)

Module Recorder.
Import JS.

(** What the [catch] of [startRecording] tells apart in what is thrown:
    a DOMException of one of three names, or anything else. *)
Inductive Failure : Type :=
| NotAllowedError
| NotFoundError
| NotSupportedError
| OtherFailure.

(** How the [try] of [startRecording] goes: [getUserMedia] rejects; or it
    resolves and [new MediaRecorder] throws; or the recorder is built and
    its [start] throws; or nothing throws. *)
Inductive Attempt : Type :=
| Granted
| Refused (why : Failure)
| Unsupported (why : Failure)
| Unstarted (why : Failure).

(** [MediaRecorder.state] *)
Inductive CaptureState : Type := Inactive | Capturing | Suspended.

Definition Chunk : Type := string.

(** The state cells and refs of the hook, the live interval timers and
    the toasts shown so far. *)
Record Hook : Type := mkHook {
  isRecording : bool;
  isPaused : bool;
  duration : string;
  audioBlob : option (list Chunk);
  mediaRecorderRef : option CaptureState;
  mimeType : string;
  streamRef : bool;
  chunksRef : list Chunk;
  startTimeRef : Z;
  intervalRef : bool;
  timers : nat;
  toasts : list string
}.

Definition initial : Hook :=
  {| isRecording := false; isPaused := false; duration := "00:00";
     audioBlob := None; mediaRecorderRef := None; mimeType := "";
     streamRef := false; chunksRef := []; startTimeRef := 0;
     intervalRef := false; timers := 0; toasts := [] |}.

(** The template literal of [updateDuration], from the elapsed
    milliseconds: [Math.floor] of a quotient is the floor division, [%] is
    the remainder that takes the sign of the dividend. *)
Definition formatElapsed (elapsed : Z) : string :=
  let seconds := elapsed / 1000 in
  let minutes := seconds / 60 in
  let remainingSeconds := Z.rem seconds 60 in
  padStart0 2 (Z_toString minutes) ++ ":" ++ padStart0 2 (Z_toString remainingSeconds).

(** [updateDuration], run at clock value [now]. *)
Definition updateDuration (now : Z) (h : Hook) : Hook :=
  if startTimeRef h =? 0 then h
  else
    {| isRecording := isRecording h; isPaused := isPaused h;
       duration := formatElapsed (now - startTimeRef h);
       audioBlob := audioBlob h; mediaRecorderRef := mediaRecorderRef h;
       mimeType := mimeType h; streamRef := streamRef h;
       chunksRef := chunksRef h; startTimeRef := startTimeRef h;
       intervalRef := intervalRef h; timers := timers h; toasts := toasts h |}.

Definition failureMessage (f : Failure) : string :=
  match f with
  | NotAllowedError =>
      "Microphone access denied. Please allow microphone permissions and try again."
  | NotFoundError =>
      "No microphone found. Please connect a microphone and try again."
  | NotSupportedError => "Your browser doesn't support audio recording."
  | OtherFailure =>
      "Failed to start recording. Please check microphone permissions."
  end.

(** [startRecording], with [Date.now()] = [now].  What is thrown ends
    in a toast, and leaves assigned what was assigned before it: the
    stream and the emptied chunks once the microphone is granted, the
    recorder, not running, once it is built. *)
Definition startRecording (now : Z) (how : Attempt) (opus : bool) (h : Hook) : Hook :=
  match how with
  | Refused why =>
      {| isRecording := isRecording h; isPaused := isPaused h;
         duration := duration h; audioBlob := audioBlob h;
         mediaRecorderRef := mediaRecorderRef h; mimeType := mimeType h;
         streamRef := streamRef h; chunksRef := chunksRef h;
         startTimeRef := startTimeRef h; intervalRef := intervalRef h;
         timers := timers h;
         toasts := (toasts h ++ [failureMessage why])%list |}
  | Unsupported why =>
      {| isRecording := isRecording h; isPaused := isPaused h;
         duration := duration h; audioBlob := audioBlob h;
         mediaRecorderRef := mediaRecorderRef h; mimeType := mimeType h;
         streamRef := true; chunksRef := [];
         startTimeRef := startTimeRef h; intervalRef := intervalRef h;
         timers := timers h;
         toasts := (toasts h ++ [failureMessage why])%list |}
  | Unstarted why =>
      {| isRecording := isRecording h; isPaused := isPaused h;
         duration := duration h; audioBlob := audioBlob h;
         mediaRecorderRef := Some Inactive;
         mimeType := if opus then "audio/webm;codecs=opus" else "audio/webm";
         streamRef := true; chunksRef := [];
         startTimeRef := startTimeRef h; intervalRef := intervalRef h;
         timers := timers h;
         toasts := (toasts h ++ [failureMessage why])%list |}
  | Granted =>
      {| isRecording := true; isPaused := false; duration := "00:00";
         audioBlob := audioBlob h;
         mediaRecorderRef := Some Capturing;
         mimeType := if opus then "audio/webm;codecs=opus" else "audio/webm";
         streamRef := true; chunksRef := [];
         startTimeRef := now; intervalRef := true; timers := S (timers h);
         toasts := toasts h |}
  end.

(** [pauseRecording]: toggles, and does nothing when not recording.  On a
    recorder that is not running, [pause()] and [resume()] throw
    InvalidStateError before the flag is set: the state stays as it is.
    [resume()] on a recorder that captures and [pause()] on a suspended one
    change nothing. *)
Definition pauseRecording (h : Hook) : Hook :=
  match mediaRecorderRef h with
  | None => h
  | Some state =>
      if negb (isRecording h) then h
      else
        match state with
        | Inactive => h
        | _ =>
            {| isRecording := isRecording h; isPaused := negb (isPaused h);
               duration := duration h; audioBlob := audioBlob h;
               mediaRecorderRef := Some (if isPaused h then Capturing else Suspended);
               mimeType := mimeType h; streamRef := streamRef h;
               chunksRef := chunksRef h; startTimeRef := startTimeRef h;
               intervalRef := intervalRef h; timers := timers h; toasts := toasts h |}
        end
  end.

(** [stopRecording]: the new state and the blob behind the object URL it
    resolves to; [None] when no URL is produced: the promise resolves to
    [null], or, on a recorder that is not running, whose [stop()] fires no
    [stop] event, it is never resolved, and the state stays as it is. *)
Definition stopRecording (h : Hook) : Hook * option (list Chunk) :=
  match mediaRecorderRef h with
  | None => (h, None)
  | Some state =>
      if negb (isRecording h) then (h, None)
      else
        match state with
        | Inactive => (h, None)
        | _ =>
            ({| isRecording := false; isPaused := false;
                duration := duration h; audioBlob := Some (chunksRef h);
                mediaRecorderRef := Some Inactive;
                mimeType := mimeType h; streamRef := false;
                chunksRef := chunksRef h; startTimeRef := startTimeRef h;
                intervalRef := false;
                timers := if intervalRef h then pred (timers h) else timers h;
                toasts := toasts h |},
             Some (chunksRef h))
        end
  end.

(** [ondataavailable] *)
Definition dataAvailable (c : Chunk) (h : Hook) : Hook :=
  if strlen c >? 0 then
    {| isRecording := isRecording h; isPaused := isPaused h;
       duration := duration h; audioBlob := audioBlob h;
       mediaRecorderRef := mediaRecorderRef h; mimeType := mimeType h;
       streamRef := streamRef h; chunksRef := (chunksRef h ++ [c])%list;
       startTimeRef := startTimeRef h; intervalRef := intervalRef h;
       timers := timers h; toasts := toasts h |}
  else h.

(** What can happen to the hook. *)
Inductive Event : Type :=
| Start (now : Z) (how : Attempt) (opus : bool)
| Pause
| Stop
| Tick (now : Z)
| Data (c : Chunk).

(** A timer callback only runs while an interval is live. *)
Definition react (h : Hook) (e : Event) : Hook :=
  match e with
  | Start now how opus => startRecording now how opus h
  | Pause => pauseRecording h
  | Stop => fst (stopRecording h)
  | Tick now => match timers h with O => h | S _ => updateDuration now h end
  | Data c => dataAvailable c h
  end.

Definition run (events : list Event) (h : Hook) : Hook :=
  fold_left react events h.

(** Events of a session that goes on recording without a pause. *)
Definition uninterrupted (e : Event) : Prop :=
  match e with
  | Tick _ | Data _ => True
  | _ => False
  end.

(** *** Reading a display back *)

Definition decimal (s : string) : option N :=
  option_map N.of_uint (NilEmpty.uint_of_string s).

(** The minutes and seconds shown by a zero-padded [MM:SS] display: two
    digits or more, a colon, exactly two digits. *)
Definition read_clock (s : string) : option (N * N) :=
  match split_on ":"%char s with
  | [mm; ss] =>
      if (Nat.leb 2 (String.length mm) && Nat.eqb (String.length ss) 2)%bool
      then match decimal mm, decimal ss with
           | Some m, Some sec => Some (m, sec)
           | _, _ => None
           end
      else None
  | _ => None
  end.

End Recorder.

(* ================================================================== *)
(** * Sessions of the recorder, and the buttons that drive it *)
(* ================================================================== *)

Module Session.
Import JS Recorder.

(** The hook states that can be reached from the initial one. *)
Definition reachable (h : Hook) : Prop := exists events, h = run events initial.

(** The flags, the recorder, the stream and the interval agree: while
    recording, the stream is held, an interval is registered and runs, and
    the recorder in the ref captures, or is suspended exactly when paused,
    unless a later start left there a recorder that never ran; when not
    recording, nothing is paused, no interval is registered and the
    recorder in the ref does not run. *)
Definition consistent (h : Hook) : Prop :=
  (isRecording h = true ->
   (mediaRecorderRef h = Some (if isPaused h then Suspended else Capturing) \/
    mediaRecorderRef h = Some Inactive) /\
   streamRef h = true /\ intervalRef h = true /\ timers h <> O) /\
  (isRecording h = false ->
   isPaused h = false /\ intervalRef h = false /\
   mediaRecorderRef h <> Some Capturing /\ mediaRecorderRef h <> Some Suspended).

(** The recorder in the ref is running. *)
Definition running (h : Hook) : Prop :=
  mediaRecorderRef h = Some Capturing \/ mediaRecorderRef h = Some Suspended.



(** Events that neither start nor stop a session. *)
Definition within_session (e : Event) : Prop :=
  match e with
  | Tick _ | Data _ | Pause => True
  | _ => False
  end.

(** The chunks that [ondataavailable] keeps, in order of arrival. *)
Fixpoint delivered (events : list Event) : list Chunk :=
  match events with
  | [] => []
  | Data c :: rest => if strlen c >? 0 then c :: delivered rest else delivered rest
  | _ :: rest => delivered rest
  end.

(** A start for which the microphone is refused. *)
Definition refused (e : Event) : bool :=
  match e with
  | Start _ (Refused _) _ => true
  | _ => false
  end.

(** The messages of the starts that fail, in order. *)
Fixpoint complaints (events : list Event) : list string :=
  match events with
  | [] => []
  | Start _ (Refused why) _ :: rest
  | Start _ (Unsupported why) _ :: rest
  | Start _ (Unstarted why) _ :: rest => failureMessage why :: complaints rest
  | _ :: rest => complaints rest
  end.

(** A state with its toasts put aside. *)
Definition untoasted (h : Hook) : Hook :=
  {| isRecording := isRecording h; isPaused := isPaused h; duration := duration h;
     audioBlob := audioBlob h; mediaRecorderRef := mediaRecorderRef h;
     mimeType := mimeType h; streamRef := streamRef h; chunksRef := chunksRef h;
     startTimeRef := startTimeRef h; intervalRef := intervalRef h;
     timers := timers h; toasts := [] |}.




End Session.
(* ================================================================== *)
(** * What the two edge functions share *)
(* ================================================================== *)

Module Edge.
Import JS.

Inductive Method : Type := OPTIONS | POST | OtherMethod.

(** An incoming request: its method and what [req.json()] yields. *)
Record Request : Type := mkRequest {
  method : Method;
  json : Exn + JsVal
}.

Inductive Body : Type :=
| Text (s : string)
| Json (v : JsVal).

(** Every response carries the CORS headers; [json_type] tells whether
    [Content-Type: application/json] is set as well. *)
Record Response : Type := mkResponse {
  status : Z;
  json_type : bool;
  body : Body
}.

(** The call to the generation endpoint: the key put in the URL and the
    JSON payload. *)
Record Call : Type := mkCall {
  api_key : string;
  payload : JsVal
}.

(** How [fetch] ends: it rejects, or resolves to a response with a status,
    its body as text and what [response.json()] yields. *)
Inductive Fetched : Type :=
| Rejected (e : Exn)
| Answered (http_status : Z) (text : string) (parsed : Exn + JsVal).

(** [response.ok] *)
Definition ok (http_status : Z) : bool :=
  ((200 <=? http_status) && (http_status <=? 299))%bool.

(** What the function finds around it. *)
Record Env : Type := mkEnv {
  GEMINI_API_KEY : option string;
  fetch : Call -> Fetched;
  (** [new Date().toISOString()] *)
  now_iso : string
}.

Definition bind {A B : Type} (m : Exn + A) (k : A -> Exn + B) : Exn + B :=
  match m with
  | inl e => inl e
  | inr a => k a
  end.

Notation "'let!' x ':=' m 'in' k" := (bind m (fun x => k))
  (at level 10, x name, m at level 100, k at level 200).

(** [if (c) throw e] *)
Definition throw_if (c : bool) (e : Exn) : Exn + unit :=
  if c then inl e else inr tt.

(** [const { k } = await req.json()]: destructuring null or undefined
    throws. *)
Definition destructure (v : JsVal) (k : string) : Exn + JsVal :=
  if nullish v
  then inl (TypeError ("Cannot destructure property '" ++ k
                       ++ "' of '(intermediate value)' as it is "
                       ++ match v with JNull => "null" | _ => "undefined" end
                       ++ "."))
  else inr (prop v k).

(** [Deno.env.get('GEMINI_API_KEY')], which must be truthy. *)
Definition configured_key (env : Env) : Exn + string :=
  match GEMINI_API_KEY env with
  | Some k => if String.eqb k "" then inl (Error "Gemini API key not configured")
              else inr k
  | None => inl (Error "Gemini API key not configured")
  end.

(** [result.candidates?.[0]?.content?.parts?.[0]?.text]: only the first
    access is unguarded. *)
Definition candidate_text (result : JsVal) : Exn + JsVal :=
  if nullish result
  then inl (cannot_read result "candidates")
  else inr (opt_prop
              (opt_first (opt_prop (opt_prop (opt_first (prop result "candidates"))
                                             "content") "parts"))
              "text").

Definition preflight : Response := mkResponse 200 false (Text "ok").

End Edge.

(* ================================================================== *)
(** * Transcription service (supabase/functions/transcribe-audio/index.ts) *)
(* ================================================================== *)

Module Transcribe.
Import JS Edge.

Definition instruction : string :=
  "Please transcribe this audio file. Return only the transcribed text, no additional formatting or commentary.".

Definition request_for (key : string) (audio : JsVal) : Call :=
  {| api_key := key;
     payload :=
       JObj [("contents",
              JArr [JObj [("parts",
                           JArr [JObj [("text", JStr instruction)];
                                 JObj [("inline_data",
                                        JObj [("mime_type", JStr "audio/webm");
                                              ("data", audio)])]])]]);
             ("generationConfig",
              JObj [("temperature", JNum (1 # 10));
                    ("maxOutputTokens", JNum 8192)])] |}.

(** The checks made before anything is sent upstream. *)
Definition validate (env : Env) (req : Request) : Exn + Call :=
  let! parsed := json req in
  let! audio := destructure parsed "audio" in
  let! _ := throw_if (negb (truthy audio)) (Error "No audio data provided") in
  let! key := configured_key env in
  let! _ := throw_if (num_gt (prop audio "length") 10000000)
              (Error "Audio file too large. Please use shorter recordings.") in
  inr (request_for key audio).

(** [transcribedText.trim()] *)
Definition trimmed (v : JsVal) : Exn + JsVal :=
  match v with
  | JStr s => inr (JStr (trim s))
  | _ => inl (TypeError "transcribedText.trim is not a function")
  end.

(** What follows a successful upstream answer. *)
Definition extract (parsed : Exn + JsVal) : Exn + Response :=
  let! result := parsed in
  let! transcribedText := candidate_text result in
  let! _ := throw_if (negb (truthy transcribedText))
              (Error "No transcription text returned from Gemini") in
  let! text := trimmed transcribedText in
  inr (mkResponse 200 true
         (Json (JObj [("text", text); ("language", JStr "auto-detected")]))).

(** The [catch] of the handler. *)
Definition failure (env : Env) (e : Exn) : Response :=
  mkResponse 500 true
    (Json (JObj [("error", JStr (exn_message e));
                 ("type", JStr (exn_name e));
                 ("timestamp", JStr (now_iso env))])).

Definition upstream_failure (http_status : Z) (errorText : string) : Response :=
  mkResponse 500 true
    (Json (JObj [("error", JStr ("Gemini API error: " ++ Z_toString http_status));
                 ("details", JStr errorText);
                 ("gemini_status", JNum (inject_Z http_status))])).

(** The handler: its response and the upstream calls it made. *)
Definition serve (env : Env) (req : Request) : Response * list Call :=
  match method req with
  | OPTIONS => (preflight, [])
  | _ =>
      match validate env req with
      | inl e => (failure env e, [])
      | inr call =>
          match fetch env call with
          | Rejected e => (failure env e, [call])
          | Answered http_status text parsed =>
              if negb (ok http_status)
              then (upstream_failure http_status text, [call])
              else match extract parsed with
                   | inl e => (failure env e, [call])
                   | inr response => (response, [call])
                   end
          end
      end
  end.

End Transcribe.

(* ================================================================== *)
(** * Analysis service (supabase/functions/analyze-recording/index.ts) *)
(* ================================================================== *)

Module Analyze.
Import JS Edge.

(** The length of the match of [/```json\n?|\n?```/] at the head of [s],
    if there is one. *)
Definition fence_at (s : string) : option nat :=
  if startsWith s "```json" then
    Some (if startsWith s ("```json" ++ String "010"%char "") then 8%nat else 7%nat)
  else if startsWith s (String "010"%char "```") then Some 4%nat
  else if startsWith s "```" then Some 3%nat
  else None.

(** [s.replace(/```json\n?|\n?```/g, '')]: [skip] counts the characters of
    the current match still to be dropped. *)
Fixpoint drop_fences (skip : nat) (s : string) : string :=
  match s with
  | EmptyString => EmptyString
  | String c s' =>
      match skip with
      | S k => drop_fences k s'
      | O =>
          match fence_at s with
          | Some (S k) => drop_fences k s'
          | _ => String c (drop_fences 0 s')
          end
      end
  end.

Definition cleanContent (content : string) : string :=
  trim (drop_fences 0 content).

(** The object substituted when the answer cannot be parsed. *)
Definition fallback : JsVal :=
  JObj [("summary", JStr "Analysis could not be completed due to parsing error");
        ("keyPoints", JArr [JStr "Raw transcription available"]);
        ("sentiment", JStr "neutral");
        ("tags", JArr [JStr "transcription"]);
        ("highlights", JArr []);
        ("actionItems", JArr [])].

Section Handler.

(** [JSON.parse] *)
Variable JSON_parse : string -> Exn + JsVal.

(** The instruction sent upstream: the template literal of the source with
    the transcription interpolated.  Its wording plays no part in what the
    handler does with the answer. *)
Variable prompt : JsVal -> string.

Definition request_for (key : string) (text : JsVal) : Call :=
  {| api_key := key;
     payload :=
       JObj [("contents",
              JArr [JObj [("parts", JArr [JObj [("text", JStr (prompt text))]])]]);
             ("generationConfig",
              JObj [("temperature", JNum (3 # 10));
                    ("maxOutputTokens", JNum 2048)])] |}.

Definition validate (env : Env) (req : Request) : Exn + Call :=
  let! parsed := json req in
  let! text := destructure parsed "text" in
  let! _ := throw_if (negb (truthy text)) (Error "No transcription text provided") in
  let! key := configured_key env in
  inr (request_for key text).

(** The inner [try]: everything thrown there is caught. *)
Definition parse_content (content : JsVal) : Exn + JsVal :=
  let! _ := throw_if (negb (truthy content)) (Error "No content in Gemini response") in
  match content with
  | JStr s => JSON_parse (cleanContent s)
  | _ => inl (TypeError "content.replace is not a function")
  end.

(** [analysis] once the inner [try]/[catch] is left.  With a null
    [result] the [catch] block throws again, on its own reading of
    [result.candidates], and that error reaches the outer [catch]. *)
Definition analysis_of (result : JsVal) : Exn + JsVal :=
  let! content := candidate_text result in
  match parse_content content with
  | inr analysis => inr analysis
  | inl _ => inr fallback
  end.

Definition failure (e : Exn) : Response :=
  mkResponse 500 true
    (Json (JObj [("error", JStr (exn_message e));
                 ("summary", JStr "Analysis failed");
                 ("keyPoints", JArr []);
                 ("sentiment", JStr "neutral");
                 ("tags", JArr []);
                 ("highlights", JArr []);
                 ("actionItems", JArr [])])).

Definition serve (env : Env) (req : Request) : Response * list Call :=
  match method req with
  | OPTIONS => (preflight, [])
  | _ =>
      match validate env req with
      | inl e => (failure e, [])
      | inr call =>
          match fetch env call with
          | Rejected e => (failure e, [call])
          | Answered http_status text parsed =>
              if negb (ok http_status)
              then (failure (Error ("Gemini API error: " ++ Z_toString http_status
                                    ++ " - " ++ text)),
                    [call])
              else match bind parsed analysis_of with
                   | inl e => (failure e, [call])
                   | inr analysis => (mkResponse 200 true (Json analysis), [call])
                   end
          end
      end
  end.

End Handler.

(** *** The wording of the specification *)

(** The upstream call succeeded and returned [content] as the text of its
    first candidate. *)
Definition upstream_returns (prompt : JsVal -> string)
    (env : Env) (req : Request) (content : string) : Prop :=
  exists call http_status text result,
    method req <> OPTIONS /\
    validate prompt env req = inr call /\
    fetch env call = Answered http_status text (inr result) /\
    ok http_status = true /\
    candidate_text result = inr (JStr content).

(** *** A sample exchange *)

(** A parser that accepts the empty object only. *)
Definition strict_parse (s : string) : Exn + JsVal :=
  if String.eqb s "{}" then inr (JObj [])
  else inl (mkExn "SyntaxError" "Unexpected token in JSON").

Definition newline : string := String "010"%char "".

(** A fenced answer that is not JSON. *)
Definition fenced_prose : string :=
  "```json" ++ newline ++ "Here is my analysis of the recording." ++ newline ++ "```".

Definition answer_with (content : string) : JsVal :=
  JObj [("candidates",
         JArr [JObj [("content",
                      JObj [("parts", JArr [JObj [("text", JStr content)]])])]])].

Definition sample_env : Env :=
  mkEnv (Some "secret")
        (fun _ => Answered 200 "" (inr (answer_with fenced_prose)))
        "2025-08-06T18:33:42.000Z".

Definition sample_request : Request :=
  mkRequest POST
    (inr (JObj [("text",
                 JStr "Hello, this is a test recording about planning a team meeting...")])).

End Analyze.

(* ================================================================== *)
(** * Sample exchanges with the two edge functions *)
(* ================================================================== *)

Module Exchange.
Import JS Edge.

(** An upstream that answers every call with [content] as the text of its
    first candidate. *)
Definition answering (content : string) : Env :=
  mkEnv (Some "secret")
        (fun _ => Answered 200 "" (inr (Analyze.answer_with content)))
        "2025-08-06T18:33:42.000Z".

Definition audio_request : Request :=
  mkRequest POST (inr (JObj [("audio", JStr "GkXfo59ChoEBQveBAULygQRC")])).

(** [content] between the fences of a Markdown code block, with or
    without the language tag. *)
Definition fenced_json (content : string) : string :=
  "```json" ++ Analyze.newline ++ content ++ Analyze.newline ++ "```".

Definition fenced_plain (content : string) : string :=
  "```" ++ Analyze.newline ++ content ++ Analyze.newline ++ "```".

Definition backtick : ascii := "`"%char.

(** Nothing of [s] can start a fence: [s] is empty or starts with
    something else than a backtick. *)
Definition plain_head (s : string) : Prop :=
  match s with
  | EmptyString => True
  | String c _ => c <> backtick
  end.

End Exchange.
(* ================================================================== *)
(** * Pipeline orchestrator: handleSaveAndTranscribe *)
(* ================================================================== *)

Module Pipeline.
Import JS.

(** ** Collaborators *)

(** An error object handed back by the backend client. *)
Record ClientError : Type := mkClientError {
  (** [error instanceof Error] *)
  is_Error : bool;
  (** [error.message]; [None] when undefined *)
  message : option string
}.

(** [{ data, error }] of [supabase.functions.invoke]. *)
Record Reply : Type := mkReply {
  data : JsVal;
  error : option ClientError
}.

(** [audio.duration] once the metadata is there.  The arithmetic on
    [Seconds q] below is that of whole numbers, which is the arithmetic of
    the code as long as the duration is under 2^53 seconds. *)
Inductive AudioDuration : Type :=
| Seconds (q : Q)
| NotANumber
| Infinite.

(** Whether the [loadedmetadata] event ever comes. *)
Inductive Metadata : Type :=
| Loaded (d : AudioDuration)
| NeverLoaded.

Definition Blob : Type := string.

(** The column values of the row passed to [insert]. *)
Inductive Floored : Type :=
| Whole (z : Z)
| FNaN
| FInfinity.

Record RecordingInsert : Type := mkRecordingInsert {
  user_id : string;
  title : string;
  audio_url : string;
  transcription : JsVal;
  summary : JsVal;
  sentiment : JsVal;
  tags : JsVal;
  duration_seconds : Floored;
  duration_formatted : string
}.

Record HighlightInsert : Type := mkHighlightInsert {
  recording_id : string;
  timestamp_seconds : JsVal;
  content : JsVal
}.

(** A stored row of [recordings]: the generated id and the inserted values. *)
Record Recording : Type := mkRecording {
  id : string;
  row : RecordingInsert
}.

(** The relational store. *)
Record DB : Type := mkDB {
  recordings : list Recording;
  highlights : list HighlightInsert
}.

(** What the browser and the backend answer during one run. *)
Record World : Type := mkWorld {
  Date_now : Z;
  (** [uploadError] of the storage upload of a file *)
  upload : string -> Blob -> option ClientError;
  getPublicUrl : string -> string;
  (** [reader.result] when [onloadend] fires; [None] is null *)
  readAsDataURL : Blob -> option string;
  invoke : string -> JsVal -> Reply;
  loadMetadata : Blob -> Metadata;
  (** [dbError] of the insert into [recordings] *)
  rejectRecording : DB -> RecordingInsert -> option ClientError;
  (** the id the store gives to the new row *)
  gen_random_uuid : DB -> string;
  (** whether the insert into [highlights] goes through *)
  acceptHighlights : DB -> list HighlightInsert -> bool
}.

(** ** Effects *)

Inductive Effect : Type :=
| Upload (fileName : string)
| Invoke (function : string) (body : JsVal)
| InsertRecording (r : RecordingInsert)
| SelectRecording (url : string)
| InsertHighlights (rows : list HighlightInsert)
| Toast (heading : string) (description : option string) (destructive : bool)
| Dispatch (event : string).

(** What [throw] can carry here. *)
Inductive Thrown : Type :=
| OfError (e : Exn)
| OfClient (e : ClientError).

(** The store and the effects so far. *)
Record St : Type := mkSt {
  db : DB;
  log : list Effect
}.

(** An asynchronous step returns, throws, or waits on a promise that never
    settles. *)
Inductive Res (A : Type) : Type :=
| Val (a : A)
| Throw (t : Thrown)
| Pending.
Arguments Val {A} a.
Arguments Throw {A} t.
Arguments Pending {A}.

Definition M (A : Type) : Type := St -> Res A * St.

Definition ret {A : Type} (a : A) : M A := fun s => (Val a, s).

Definition bind {A B : Type} (m : M A) (k : A -> M B) : M B :=
  fun s => match m s with
           | (Val a, s') => k a s'
           | (Throw t, s') => (Throw t, s')
           | (Pending, s') => (Pending, s')
           end.

Notation "x <- m ;; k" := (bind m (fun x => k))
  (at level 61, m at next level, right associativity).
Notation "m ;; k" := (bind m (fun _ => k))
  (at level 61, right associativity).

Definition throw {A : Type} (t : Thrown) : M A := fun s => (Throw t, s).

Definition never {A : Type} : M A := fun s => (Pending, s).

Definition emit (e : Effect) : M unit :=
  fun s => (Val tt, mkSt (db s) (log s ++ [e])%list).

Definition get_db : M DB := fun s => (Val (db s), s).

Definition put_db (d : DB) : M unit := fun s => (Val tt, mkSt d (log s)).

(** [try { m } catch (error) { handler error }] *)
Definition try_catch (m : M unit) (handler : Thrown -> M unit) : M unit :=
  fun s => match m s with
           | (Throw t, s') => handler t s'
           | r => r
           end.

(** ** The steps *)

(** [x || fallback] on strings *)
Definition or_else (x : option string) (fallback : string) : string :=
  match x with
  | Some s => if String.eqb s "" then fallback else s
  | None => fallback
  end.

(** [(reader.result as string).split(',')[1]], whose [length] is then
    read for the log line. *)
Definition base64_of (result : option string) : M string :=
  match result with
  | None => throw (OfError (TypeError "Cannot read properties of null (reading 'split')"))
  | Some s =>
      match nth_error (split_on ","%char s) 1 with
      | Some b => ret b
      | None =>
          throw (OfError (TypeError "Cannot read properties of undefined (reading 'length')"))
      end
  end.

(** The transcription call and the test that follows it. *)
Definition transcribe (w : World) (base64Audio : string) : M JsVal :=
  let body := JObj [("audio", JStr base64Audio)] in
  emit (Invoke "transcribe-audio" body) ;;
  let reply := invoke w "transcribe-audio" body in
  let text := opt_prop (data reply) "text" in
  if truthy text then ret text
  else match error reply with
       | Some e =>
           throw (OfError (Error ("Transcription failed: "
                                  ++ or_else (message e) "Unknown transcription error")))
       | None => throw (OfError (Error "No transcription text received from the API"))
       end.

(** The analysis call and the test that follows it: without a summary
    and without an error the run goes on ("Using partial data"). *)
Definition analyze (w : World) (text : JsVal) : M JsVal :=
  let body := JObj [("text", text)] in
  emit (Invoke "analyze-recording" body) ;;
  let reply := invoke w "analyze-recording" body in
  if truthy (opt_prop (data reply) "summary") then ret (data reply)
  else match error reply with
       | Some e =>
           throw (OfError (Error ("Analysis failed: "
                                  ++ or_else (message e) "Unknown analysis error")))
       | None => ret (data reply)
       end.

(** [Math.floor(audio.duration)] *)
Definition floor_duration (d : AudioDuration) : Floored :=
  match d with
  | Seconds q => Whole (Qfloor q)
  | NotANumber => FNaN
  | Infinite => FInfinity
  end.

(** [Math.floor(durationSeconds / 60)], exact below 2^53 *)
Definition minutes_of (d : Floored) : Floored :=
  match d with
  | Whole z => Whole (z / 60)
  | other => other
  end.

(** [durationSeconds % 60] *)
Definition seconds_of (d : Floored) : Floored :=
  match d with
  | Whole z => Whole (Z.rem z 60)
  | _ => FNaN
  end.

Definition Floored_toString (d : Floored) : string :=
  match d with
  | Whole z => Z_toString z
  | FNaN => "NaN"
  | FInfinity => "Infinity"
  end.

Definition formatDuration (durationSeconds : Floored) : string :=
  padStart0 2 (Floored_toString (minutes_of durationSeconds)) ++ ":"
  ++ padStart0 2 (Floored_toString (seconds_of durationSeconds)).

(** The promise resolved by [loadedmetadata] only. *)
Definition measure (w : World) (audioBlob : Blob) : M Floored :=
  match loadMetadata w audioBlob with
  | Loaded d => ret (floor_duration d)
  | NeverLoaded => never
  end.

(** The object literal passed to [insert]; reading a member of a null
    or undefined [analysisData] throws. *)
Definition new_row (uid ttl publicUrl : string) (text analysisData : JsVal)
    (durationSeconds : Floored) : M RecordingInsert :=
  if nullish analysisData
  then throw (OfError (cannot_read analysisData "summary"))
  else ret {| user_id := uid;
              title := or_else (Some ttl) "Untitled Recording";
              audio_url := publicUrl;
              transcription := text;
              summary := prop analysisData "summary";
              sentiment := prop analysisData "sentiment";
              tags := prop analysisData "tags";
              duration_seconds := durationSeconds;
              duration_formatted := formatDuration durationSeconds |}.

(** The insert into [recordings]; [dbError] is thrown. *)
Definition save (w : World) (r : RecordingInsert) : M unit :=
  emit (InsertRecording r) ;;
  d <- get_db ;;
  match rejectRecording w d r with
  | Some e => throw (OfClient e)
  | None =>
      put_db (mkDB (recordings d ++ [mkRecording (gen_random_uuid w d) r])%list
                   (highlights d))
  end.

(** [.select('id').eq('audio_url', publicUrl).single()] *)
Definition select_single (publicUrl : string) (d : DB) : option string :=
  match filter (fun r => String.eqb (audio_url (row r)) publicUrl) (recordings d) with
  | [r] => Some (id r)
  | _ => None
  end.

(** [highlights.map(highlight => ({ ... }))] *)
Fixpoint highlight_rows (rid : string) (l : list JsVal) : Exn + list HighlightInsert :=
  match l with
  | [] => inr []
  | h :: rest =>
      if nullish h
      then inl (cannot_read h "timestamp")
      else match highlight_rows rid rest with
           | inl e => inl e
           | inr rows => inr (mkHighlightInsert rid (prop h "timestamp") (prop h "content")
                              :: rows)
           end
  end.

(** The second write; its outcome is not looked at. *)
Definition save_highlights (w : World) (publicUrl : string) (analysisData : JsVal)
  : M unit :=
  let hs := prop analysisData "highlights" in
  if (truthy hs && num_gt (prop hs "length") 0)%bool then
    emit (SelectRecording publicUrl) ;;
    d <- get_db ;;
    match select_single publicUrl d with
    | None => ret tt
    | Some rid =>
        match hs with
        | JArr l =>
            match highlight_rows rid l with
            | inl e => throw (OfError e)
            | inr rows =>
                emit (InsertHighlights rows) ;;
                if acceptHighlights w d rows
                then put_db (mkDB (recordings d) (highlights d ++ rows)%list)
                else ret tt
            end
        | _ => throw (OfError (TypeError "analysisData.highlights.map is not a function"))
        end
    end
  else ret tt.

(** The body of the [try] inside [reader.onloadend]. *)
Definition process (w : World) (uid ttl : string) (audioBlob : Blob)
    (publicUrl : string) : M unit :=
  base64Audio <- base64_of (readAsDataURL w audioBlob) ;;
  text <- transcribe w base64Audio ;;
  analysisData <- analyze w text ;;
  durationSeconds <- measure w audioBlob ;;
  r <- new_row uid ttl publicUrl text analysisData durationSeconds ;;
  save w r ;;
  save_highlights w publicUrl analysisData ;;
  emit (Toast "Recording Saved!"
          (Some "Your recording has been transcribed and analyzed successfully.")
          false) ;;
  emit (Dispatch "recording-saved").

(** The [catch] inside [reader.onloadend]. *)
Definition processing_error (t : Thrown) : M unit :=
  let errorMessage :=
    match t with
    | OfError e => Some (exn_message e)
    | OfClient e =>
        if is_Error e then message e
        else Some "Failed to process recording. Please try again."
    end in
  emit (Toast "Processing Error" errorMessage true).

(** The outer [try]: upload, public URL, then the reader callback. *)
Definition upload_and_process (w : World) (uid ttl : string) (audioBlob : Blob)
  : M unit :=
  let fileName := uid ++ "/" ++ Z_toString (Date_now w) ++ ".webm" in
  try_catch
    (emit (Upload fileName) ;;
     match upload w fileName audioBlob with
     | Some e => throw (OfClient e)
     | None =>
         try_catch (process w uid ttl audioBlob (getPublicUrl w fileName))
                   processing_error
     end)
    (fun _ => emit (Toast "Save Error"
                      (Some "Failed to save recording. Please try again.") true)).

(** ** The component *)

Record Component : Type := mkComponent {
  comp_title : string;
  isProcessing : bool;
  audioUrl : option string;
  audioBlob : option Blob;
  (** [user.id] of the signed-in user, if any *)
  user : option string
}.

(** Where a run stands when nothing more can happen. *)
Inductive Status : Type :=
| Skipped     (** the guard returned at once *)
| Settled     (** the run went to its end, saved or not *)
| Waiting.    (** a promise never settles *)

Record Outcome : Type := mkOutcome {
  status : Status;
  component : Component;
  store : DB;
  effects : list Effect
}.

(** [handleDiscard] *)
Definition handleDiscard (c : Component) : Component :=
  mkComponent "New Recording" (isProcessing c) None (audioBlob c) (user c).

Definition with_processing (b : bool) (c : Component) : Component :=
  mkComponent (comp_title c) b (audioUrl c) (audioBlob c) (user c).

(** Whether the run reached the end of the inner [try]. *)
Definition saved (l : list Effect) : bool :=
  existsb (fun e => match e with Dispatch _ => true | _ => false end) l.

Definition handleSaveAndTranscribe (w : World) (c : Component) (d : DB) : Outcome :=
  match audioBlob c, user c with
  | Some blob, Some uid =>
      match upload_and_process w uid (comp_title c) blob (mkSt d []) with
      | (Pending, s) => mkOutcome Waiting (with_processing true c) (db s) (log s)
      | (_, s) =>
          mkOutcome Settled
            (with_processing false (if saved (log s) then handleDiscard c else c))
            (db s) (log s)
      end
  | _, _ => mkOutcome Skipped c d []
  end.

(** *** Vocabulary of the specification *)

Definition inserts_recording (e : Effect) : bool :=
  match e with InsertRecording _ => true | _ => false end.

(** No Recording row is written: the table is as before and no insert was
    even attempted. *)
Definition no_row_written (before : DB) (o : Outcome) : Prop :=
  recordings (store o) = recordings before /\
  existsb inserts_recording (effects o) = false.

(** The reply to the transcription call made during the run. *)
Definition transcription_reply (w : World) (o : Outcome) (r : Reply) : Prop :=
  exists body, In (Invoke "transcribe-audio" body) (effects o) /\
               r = invoke w "transcribe-audio" body.

(** The reply to the analysis call made during the run. *)
Definition analysis_reply (w : World) (o : Outcome) (r : Reply) : Prop :=
  exists body, In (Invoke "analyze-recording" body) (effects o) /\
               r = invoke w "analyze-recording" body.

(** The run got past the analysis step with [analysisData]: it is waiting
    for the audio metadata, or it has built the row from [analysisData] and
    issued the insert. *)
Definition past_analysis (analysisData : JsVal) (o : Outcome) : Prop :=
  status o = Waiting \/
  exists r, In (InsertRecording r) (effects o) /\
            summary r = prop analysisData "summary" /\
            sentiment r = prop analysisData "sentiment" /\
            tags r = prop analysisData "tags".

(** The run ended on the toast of a processing error with this text. *)
Definition aborted_with (msg : string) (o : Outcome) : Prop :=
  status o = Settled /\ In (Toast "Processing Error" (Some msg) true) (effects o).

(** A duration within the range where the arithmetic of the code is
    that of whole numbers. *)
Definition measurable (d : AudioDuration) : Prop :=
  match d with
  | Seconds q => Z.abs (Qfloor q) < 2 ^ 53
  | _ => True
  end.

(** The Transcription Service call fails: the invocation returns an
    error, or no text is present in its response. *)
Definition transcription_failed (r : Reply) : Prop :=
  error r <> None \/ truthy (opt_prop (data r) "text") = false.

(** What [functions.invoke] of the backend client (a library, not part
    of the sources) promises of its result: an error comes with [data:
    null]. *)
Definition contractual (r : Reply) : Prop :=
  error r <> None -> data r = JNull.

(** The save of the Recording row completes: the run reaches the insert
    and goes to its end. *)
Definition save_attempted (o : Outcome) : Prop :=
  status o = Settled /\ existsb inserts_recording (effects o) = true.

(** The run contacted the Transcription Service. *)
Definition calls_transcription (o : Outcome) : Prop :=
  exists body, In (Invoke "transcribe-audio" body) (effects o).

(** *** Sample runs *)

Definition analysis_ok : JsVal :=
  JObj [("summary", JStr "A short test recording.");
        ("sentiment", JStr "neutral");
        ("tags", JArr [JStr "test"]);
        ("highlights", JArr [])].

(** A world in which storage, reader and store all go through, and the
    two services and the audio element answer as given. *)
Definition cooperative (transcription analysis : Reply) (meta : Metadata) : World :=
  {| Date_now := 1700000000000;
     upload := fun _ _ => None;
     getPublicUrl := fun fileName => "https://storage.example/recordings/" ++ fileName;
     readAsDataURL := fun blob => Some ("data:audio/webm;base64," ++ blob);
     invoke := fun function _ =>
                 if String.eqb function "transcribe-audio" then transcription
                 else analysis;
     loadMetadata := fun _ => meta;
     rejectRecording := fun _ _ => None;
     gen_random_uuid := fun _ => "7b0c1f6e-0000-4000-8000-000000000001";
     acceptHighlights := fun _ _ => true |}.

Definition recorded (blob : Blob) : Component :=
  mkComponent "Standup" false (Some "blob:recording") (Some blob) (Some "u1").

Definition empty_db : DB := mkDB [] [].

Definition transcript_ok : Reply :=
  mkReply (JObj [("text", JStr "hello world"); ("language", JStr "auto-detected")]) None.

(** A payload of 10,000,001 encoded characters. *)
Definition oversized : string := N.iter 10000001 (String "A"%char) "".

Definition sample_audio : string := "GkXfo59ChoEBQveBAULygQRC".

(** The run of the sample recording in world [w], on an empty store. *)
Definition sample_run (w : World) : Outcome :=
  handleSaveAndTranscribe w (recorded sample_audio) empty_db.

Definition sent_audio : JsVal := JObj [("audio", JStr sample_audio)].
Definition sent_text : JsVal := JObj [("text", JStr "hello world")].

Definition non_2xx : ClientError :=
  mkClientError true (Some "Edge Function returned a non-2xx status code").

(** Transcription: an error and no data. *)
Definition world_transcription_error : World :=
  cooperative (mkReply JNull (Some non_2xx)) (mkReply analysis_ok None)
              (Loaded (Seconds (32 # 10))).

(** Analysis: an error next to a summary. *)
Definition world_summary_with_error : World :=
  cooperative transcript_ok (mkReply analysis_ok (Some non_2xx))
              (Loaded (Seconds (32 # 10))).

(** Analysis: neither a summary nor an error. *)
Definition world_no_summary_no_error : World :=
  cooperative transcript_ok
              (mkReply (JObj [("sentiment", JStr "neutral"); ("tags", JArr [])]) None)
              (Loaded (Seconds (32 # 10))).

(** Everything succeeds and the audio element reports [meta]. *)
Definition world_with_metadata (meta : Metadata) : World :=
  cooperative transcript_ok (mkReply analysis_ok None) meta.

(** A request to the Transcription Service whose [audio] announces a length
    above the ceiling. *)
Definition long_request : Edge.Request :=
  Edge.mkRequest Edge.POST
    (inr (JObj [("audio", JObj [("length", JNum 10000001)])])).

Definition sample_env : Edge.Env :=
  Edge.mkEnv (Some "secret")
             (fun _ => Edge.Rejected (TypeError "error sending request"))
             "2025-08-06T18:33:42.000Z".

End Pipeline.

(* ================================================================== *)
(** * Reading a run of the pipeline *)
(* ================================================================== *)

Module Run.
Import JS Pipeline.

(** [`${user.id}/${Date.now()}.webm`] *)
Definition fileName (w : World) (uid : string) : string :=
  uid ++ "/" ++ Z_toString (Date_now w) ++ ".webm".

Definition is_toast (e : Effect) : bool :=
  match e with Toast _ _ _ => true | _ => false end.

(** A toast of the destructive variant. *)
Definition is_alarm (e : Effect) : bool :=
  match e with Toast _ _ destructive => destructive | _ => false end.

(** The row the sample run inserts when every collaborator goes along and
    the audio lasts 3.2 seconds. *)
Definition sample_row : RecordingInsert :=
  {| user_id := "u1";
     title := "Standup";
     audio_url := "https://storage.example/recordings/u1/1700000000000.webm";
     transcription := JStr "hello world";
     summary := JStr "A short test recording.";
     sentiment := JStr "neutral";
     tags := JArr [JStr "test"];
     duration_seconds := Whole 3;
     duration_formatted := "00:03" |}.

Definition sample_world : World := world_with_metadata (Loaded (Seconds (32 # 10))).

End Run.

(* ================================================================== *)
(** * The library page: statistics, rename and delete (the Index page) *)
(* ================================================================== *)

Module Library.
Import JS Pipeline.

(** ** fetchStats *)











(** ** Rename and delete *)

(** What a handler does, in order. *)
Inductive Action : Type :=
| RemoveObject (key : string)
| DeleteRow (id : string)
| UpdateTitle (id : string) (title : string)
| FetchRecordings
| FetchStats
| Notice (heading description : string) (destructive : bool).

(** How [storage.remove] ends: the object is removed, the call resolves
    without removing anything, or it rejects. *)
Inductive Removal : Type := Gone | Stays | Rejects.

Record Backend : Type := mkBackend {
  removeObject : string -> Removal;
  (** [error] of the delete *)
  refuseDelete : DB -> string -> option ClientError;
  (** [error] of the update *)
  refuseUpdate : DB -> string -> string -> option ClientError
}.

(** The relational store and the keys of the objects in the bucket. *)
Record Backing : Type := mkBacking {
  database : DB;
  bucket : list string
}.

(** The page: the rows fetched last and the signed-in user. *)
Record Page : Type := mkPage {
  listed : list Recording;
  signed_in : option string
}.

(** [url.split('/').pop()] *)
Definition pop_segment (url : string) : string := last (split_on "/"%char url) "".

(** [`${user?.id}/${fileName}`], when there is an [audio_url] and a last
    segment. *)
Definition storage_key (u : option string) (url : string) : option string :=
  if String.eqb url "" then None
  else let fileName := pop_segment url in
       if String.eqb fileName "" then None
       else Some (match u with Some uid => uid | None => "undefined" end
                  ++ "/" ++ fileName).

(** [delete().eq('id', id)]; the highlights go with their recording
    ([ON DELETE CASCADE]). *)
Definition delete_row (target : string) (d : DB) : DB :=
  mkDB (filter (fun r => negb (String.eqb (id r) target)) (recordings d))
       (filter (fun h => negb (String.eqb (recording_id h) target)) (highlights d)).

Definition failed (what : string) : Action :=
  Notice "Error" ("Failed to " ++ what ++ " recording. Please try again.") true.

Definition handleDeleteRecording (b : Backend) (p : Page) (target : string)
    (s : Backing) : Backing * list Action :=
  match find (fun r => String.eqb (id r) target) (listed p) with
  | None => (s, [])
  | Some recording =>
      let removal :=
        match storage_key (signed_in p) (audio_url (row recording)) with
        | Some key => Some (key, removeObject b key)
        | None => None
        end in
      match removal with
      | Some (key, Rejects) => (s, [RemoveObject key; failed "delete"])
      | _ =>
          let objects :=
            match removal with
            | Some (key, Gone) =>
                filter (fun k => negb (String.eqb k key)) (bucket s)
            | _ => bucket s
            end in
          let asked :=
            match removal with
            | Some (key, _) => [RemoveObject key]
            | None => []
            end in
          match refuseDelete b (database s) target with
          | Some _ =>
              (mkBacking (database s) objects,
               (asked ++ [DeleteRow target; failed "delete"])%list)
          | None =>
              (mkBacking (delete_row target (database s)) objects,
               (asked ++ [DeleteRow target; FetchRecordings; FetchStats;
                          Notice "Recording deleted"
                                 "Recording has been permanently deleted." false])%list)
          end
      end
  end.

(** [update({ title }).eq('id', id)] *)
Definition retitle (target newTitle : string) (d : DB) : DB :=
  mkDB (map (fun r =>
               if String.eqb (id r) target
               then mkRecording (id r)
                      {| user_id := user_id (row r); title := newTitle;
                         audio_url := audio_url (row r);
                         transcription := transcription (row r);
                         summary := summary (row r);
                         sentiment := sentiment (row r);
                         tags := tags (row r);
                         duration_seconds := duration_seconds (row r);
                         duration_formatted := duration_formatted (row r) |}
               else r)
            (recordings d))
       (highlights d).

(** [handleRenameRecording]; [answer] is what [prompt] returns, [None]
    when the dialog is cancelled. *)
Definition handleRenameRecording (b : Backend) (answer : option string)
    (target : string) (d : DB) : DB * list Action :=
  match answer with
  | Some newTitle =>
      if (negb (String.eqb newTitle "") && negb (String.eqb (trim newTitle) ""))%bool
      then match refuseUpdate b d target (trim newTitle) with
           | Some _ => (d, [UpdateTitle target (trim newTitle); failed "rename"])
           | None =>
               (retitle target (trim newTitle) d,
                [UpdateTitle target (trim newTitle); FetchRecordings;
                 Notice "Recording renamed"
                        "Recording title has been updated successfully." false])
           end
      else (d, [])
  | None => (d, [])
  end.

(** ** Vocabulary *)

(** Every highlight belongs to a stored recording. *)
Definition integral (d : DB) : Prop :=
  forall h, In h (highlights d) -> exists r, In r (recordings d) /\ id r = recording_id h.

(** The rows other than those with the given id. *)
Definition others (target : string) (d : DB) : list Recording :=
  filter (fun r => negb (String.eqb (id r) target)) (recordings d).

(** A store with one recording and one highlight of it. *)
Definition shelf : DB :=
  mkDB [mkRecording "7b0c1f6e-0000-4000-8000-000000000001" Run.sample_row]
       [mkHighlightInsert "7b0c1f6e-0000-4000-8000-000000000001"
          (JNum 1) (JStr "Kick-off")].


Definition lenient : Backend :=
  mkBackend (fun _ => Gone) (fun _ _ => None) (fun _ _ _ => None).

End Library.
(* ================================================================== *)
(** * Properties *)
(* ================================================================== *)

(** ** Dictionaries *)

Section ObjFacts.
Import JS.
Context {V : Type}.
Implicit Types (o : Obj V) (k : string) (v : V).

Lemma has_key_get k o : has_key k o = false <-> get k o = None.
Proof.
  unfold get. induction o as [|[k' v'] o IH]; simpl; [tauto|].
  destruct (String.eqb k k'); simpl; [split; discriminate | exact IH].
Qed.

Lemma has_key_keys k o : has_key k o = true <-> In k (keys o).
Proof.
  unfold keys. induction o as [|[k' v'] o IH]; simpl.
  - split; [discriminate | contradiction].
  - rewrite orb_true_iff, IH. destruct (String.eqb_spec k k'); subst.
    + tauto.
    + split; [intros [H|H]; [discriminate | now right]
             | intros [H|H]; [congruence | now right]].
Qed.

Lemma get_In k v o : get k o = Some v -> In (k, v) o.
Proof.
  unfold get. induction o as [|[k' v'] o IH]; simpl; [discriminate|].
  destruct (String.eqb_spec k k'); subst.
  - intros [= ->]. now left.
  - intros H. right. auto.
Qed.

Lemma In_get k v o : NoDup (keys o) -> In (k, v) o -> get k o = Some v.
Proof.
  unfold get, keys. induction o as [|[k' v'] o IH]; simpl; [contradiction|].
  intros ND [E|H].
  - injection E as -> ->. now rewrite String.eqb_refl.
  - inversion ND as [|? ? Hn ND']; subst.
    destruct (String.eqb_spec k k'); subst.
    + exfalso. apply Hn. change k' with (fst (k', v)). now apply in_map.
    + auto.
Qed.

Lemma keys_replace k v o : keys (replace k v o) = keys o.
Proof.
  unfold keys. induction o as [|[k' v'] o IH]; simpl; [reflexivity|].
  destruct (String.eqb k k'); simpl; congruence.
Qed.

Lemma get_replace_same k v o :
  has_key k o = true -> get k (replace k v o) = Some v.
Proof.
  unfold get. induction o as [|[k' v'] o IH]; simpl; [discriminate|].
  destruct (String.eqb k k') eqn:E; simpl; rewrite E; auto.
Qed.

Lemma get_replace_other k k' v o :
  k <> k' -> get k' (replace k v o) = get k' o.
Proof.
  unfold get. intros N. induction o as [|[k0 v0] o IH]; simpl; [reflexivity|].
  destruct (String.eqb_spec k k0); subst; simpl.
  - destruct (String.eqb_spec k' k0); congruence.
  - now rewrite IH.
Qed.

Lemma keys_insert_index n k v o k' :
  In k' (keys (insert_index n k v o)) <-> k' = k \/ In k' (keys o).
Proof.
  unfold keys. induction o as [|[k0 v0] o IH]; simpl.
  - intuition congruence.
  - destruct (array_index k0) as [m|]; [destruct (N.ltb m n)|]; simpl;
      rewrite ?IH; intuition congruence.
Qed.

Lemma get_insert_index_same n k v o :
  has_key k o = false -> get k (insert_index n k v o) = Some v.
Proof.
  unfold get. induction o as [|[k0 v0] o IH]; simpl.
  - now rewrite String.eqb_refl.
  - destruct (String.eqb k k0) eqn:E; simpl; [discriminate|]. intros H.
    destruct (array_index k0) as [m|]; [destruct (N.ltb m n)|]; simpl;
      rewrite ?E, ?String.eqb_refl; auto.
Qed.

Lemma get_insert_index_other n k k' v o :
  k <> k' -> get k' (insert_index n k v o) = get k' o.
Proof.
  unfold get. intros N. induction o as [|[k0 v0] o IH]; simpl.
  - destruct (String.eqb_spec k' k); congruence.
  - destruct (array_index k0) as [m|]; [destruct (N.ltb m n)|]; simpl;
      rewrite ?IH; try reflexivity;
      destruct (String.eqb_spec k' k); congruence.
Qed.

Lemma NoDup_insert_index n k v o :
  ~ In k (keys o) -> NoDup (keys o) -> NoDup (keys (insert_index n k v o)).
Proof.
  induction o as [|[k0 v0] o IH]; simpl; intros Hn ND.
  - constructor; [tauto | constructor].
  - assert (G : NoDup (k :: k0 :: keys o)) by (constructor; simpl; auto).
    destruct (array_index k0) as [m|]; [destruct (N.ltb m n)|]; simpl; auto.
    inversion ND as [|? ? Hk0 ND']; subst. constructor.
    + fold (keys (insert_index n k v o)). rewrite keys_insert_index.
      intros [->|H]; [apply Hn; now left | contradiction].
    + apply IH; auto.
Qed.

Lemma get_app_same k v o :
  has_key k o = false -> get k (o ++ [(k, v)])%list = Some v.
Proof.
  unfold get. induction o as [|[k0 v0] o IH]; simpl.
  - now rewrite String.eqb_refl.
  - destruct (String.eqb k k0); simpl; [discriminate | auto].
Qed.

Lemma get_app_other k k' v o :
  k <> k' -> get k' (o ++ [(k, v)])%list = get k' o.
Proof.
  unfold get. intros N. induction o as [|[k0 v0] o IH]; simpl.
  - destruct (String.eqb_spec k' k); congruence.
  - now rewrite IH.
Qed.

Lemma get_set_same k v o : get k (set k v o) = Some v.
Proof.
  unfold set. destruct (has_key k o) eqn:E.
  - now apply get_replace_same.
  - destruct (array_index k).
    + now apply get_insert_index_same.
    + now apply get_app_same.
Qed.

Lemma get_set_other k k' v o : k <> k' -> get k' (set k v o) = get k' o.
Proof.
  intros N. unfold set. destruct (has_key k o).
  - now apply get_replace_other.
  - destruct (array_index k).
    + now apply get_insert_index_other.
    + now apply get_app_other.
Qed.

Lemma keys_set k v o k' :
  In k' (keys (set k v o)) <-> k' = k \/ In k' (keys o).
Proof.
  unfold set. destruct (has_key k o) eqn:E.
  - rewrite keys_replace. apply has_key_keys in E.
    split; [now right | intros [->|H]; auto].
  - destruct (array_index k).
    + apply keys_insert_index.
    + unfold keys. rewrite map_app, in_app_iff. simpl. intuition congruence.
Qed.

Lemma NoDup_set k v o : NoDup (keys o) -> NoDup (keys (set k v o)).
Proof.
  intros ND. unfold set. destruct (has_key k o) eqn:E.
  - now rewrite keys_replace.
  - assert (Hn : ~ In k (keys o)).
    { intros H. apply has_key_keys in H. congruence. }
    destruct (array_index k).
    + now apply NoDup_insert_index.
    + unfold keys. rewrite map_app. simpl.
      apply NoDup_app; [exact ND | repeat constructor; simpl; tauto |].
      intros x Hx [<-|[]]. now apply Hn.
Qed.

Lemma get_keys k o : get k o <> None <-> In k (keys o).
Proof.
  rewrite <- has_key_keys. destruct (has_key k o) eqn:E.
  - split; [reflexivity|]. intros _ H. apply has_key_get in H. congruence.
  - apply has_key_get in E. rewrite E. split; [congruence | discriminate].
Qed.

(** A key that is not an array index is appended when it is new. *)
Lemma keys_set_plain k v o :
  array_index k = None ->
  keys (set k v o) = set_add k (keys o).
Proof.
  intros Hk. unfold set, set_add.
  assert (E : existsb (String.eqb k) (keys o) = has_key k o).
  { unfold keys. induction o as [|[k0 v0] o IH]; simpl; [reflexivity|].
    now rewrite IH. }
  rewrite E. destruct (has_key k o).
  - apply keys_replace.
  - rewrite Hk. unfold keys. now rewrite map_app.
Qed.

End ObjFacts.

(** ** Search *)

Section SearchFacts.
Import JS Search.

Lemma startsWith_spec s q :
  startsWith s q = true <-> exists post, s = q ++ post.
Proof.
  revert s; induction q as [|a q IH]; intros s; simpl.
  - split; [intros _; now exists s | intros _; now destruct s].
  - destruct s as [|b s]; simpl.
    + split; [discriminate | intros [post H]; discriminate].
    + rewrite andb_true_iff, IH. split.
      * intros [E [post ->]]. apply Ascii.eqb_eq in E; subst. now exists post.
      * intros [post H]. injection H as -> ->. split; [apply Ascii.eqb_refl | now exists post].
Qed.

Lemma includes_spec s q : includes s q = true <-> substring_of q s.
Proof.
  unfold substring_of. induction s as [|c s IH].
  - cbn [includes]. rewrite orb_false_r, startsWith_spec. split.
    + intros [post H]. now exists "", post.
    + intros [pre [post H]]. destruct pre; simpl in H; [now exists post | discriminate].
  - cbn [includes]. rewrite orb_true_iff, startsWith_spec, IH. split.
    + intros [[post H] | [pre [post H]]].
      * now exists "", post.
      * exists (String c pre), post. simpl. now rewrite H.
    + intros [pre [post H]]. destruct pre as [|d pre]; simpl in H.
      * left. now exists post.
      * right. injection H as -> ->. now exists pre, post.
Qed.

Lemma matches_spec query r : matches query r = true <-> Hit query r.
Proof.
  unfold matches, Hit, field_includes; cbv zeta.
  rewrite !orb_true_iff.
  assert (F : forall o q,
    match o with Some s => includes (toLowerCase s) q | None => false end = true
    <-> exists t, o = Some t /\ substring_of q (toLowerCase t)).
  { intros [s|] q.
    - rewrite includes_spec. split.
      + intros H; now exists s.
      + now intros [t [[= ->] H]].
    - split; [discriminate | now intros [t [[=] _]]]. }
  rewrite !F.
  assert (T : match rec_tags r with
              | Some ts => existsb (fun tag => includes (toLowerCase tag) (toLowerCase query)) ts
              | None => false
              end = true
              <-> exists ts tag, rec_tags r = Some ts /\ In tag ts /\
                    substring_of (toLowerCase query) (toLowerCase tag)).
  { destruct (rec_tags r) as [ts|].
    - rewrite existsb_exists. split.
      + intros [tag [Hin H]]. apply includes_spec in H. now exists ts, tag.
      + intros [ts' [tag [[= <-] [Hin H]]]]. exists tag. now rewrite includes_spec.
    - split; [discriminate | now intros [ts [tag [[=] _]]]]. }
  rewrite T. tauto.
Qed.

Lemma results_blank fmt st :
  trim (query st) = "" -> results (handleSearch fmt st) = [].
Proof.
  intros E. unfold handleSearch. now rewrite E.
Qed.

Lemma results_nonblank fmt st :
  trim (query st) <> "" ->
  results (handleSearch fmt st)
  = map (toResult fmt) (filter (matches (query st)) (allRecordings st)).
Proof.
  intros E. unfold handleSearch.
  destruct (String.eqb_spec (trim (query st)) ""); [contradiction | reflexivity].
Qed.

(** C9 (as amended).  For every stored corpus and every query that is not
    blank (something is left of it once trimmed), handleSearch returns, in
    corpus order, exactly the result records of the Recordings for which the
    lowercased query is a substring of the lowercased title, transcription,
    summary or of at least one tag; a blank query returns nothing.  A
    corpus holding the one Recording titled "Team Sync" whose transcript
    mentions "roadmap" is returned for "team", "Sync" and "roadmap", and
    nothing is returned for "budget". *)
Theorem search_returns_hits_of_nonblank_query
    (fmt : string -> string) (st : State) (Hq : trim (query st) <> "") :
  returns_exactly_hits fmt st /\
  (forall blank, trim (query blank) = "" -> results (handleSearch fmt blank) = []) /\
  results (handleSearch fmt (corpus "team")) = [toResult fmt teamSync] /\
  results (handleSearch fmt (corpus "Sync")) = [toResult fmt teamSync] /\
  results (handleSearch fmt (corpus "roadmap")) = [toResult fmt teamSync] /\
  results (handleSearch fmt (corpus "budget")) = [].
Proof.
  split.
  - exists (matches (query st)). split.
    + intros r. apply matches_spec.
    + now apply results_nonblank.
  - split; [intros blank; apply results_blank|].
    repeat split; reflexivity.
Qed.

Lemma search_returns_hits_of_nonblank_query_witness :
  trim (query (corpus "team")) <> "" /\
  returns_exactly_hits (fun d => d) (corpus "team").
Proof.
  assert (H : trim (query (corpus "team")) <> "") by (vm_compute; discriminate).
  split; [exact H|].
  exact (proj1 (search_returns_hits_of_nonblank_query (fun d => d) (corpus "team") H)).
Defined.

(** C9 as stated fails on a query that is not empty but blank: the guard
    [!query.trim()] empties the results although the single space occurs in
    the title "Team Sync". *)
Lemma search_blank_query_counterexample :
  ~ (query (corpus " ") <> "" -> returns_exactly_hits (fun d => d) (corpus " ")).
Proof.
  intros H. destruct H as [keep [K E]]; [discriminate|].
  assert (Hhit : Hit (query (corpus " ")) teamSync).
  { apply matches_spec. reflexivity. }
  apply K in Hhit. rewrite results_blank in E by reflexivity.
  simpl in E. rewrite Hhit in E. discriminate.
Qed.

End SearchFacts.

(** ** Dominant sentiment *)

Section SentimentFacts.
Import JS Graph.

Lemma votes_snoc s l x :
  votes s (l ++ [x]) = votes s l + (if string_dec x s then 1 else 0).
Proof.
  unfold votes. rewrite count_occ_app. simpl.
  destruct (string_dec x s); lia.
Qed.

Lemma votes_pos s l : In s l <-> 0 < votes s l.
Proof.
  unfold votes. rewrite (count_occ_In string_dec). lia.
Qed.

Lemma votes_zero s l : ~ In s l <-> votes s l = 0.
Proof.
  unfold votes. rewrite (count_occ_not_In string_dec). lia.
Qed.

Lemma census_snoc l x :
  census (l ++ [x]) = set x (or_zero (get x (census l)) + 1) (census l).
Proof.
  unfold census. now rewrite fold_left_app.
Qed.

Lemma census_get l s :
  (In s l -> get s (census l) = Some (votes s l)) /\
  (~ In s l -> get s (census l) = None).
Proof.
  induction l as [|x l IH] using rev_ind.
  - split; [contradiction | reflexivity].
  - rewrite census_snoc, votes_snoc, in_app_iff. simpl.
    destruct IH as [IH1 IH0]. destruct (string_dec x s) as [->|N].
    + rewrite get_set_same. split; [intros _ | tauto].
      destruct (in_dec string_dec s l) as [H|H].
      * now rewrite (IH1 H).
      * rewrite (IH0 H). apply votes_zero in H. rewrite H. reflexivity.
    + rewrite (get_set_other _ _ _ _ N), Z.add_0_r.
      split; intros H; [apply IH1 | apply IH0]; intuition congruence.
Qed.

Lemma census_NoDup l : NoDup (keys (census l)).
Proof.
  induction l as [|x l IH] using rev_ind.
  - constructor.
  - rewrite census_snoc. now apply NoDup_set.
Qed.

Lemma census_keys l s : In s (keys (census l)) <-> In s l.
Proof.
  rewrite <- get_keys. destruct (census_get l s) as [H1 H0].
  destruct (in_dec string_dec s l) as [H|H].
  - rewrite (H1 H). split; [tauto | discriminate].
  - rewrite (H0 H). split; [congruence | contradiction].
Qed.

Lemma census_entry l s c : In (s, c) (census l) -> In s l /\ c = votes s l.
Proof.
  intros H. assert (K : In s (keys (census l))).
  { unfold keys. change s with (fst (s, c)). now apply in_map. }
  apply (proj1 (census_keys l s)) in K. split; [exact K|].
  apply In_get in H; [|apply census_NoDup].
  destruct (census_get l s) as [H1 _]. rewrite (H1 K) in H. congruence.
Qed.

(** *** The counting object on numbers only *)

Lemma keys_numbered (o : Obj Z) :
  keys (map (fun e => (fst e, Times (snd e))) o) = keys o.
Proof.
  unfold keys. rewrite map_map. reflexivity.
Qed.

Lemma get_numbered k (o : Obj Z) :
  get k (map (fun e => (fst e, Times (snd e))) o) = option_map Times (get k o).
Proof.
  unfold get. induction o as [|[k' v] o IH]; simpl; [reflexivity|].
  now destruct (String.eqb k k').
Qed.

Lemma has_key_numbered k (o : Obj Z) :
  has_key k (map (fun e => (fst e, Times (snd e))) o) = has_key k o.
Proof.
  induction o as [|[k' v] o IH]; simpl; [reflexivity|]. now rewrite IH.
Qed.

Lemma set_numbered k v (o : Obj Z) :
  set k (Times v) (map (fun e => (fst e, Times (snd e))) o)
  = map (fun e => (fst e, Times (snd e))) (set k v o).
Proof.
  unfold set. rewrite has_key_numbered. destruct (has_key k o).
  - induction o as [|[k' v'] o IH]; simpl; [reflexivity|].
    destruct (String.eqb k k'); simpl; [reflexivity | now rewrite IH].
  - destruct (array_index k) as [n|].
    + induction o as [|[k' v'] o IH]; simpl; [reflexivity|].
      destruct (array_index k') as [m|]; [destruct (N.ltb m n)|]; simpl;
        rewrite ?IH; reflexivity.
    + now rewrite map_app.
Qed.

Lemma inherited_proto : inherited "__proto__" = true.
Proof. reflexivity. Qed.

Lemma tally_snoc l x :
  tally (l ++ [x]) = assign x (plus_one x (member x (tally l))) (tally l).
Proof.
  unfold tally. now rewrite fold_left_app.
Qed.

(** On sentiments none of which names a member of [Object.prototype],
    the counting object holds numbers only, those of [census]. *)
Lemma tally_census l :
  Forall (fun s => inherited s = false) l ->
  tally l = map (fun e => (fst e, Times (snd e))) (census l).
Proof.
  induction l as [|x l IH] using rev_ind; intros F; [reflexivity|].
  apply Forall_app in F. destruct F as [Fl Fx]. inversion Fx as [|? ? Hx _]; subst.
  rewrite tally_snoc, census_snoc, (IH Fl). unfold assign, member.
  destruct (String.eqb_spec x "__proto__") as [->|_].
  { rewrite inherited_proto in Hx. discriminate. }
  rewrite get_numbered, Hx, <- set_numbered.
  now destruct (get x (census l)).
Qed.

Lemma encounter_order_snoc l x :
  encounter_order (l ++ [x]) = set_add x (encounter_order l).
Proof.
  unfold encounter_order. now rewrite fold_left_app.
Qed.

Lemma census_keys_plain l :
  Forall plain l -> keys (census l) = encounter_order l.
Proof.
  induction l as [|x l IH] using rev_ind; intros F.
  - reflexivity.
  - apply Forall_app in F. destruct F as [Fl Fx].
    rewrite census_snoc, encounter_order_snoc, keys_set_plain, IH; auto.
    now inversion Fx.
Qed.

Lemma In_set_add x y s : In y (set_add x s) <-> y = x \/ In y s.
Proof.
  unfold set_add. destruct (existsb (String.eqb x) s) eqn:E.
  - apply existsb_exists in E. destruct E as [z [Hz E]].
    apply String.eqb_eq in E. subst z. split; [now right | intros [->|H]; auto].
  - rewrite in_app_iff. simpl. intuition congruence.
Qed.

Lemma encounter_order_In l s : In s (encounter_order l) <-> In s l.
Proof.
  induction l as [|x l IH] using rev_ind.
  - reflexivity.
  - rewrite encounter_order_snoc, In_set_add, in_app_iff, IH. simpl.
    intuition congruence.
Qed.

Lemma snoc_split {A : Type} (a : list A) (x : A) pre s post :
  (a ++ [x] = pre ++ s :: post)%list ->
  (post = [] /\ a = pre /\ x = s) \/
  (exists post', post = post' ++ [x] /\ a = pre ++ s :: post')%list.
Proof.
  intros E. destruct post as [|p post] using rev_ind.
  - left. apply app_inj_tail in E. tauto.
  - right. clear IHpost. exists post.
    change (pre ++ s :: post ++ [p])%list with (pre ++ (s :: post) ++ [p])%list in E.
    rewrite app_assoc in E. apply app_inj_tail in E.
    destruct E as [-> ->]. auto.
Qed.

(** Where a sentiment sits in the encounter order tells where it is first
    met in the list. *)
Lemma encounter_order_split l pre s post :
  encounter_order l = (pre ++ s :: post)%list ->
  exists l1 l2, (l = l1 ++ s :: l2)%list /\ ~ In s l1 /\ (forall t, In t pre -> In t l1).
Proof.
  revert pre post. induction l as [|x l IH] using rev_ind; intros pre post E.
  - destruct pre; discriminate.
  - rewrite encounter_order_snoc in E. unfold set_add in E.
    destruct (existsb (String.eqb x) (encounter_order l)) eqn:Hx.
    + destruct (IH _ _ E) as [l1 [l2 [-> [Hn Hp]]]].
      exists l1, (l2 ++ [x])%list. rewrite <- app_assoc. auto.
    + apply snoc_split in E. destruct E as [[-> [E ->]] | [post' [-> E]]].
      * exists l, []. split; [reflexivity|]. split.
        -- intros H. apply encounter_order_In in H.
           assert (F : existsb (String.eqb s) (encounter_order l) = true).
           { apply existsb_exists. exists s. split; [exact H | apply String.eqb_refl]. }
           congruence.
        -- intros t Ht. apply encounter_order_In. now rewrite E.
      * destruct (IH _ _ E) as [l1 [l2 [-> [Hn Hp]]]].
        exists l1, (l2 ++ [x])%list. rewrite <- app_assoc. auto.
Qed.

(** The [reduce] of [getDominantSentiment] keeps the last entry of
    greatest weight, when the weights are numbers. *)
Lemma reduce_keeps_last_greatest {E : Type} (w : E -> option Count) (f : E -> Z)
    (rest : list E) (first : E) :
  (forall e, In e (first :: rest) -> w e = Some (Times (f e))) ->
  let r := fold_left (fun a b => if count_gt (w a) (w b) then a else b) rest first in
  exists pre post,
    (first :: rest = pre ++ r :: post)%list /\
    (forall e, In e pre -> f e <= f r) /\
    (forall e, In e post -> f e < f r).
Proof.
  induction rest as [|b rest IH] using rev_ind; intros Hw r.
  - exists [], []. simpl. repeat split; contradiction.
  - subst r. rewrite fold_left_app. simpl.
    set (r' := fold_left _ rest first).
    destruct IH as [pre [post [E0 [Hpre Hpost]]]].
    { intros e He. apply Hw. simpl in *. rewrite in_app_iff. tauto. }
    fold r' in E0, Hpre, Hpost.
    assert (Hr' : In r' (first :: rest)).
    { rewrite E0. apply in_elt. }
    rewrite (Hw r'), (Hw b); cycle 1.
    { simpl. rewrite in_app_iff. simpl. tauto. }
    { simpl in *. rewrite in_app_iff. tauto. }
    unfold count_gt. destruct (Z.gtb_spec (f r') (f b)) as [G|G].
    + exists pre, (post ++ [b])%list. split.
      * change (first :: rest ++ [b])%list with ((first :: rest) ++ [b])%list.
        rewrite E0, <- app_assoc. reflexivity.
      * split; [exact Hpre|]. intros e He. apply in_app_iff in He.
        destruct He as [He|[<-|[]]]; [auto | lia].
    + exists (first :: rest), []. split; [reflexivity|]. split; [|contradiction].
      intros e He. rewrite E0 in He. apply in_app_iff in He.
      destruct He as [He|[<-|He]].
      * specialize (Hpre e He). lia.
      * lia.
      * specialize (Hpost e He). lia.
Qed.

Lemma getDominantSentiment_spec
    (l : list string) (Hne : l <> [])
    (Hnames : Forall (fun s => inherited s = false) l) :
  exists s,
    getDominantSentiment l = Some s /\
    In s l /\
    (forall t, votes t l <= votes s l) /\
    (exists pre post, (keys (tally l) = pre ++ s :: post)%list /\
        forall t, In t post -> votes t l < votes s l) /\
    (Forall plain l -> last_of_greatest l s).
Proof.
  unfold getDominantSentiment.
  pose proof (tally_census l Hnames) as T.
  assert (ND : NoDup (keys (tally l))).
  { rewrite T, keys_numbered. apply census_NoDup. }
  assert (Hk : forall t, In t (keys (tally l)) <-> In t l).
  { intros t. rewrite T, keys_numbered. apply census_keys. }
  assert (Hent : forall e, In e (tally l) ->
            In (fst e) l /\ get (fst e) (tally l) = Some (Times (votes (fst e) l))).
  { intros e H. assert (K : In (fst e) l).
    { apply Hk. unfold keys. now apply in_map. }
    split; [exact K|]. rewrite T, get_numbered.
    now rewrite (proj1 (census_get l (fst e)) K). }
  assert (Hall : forall t, In t l -> exists e, In e (tally l) /\ fst e = t).
  { intros t Ht. apply Hk in Ht. unfold keys in Ht. apply in_map_iff in Ht.
    destruct Ht as [e [E He]]. now exists e. }
  assert (Hplain : Forall plain l -> keys (tally l) = encounter_order l).
  { intros P. rewrite T, keys_numbered. now apply census_keys_plain. }
  destruct (tally l) as [|first rest] eqn:Tl.
  { destruct l as [|x l]; [congruence|].
    destruct (Hall x (or_introl eq_refl)) as [e [[] _]]. }
  destruct (reduce_keeps_last_greatest
              (fun e => get (fst e) (first :: rest)) (fun e => votes (fst e) l)
              rest first (fun e He => proj2 (Hent e He)))
    as [pre [post [E [Hpre Hpost]]]].
  set (r := fold_left _ rest first) in *.
  assert (Hr : In r (first :: rest)) by (rewrite E; apply in_elt).
  destruct (Hent r Hr) as [Hin _].
  assert (Hmax : forall t, votes t l <= votes (fst r) l).
  { intros t. destruct (in_dec string_dec t l) as [Ht|Ht].
    - destruct (Hall t Ht) as [e [He <-]]. rewrite E in He.
      apply in_app_iff in He. destruct He as [H|[H|H]].
      + apply (Hpre _ H).
      + rewrite H. lia.
      + specialize (Hpost _ H). simpl in Hpost. lia.
    - apply votes_zero in Ht. rewrite Ht. apply votes_pos in Hin. lia. }
  assert (Hkeys : (keys (first :: rest) = map fst pre ++ fst r :: map fst post)%list).
  { unfold keys. rewrite E, map_app. reflexivity. }
  assert (Hlater : forall t, In t (map fst post) -> votes t l < votes (fst r) l).
  { intros t Ht. apply in_map_iff in Ht. destruct Ht as [e [<- He]].
    now apply Hpost. }
  exists (fst r). split; [reflexivity|]. split; [exact Hin|]. split; [exact Hmax|].
  split.
  - exists (map fst pre), (map fst post). split; [exact Hkeys | exact Hlater].
  - intros P. split; [exact Hmax|].
    pose proof (Hplain P) as K. rewrite Hkeys in K.
    symmetry in K. destruct (encounter_order_split _ _ _ _ K) as [l1 [l2 [El [Hn Hp]]]].
    exists l1, l2. split; [exact El|]. split; [exact Hn|].
    intros t Hts Hvt. apply Hp.
    assert (Ht : In t l).
    { apply votes_pos. rewrite Hvt. now apply votes_pos. }
    apply Hk in Ht. rewrite Hkeys in Ht. apply in_app_iff in Ht.
    destruct Ht as [H|[H|H]].
    + exact H.
    + congruence.
    + specialize (Hlater t H). lia.
Qed.

(** C8 (as amended).  For every non-empty list of sentiments none of
    which is the name of a member of Object.prototype,
    getDominantSentiment returns a sentiment of the list with the greatest
    occurrence count, and it is the last entry of greatest count in the
    key order of the counting object.  For sentiments that are not spelled
    like array indices (such as positive, neutral, negative) that order is
    the encounter order, so that on a tie the sentiment returned is the one
    encountered last: every other sentiment with as many occurrences is
    first met earlier in the list. *)
Theorem dominant_sentiment_greatest_last_on_tie
    (l : list string) (Hne : l <> [])
    (Hnames : Forall (fun s => inherited s = false) l) :
  exists s,
    getDominantSentiment l = Some s /\
    In s l /\
    (forall t, votes t l <= votes s l) /\
    (exists pre post, (keys (tally l) = pre ++ s :: post)%list /\
        forall t, In t post -> votes t l < votes s l) /\
    (Forall plain l -> last_of_greatest l s).
Proof.
  exact (getDominantSentiment_spec l Hne Hnames).
Qed.

Lemma dominant_sentiment_greatest_last_on_tie_witness :
  ["positive"; "neutral"; "positive"; "neutral"] <> [] /\
  Forall (fun s => inherited s = false) ["positive"; "neutral"; "positive"; "neutral"] /\
  exists s, getDominantSentiment ["positive"; "neutral"; "positive"; "neutral"] = Some s /\
            last_of_greatest ["positive"; "neutral"; "positive"; "neutral"] s.
Proof.
  assert (H : ["positive"; "neutral"; "positive"; "neutral"] <> []) by discriminate.
  assert (N : Forall (fun s => inherited s = false)
                ["positive"; "neutral"; "positive"; "neutral"])
    by (repeat constructor).
  split; [exact H|]. split; [exact N|].
  destruct (dominant_sentiment_greatest_last_on_tie _ H N) as [s [E [_ [_ [_ L]]]]].
  exists s. split; [exact E|]. apply L.
  repeat constructor.
Defined.

(** C8 as stated fails on a tie: of "positive" then "negative", one
    occurrence each, the reduce keeps the later entry, not the first one. *)
Lemma dominant_sentiment_first_on_tie_counterexample :
  ~ (forall s, getDominantSentiment ["positive"; "negative"] = Some s ->
               first_of_greatest ["positive"; "negative"] s).
Proof.
  intros H. destruct (H "negative" eq_refl) as [_ [l1 [l2 [E [Hn Hlt]]]]].
  destruct l1 as [|a l1].
  - discriminate.
  - injection E as <- E. specialize (Hlt "positive" (or_introl eq_refl)).
    vm_compute in Hlt. discriminate.
Qed.

(** Sentiments that name members of Object.prototype are not counted as
    the others are: "constructor" met twice loses to "positive" met once,
    its count being a text, and "__proto__" leaves the counting object
    empty, on which the reduce throws. *)
Lemma inherited_sentiments_miscounted :
  getDominantSentiment ["constructor"; "constructor"; "positive"] = Some "positive" /\
  tally ["constructor"; "constructor"]
  = [("constructor", Script "function Object() { [native code] }11")] /\
  getDominantSentiment ["__proto__"] = None.
Proof.
  repeat split; reflexivity.
Qed.

End SentimentFacts.

(** ** The tag tables *)

Section ScanFacts.
Import JS Graph.

Lemma enter_visits (r : Row) (l : list string) (t : Tables) :
  fold_left (enter (or_nil (tags r)) (sentiment_of r)) l t
  = fold_left step (map (fun tag => (r, tag)) l) t.
Proof.
  revert t. induction l as [|x l IH]; intros t; simpl; [reflexivity|].
  now rewrite IH.
Qed.

(** The inner loop goes through exactly when no tag is inherited. *)
Lemma forEach_visit tgs sentiment (l : list string) (t : Tables) :
  forEach (visit tgs sentiment) l t
  = if forallb (fun tag => negb (inherited tag)) l
    then inr (fold_left (enter tgs sentiment) l t)
    else inl (TypeError "tagSentiments[tag].push is not a function").
Proof.
  revert t. induction l as [|x l IH]; intros t; simpl; [reflexivity|].
  unfold visit at 1. destruct (inherited x); simpl; [reflexivity | apply IH].
Qed.

Lemma scan_from (recordings : list Row) (t : Tables) :
  forEach visit_recording recordings t
  = if forallb (fun tag => negb (inherited tag)) (map snd (visits recordings))
    then inr (fold_left step (visits recordings) t)
    else inl (TypeError "tagSentiments[tag].push is not a function").
Proof.
  revert t. induction recordings as [|r rs IH]; intros t; simpl; [reflexivity|].
  unfold visit_recording at 1. rewrite forEach_visit.
  rewrite map_app, forallb_app, map_map, map_id, fold_left_app.
  destruct (forallb (fun tag => negb (inherited tag)) (or_nil (tags r)));
    simpl; [|reflexivity].
  rewrite IH, enter_visits. reflexivity.
Qed.

(** The double loop throws exactly when some tag names a member of
    [Object.prototype]; otherwise it leaves the tables of [charted]. *)
Lemma scan_visits (recordings : list Row) :
  scan recordings
  = if forallb (fun tag => negb (inherited tag)) (map snd (visits recordings))
    then inr (charted recordings)
    else inl (TypeError "tagSentiments[tag].push is not a function").
Proof.
  apply scan_from.
Qed.

Lemma ordinary_cons r rs :
  ordinary (r :: rs) = true <->
  inherited (sentiment_of r) = false /\
  forallb (fun tag => negb (inherited tag)) (or_nil (tags r)) = true /\
  ordinary rs = true.
Proof.
  unfold ordinary. simpl. rewrite !andb_true_iff, negb_true_iff. tauto.
Qed.

Lemma ordinary_tags recordings :
  ordinary recordings = true ->
  forallb (fun tag => negb (inherited tag)) (map snd (visits recordings)) = true.
Proof.
  induction recordings as [|r rs IH]; [reflexivity|]. intros H.
  apply ordinary_cons in H. destruct H as [_ [Ht Hrs]]. simpl.
  rewrite map_app, forallb_app, map_map, map_id, Ht. now apply IH.
Qed.

Lemma ordinary_sentiment recordings r :
  ordinary recordings = true -> In r recordings -> inherited (sentiment_of r) = false.
Proof.
  induction recordings as [|x rs IH]; [contradiction|]. intros H.
  apply ordinary_cons in H. destruct H as [Hs [_ Hrs]].
  intros [<-|Hr]; [exact Hs | now apply IH].
Qed.

(** When the double loop goes through, no tag it has met names a member
    of [Object.prototype]: the keys and the targets of the tables are own
    keys, and what is read under them afterwards is what the loop put
    there. *)
Lemma scanned_names recordings t :
  scan recordings = inr t ->
  t = charted recordings /\
  forall tag, In tag (map snd (visits recordings)) -> inherited tag = false.
Proof.
  rewrite scan_visits.
  destruct (forallb _ (map snd (visits recordings))) eqn:F; [|discriminate].
  intros [= <-]. split; [reflexivity|]. intros tag Ht.
  rewrite forallb_forall in F. apply negb_true_iff. now apply F.
Qed.

Lemma scan_ordinary recordings :
  ordinary recordings = true -> scan recordings = inr (charted recordings).
Proof.
  intros H. now rewrite scan_visits, (ordinary_tags _ H).
Qed.

Lemma visits_In recordings r tag :
  In (r, tag) (visits recordings) <-> In r recordings /\ In tag (or_nil (tags r)).
Proof.
  unfold visits. rewrite in_flat_map. split.
  - intros [r' [Hr H]]. apply in_map_iff in H. destruct H as [x [E Hx]].
    injection E as -> ->. auto.
  - intros [Hr Ht]. exists r. split; [exact Hr|]. apply in_map_iff. now exists tag.
Qed.

Lemma votes_visits tag recordings :
  votes tag (map snd (visits recordings)) = occurrences tag recordings.
Proof.
  unfold votes. induction recordings as [|r rs IH]; simpl; [reflexivity|].
  rewrite map_app, count_occ_app, map_map, map_id, Nat2Z.inj_add, IH.
  reflexivity.
Qed.

(** [tagCounts] holds the census of the tags visited. *)
Lemma tagCounts_census vs :
  tagCounts (fold_left step vs (mkTables [] [] [])) = census (map snd vs).
Proof.
  induction vs as [|v vs IH] using rev_ind; [reflexivity|].
  rewrite fold_left_app, map_app. cbn [map fold_left].
  rewrite census_snoc, <- IH. reflexivity.
Qed.

Lemma tagCounts_scan recordings tag :
  get tag (tagCounts (charted recordings))
  = if in_dec string_dec tag (map snd (visits recordings))
    then Some (occurrences tag recordings) else None.
Proof.
  unfold charted. rewrite tagCounts_census.
  destruct (census_get (map snd (visits recordings)) tag) as [H1 H0].
  destruct (in_dec string_dec tag (map snd (visits recordings))) as [H|H].
  - now rewrite (H1 H), votes_visits.
  - now apply H0.
Qed.

Lemma tag_visited recordings tag :
  In tag (map snd (visits recordings)) <->
  exists r, In r recordings /\ In tag (or_nil (tags r)).
Proof.
  rewrite in_map_iff. split.
  - intros [[r x] [E H]]. simpl in E. subst x. apply visits_In in H. now exists r.
  - intros [r H]. exists (r, tag). split; [reflexivity | now apply visits_In].
Qed.

Lemma sentiments_for_snoc tag vs v :
  sentiments_for tag (vs ++ [v])
  = (sentiments_for tag vs
     ++ if String.eqb (snd v) tag then [sentiment_of (fst v)] else [])%list.
Proof.
  unfold sentiments_for. rewrite filter_app, map_app. simpl.
  now destruct (String.eqb (snd v) tag).
Qed.

Lemma tagSentiments_scan vs tag :
  let t := fold_left step vs (mkTables [] [] []) in
  or_nil (get tag (tagSentiments t)) = sentiments_for tag vs /\
  (get tag (tagSentiments t) = None <-> ~ In tag (map snd vs)).
Proof.
  induction vs as [|[r x] vs IH] using rev_ind; cbv zeta.
  - split; [reflexivity|]. simpl. tauto.
  - cbv zeta in IH. destruct IH as [IH1 IH2].
    rewrite fold_left_app, sentiments_for_snoc, map_app, in_app_iff. simpl.
    destruct (String.eqb_spec x tag) as [->|N].
    + rewrite get_set_same, IH1. simpl. split; [reflexivity|].
      split; [discriminate | tauto].
    + rewrite (get_set_other _ _ _ _ N), app_nil_r. split; [exact IH1|].
      rewrite IH2. intuition congruence.
Qed.

Lemma sentiments_for_In tag vs s :
  In s (sentiments_for tag vs) <-> exists r, In (r, tag) vs /\ sentiment_of r = s.
Proof.
  unfold sentiments_for. rewrite in_map_iff. split.
  - intros [[r x] [E H]]. apply filter_In in H. destruct H as [H Hx].
    simpl in *. apply String.eqb_eq in Hx. subst x. now exists r.
  - intros [r [H E]]. exists (r, tag). split; [exact E|].
    apply filter_In. split; [exact H | apply String.eqb_refl].
Qed.

Lemma sentiments_for_nonempty tag vs :
  In tag (map snd vs) -> sentiments_for tag vs <> [].
Proof.
  intros H. apply in_map_iff in H. destruct H as [[r x] [E H]]. simpl in E. subst x.
  intros E. assert (K : In (sentiment_of r) (sentiments_for tag vs)).
  { apply sentiments_for_In. now exists r. }
  now rewrite E in K.
Qed.

Lemma link_In tag tgs targets y :
  In y (link tag tgs targets) <-> In y targets \/ (In y tgs /\ y <> tag).
Proof.
  unfold link. revert targets. induction tgs as [|x tgs IH]; intros targets; simpl.
  - tauto.
  - rewrite IH. destruct (String.eqb_spec tag x) as [->|N].
    + intuition congruence.
    + rewrite In_set_add. intuition congruence.
Qed.

(** What [tagConnections] holds after a run of visits. *)
Lemma tagConnections_scan vs :
  let conns := tagConnections (fold_left step vs (mkTables [] [] [])) in
  NoDup (keys conns) /\
  (forall src, get src conns = None <-> ~ In src (map snd vs)) /\
  (forall src y, In y (or_nil (get src conns)) <->
     y <> src /\ exists r, In (r, src) vs /\ In y (or_nil (tags r))).
Proof.
  induction vs as [|[r x] vs IH] using rev_ind; cbv zeta.
  - split; [constructor|]. split.
    + intros src. simpl. tauto.
    + intros src y. simpl. split; [contradiction|]. intros [_ [r [[] _]]].
  - cbv zeta in IH. destruct IH as [ND [Hnone Hin]].
    rewrite fold_left_app. simpl.
    set (t := fold_left step vs (mkTables [] [] [])) in *.
    set (conns0 := match get x (tagConnections t) with
                   | Some _ => tagConnections t
                   | None => set x [] (tagConnections t)
                   end).
    assert (ND0 : NoDup (keys conns0)).
    { unfold conns0. destruct (get x (tagConnections t)); [exact ND|].
      now apply NoDup_set. }
    assert (G0 : forall k, k <> x -> get k conns0 = get k (tagConnections t)).
    { intros k Hk. unfold conns0. destruct (get x (tagConnections t)); [reflexivity|].
      apply get_set_other. congruence. }
    assert (Gx : or_nil (get x conns0) = or_nil (get x (tagConnections t))).
    { unfold conns0. destruct (get x (tagConnections t)) eqn:E.
      - now rewrite E.
      - now rewrite get_set_same. }
    split; [now apply NoDup_set|]. split.
    + intros src. rewrite map_app, in_app_iff. simpl.
      destruct (String.eqb_spec x src) as [->|N].
      * rewrite get_set_same. split; [discriminate | tauto].
      * rewrite (get_set_other _ _ _ _ N), G0 by congruence.
        rewrite Hnone. intuition congruence.
    + intros src y. destruct (String.eqb_spec x src) as [->|N].
      * rewrite get_set_same. simpl. rewrite link_In, Gx, Hin. split.
        -- intros [[Hy [r' [Hr' Hy']]] | [Hy Hne]].
           ++ split; [exact Hy|]. exists r'. rewrite in_app_iff. auto.
           ++ split; [exact Hne|]. exists r. rewrite in_app_iff. simpl. auto.
        -- intros [Hy [r' [Hr' Hy']]]. apply in_app_iff in Hr'.
           destruct Hr' as [Hr'|[E|[]]].
           ++ left. split; [exact Hy|]. now exists r'.
           ++ injection E as <-. right. auto.
      * rewrite (get_set_other _ _ _ _ N), G0 by congruence.
        rewrite Hin. split.
        -- intros [Hy [r' [Hr' Hy']]]. split; [exact Hy|]. exists r'.
           rewrite in_app_iff. auto.
        -- intros [Hy [r' [Hr' Hy']]]. split; [exact Hy|]. exists r'.
           apply in_app_iff in Hr'. destruct Hr' as [Hr'|[E|[]]]; [auto|].
           injection E as <- E. congruence.
Qed.

End ScanFacts.

(** ** The derived graph *)

Section GraphFacts.
Import JS Graph.

Lemma code_inj x y : code x = code y -> x = y.
Proof.
  unfold code. intros H.
  rewrite <- (ascii_N_embedding x), <- (ascii_N_embedding y). now rewrite H.
Qed.

Lemma str_lt_irrefl a : str_lt a a = false.
Proof.
  induction a as [|x a IH]; simpl; [reflexivity|].
  now rewrite N.ltb_irrefl.
Qed.

Lemma str_lt_total a b : a <> b -> str_lt a b = true \/ str_lt b a = true.
Proof.
  revert b. induction a as [|x a IH]; intros [|y b] Hne; simpl; auto.
  destruct (N.ltb_spec (code x) (code y)) as [L|L]; [now left|].
  destruct (N.ltb_spec (code y) (code x)) as [L'|L']; [now right|].
  assert (E : x = y) by (apply code_inj; lia). subst y.
  apply IH. congruence.
Qed.

Lemma make_nodes_spec sents total entries index :
  (forall e, In e entries ->
     or_nil (get (fst e) sents) <> [] /\
     Forall (fun s => inherited s = false) (or_nil (get (fst e) sents))) ->
  exists ns,
    make_nodes sents total index entries = Some ns /\
    map (fun n => (node_id n, count (data n))) ns
    = map (fun e => (fst e, Some (snd e))) entries /\
    forall n, In n ns ->
      exists c dom, In (node_id n, c) entries /\
                    count (data n) = Some c /\
                    sentiment (data n) = Some dom /\
                    In dom (or_nil (get (node_id n) sents)).
Proof.
  revert index. induction entries as [|[tag c] entries IH]; intros index H; simpl.
  - exists []. repeat split. contradiction.
  - pose proof (H (tag, c) (or_introl eq_refl)) as [Hl Hord]. simpl in Hl, Hord.
    destruct (get tag sents) as [l|] eqn:G; [|now elim Hl]. simpl in Hl, Hord.
    destruct (getDominantSentiment_spec l Hl Hord) as [dom [-> [Hdom _]]].
    clear Hord.
    destruct (IH (S index)) as [ns [-> [Hmap Hns]]].
    { intros e He. apply H. now right. }
    eexists. split; [reflexivity|]. split.
    + simpl. now rewrite Hmap.
    + intros n [<-|Hn].
      * exists c, dom. simpl. rewrite G. simpl. auto.
      * destruct (Hns n Hn) as [c' [dom' [K1 K2]]]. exists c', dom'. auto.
Qed.

Lemma make_edges_In counts conns e :
  In e (make_edges counts conns) <->
  exists src targets tgt,
    In (src, targets) conns /\ In tgt targets /\
    wants_edge counts src tgt = true /\ e = mkTagEdge counts src tgt.
Proof.
  unfold make_edges. rewrite in_flat_map. split.
  - intros [[src targets] [H K]]. apply in_flat_map in K.
    destruct K as [tgt [Ht K]]. exists src, targets, tgt.
    destruct (wants_edge counts src tgt); [|contradiction].
    destruct K as [<-|[]]. auto.
  - intros [src [targets [tgt [H [Ht [W ->]]]]]]. exists (src, targets).
    split; [exact H|]. apply in_flat_map. exists tgt. split; [exact Ht|].
    rewrite W. now left.
Qed.

Lemma visited_count recordings tag :
  In tag (map snd (visits recordings)) ->
  get tag (tagCounts (charted recordings)) = Some (occurrences tag recordings) /\
  0 < occurrences tag recordings.
Proof.
  intros H. rewrite tagCounts_scan.
  destruct (in_dec string_dec tag (map snd (visits recordings))); [|contradiction].
  split; [reflexivity|]. rewrite <- votes_visits. now apply votes_pos.
Qed.

Lemma sentiments_for_ordinary recordings tag :
  ordinary recordings = true ->
  Forall (fun s => inherited s = false) (sentiments_for tag (visits recordings)).
Proof.
  intros H. apply Forall_forall. intros s Hs. apply sentiments_for_In in Hs.
  destruct Hs as [r [Hr <-]]. apply visits_In in Hr.
  apply (ordinary_sentiment recordings r H). tauto.
Qed.

(** On recordings whose tags and sentiments name no member of
    [Object.prototype], the [try] block of [generateKnowledgeGraph] does
    not throw, and what it yields is read off the tag tables. *)
Lemma derive_spec recordings :
  ordinary recordings = true ->
  exists ns,
    make_nodes (tagSentiments (charted recordings))
               (List.length (tagCounts (charted recordings))) 0
               (tagCounts (charted recordings)) = Some ns /\
    derive recordings
    = Some (ns, make_edges (tagCounts (charted recordings))
                           (tagConnections (charted recordings))) /\
    map (fun n => (node_id n, count (data n))) ns
    = map (fun e => (fst e, Some (snd e))) (tagCounts (charted recordings)) /\
    forall n, In n ns ->
      count (data n) = Some (occurrences (node_id n) recordings) /\
      exists dom r, sentiment (data n) = Some dom /\ In r recordings /\
                    In (node_id n) (or_nil (tags r)) /\ sentiment_of r = dom.
Proof.
  intros Hord. unfold derive. rewrite (scan_ordinary recordings Hord).
  assert (Hent : forall tag c, In (tag, c) (tagCounts (charted recordings)) ->
            In tag (map snd (visits recordings)) /\ c = occurrences tag recordings).
  { intros tag c H. unfold charted in H. rewrite tagCounts_census in H.
    apply census_entry in H. now rewrite votes_visits in H. }
  pose proof (tagSentiments_scan (visits recordings)) as S. cbv zeta in S.
  fold (charted recordings) in S.
  destruct (make_nodes_spec (tagSentiments (charted recordings))
              (List.length (tagCounts (charted recordings)))
              (tagCounts (charted recordings)) 0)
    as [ns [M [Hmap Hns]]].
  { intros [tag c] He. simpl. destruct (Hent tag c He) as [Hv _].
    rewrite (proj1 (S tag)). split.
    - now apply sentiments_for_nonempty.
    - now apply sentiments_for_ordinary. }
  exists ns. rewrite M. split; [reflexivity|]. split; [reflexivity|].
  split; [exact Hmap|].
  intros n Hn. destruct (Hns n Hn) as [c [dom [He [Hc [Hs Hd]]]]].
  destruct (Hent _ _ He) as [Hv ->]. split; [exact Hc|].
  rewrite (proj1 (S (node_id n))) in Hd. apply sentiments_for_In in Hd.
  destruct Hd as [r [Hr <-]]. apply visits_In in Hr.
  exists (sentiment_of r), r. tauto.
Qed.

(** A tag that names a member of [Object.prototype] makes the [try]
    block throw. *)
Lemma derive_inherited recordings r tag :
  In r recordings -> In tag (or_nil (tags r)) -> inherited tag = true ->
  derive recordings = None.
Proof.
  intros Hr Ht Hi. unfold derive. rewrite scan_visits.
  destruct (forallb _ (map snd (visits recordings))) eqn:F; [|reflexivity].
  rewrite forallb_forall in F. specialize (F tag).
  rewrite Hi in F. discriminate F. apply tag_visited. now exists r.
Qed.


Lemma cooccurring_edge recordings a b :
  cooccur recordings a b -> str_lt a b = true ->
  In (mkTagEdge (tagCounts (charted recordings)) a b)
     (make_edges (tagCounts (charted recordings)) (tagConnections (charted recordings))) /\
  connectionStrength (tagCounts (charted recordings)) a b
  = Some (Z.min (occurrences a recordings) (occurrences b recordings)).
Proof.
  intros [r [Hr [Ha Hb]]] L.
  assert (Hab : b <> a).
  { intros ->. rewrite str_lt_irrefl in L. discriminate. }
  assert (Va : In a (map snd (visits recordings))) by (apply tag_visited; now exists r).
  assert (Vb : In b (map snd (visits recordings))) by (apply tag_visited; now exists r).
  destruct (visited_count _ _ Va) as [Ga Pa].
  destruct (visited_count _ _ Vb) as [Gb Pb].
  split.
  - pose proof (tagConnections_scan (visits recordings)) as C. cbv zeta in C.
    fold (charted recordings) in C. destruct C as [ND [_ Hin]].
    assert (K : In b (or_nil (get a (tagConnections (charted recordings))))).
    { apply Hin. split; [exact Hab|]. exists r. split; [|exact Hb].
      now apply visits_In. }
    destruct (get a (tagConnections (charted recordings))) as [targets|] eqn:G;
      [|contradiction].
    apply make_edges_In. exists a, targets, b. split; [now apply get_In|].
    split; [exact K|]. split; [|reflexivity].
    unfold wants_edge. rewrite Gb, L.
    destruct (Z.eqb_spec (occurrences b recordings) 0); [lia | reflexivity].
  - unfold connectionStrength. now rewrite Ga, Gb.
Qed.

Lemma str_lt_asym a b : str_lt a b = true -> str_lt b a = false.
Proof.
  revert b. induction a as [|x a IH]; intros [|y b]; simpl; auto; try discriminate.
  destruct (N.ltb_spec (code x) (code y)) as [L|L].
  - destruct (N.ltb_spec (code y) (code x)); [lia | reflexivity].
  - destruct (N.ltb_spec (code y) (code x)); [discriminate | apply IH].
Qed.


Lemma generate_spec uid table before :
  select_tagged uid table <> [] ->
  ordinary (select_tagged uid table) = true ->
  let recs := select_tagged uid table in
  exists ns,
    make_nodes (tagSentiments (charted recs)) (List.length (tagCounts (charted recs))) 0
               (tagCounts (charted recs)) = Some ns /\
    generateKnowledgeGraph uid (Some table) before
    = mkView ns (make_edges (tagCounts (charted recs)) (tagConnections (charted recs)))
             false /\
    map (fun n => (node_id n, count (data n))) ns
    = map (fun e => (fst e, Some (snd e))) (tagCounts (charted recs)) /\
    forall n, In n ns ->
      count (data n) = Some (occurrences (node_id n) recs) /\
      exists dom r, sentiment (data n) = Some dom /\ In r recs /\
                    In (node_id n) (or_nil (tags r)) /\ sentiment_of r = dom.
Proof.
  intros Hne Hord. cbv zeta.
  destruct (derive_spec (select_tagged uid table) Hord) as [ns [M [D [Hmap Hns]]]].
  exists ns. split; [exact M|]. split; [|split; [exact Hmap | exact Hns]].
  unfold generateKnowledgeGraph.
  destruct (select_tagged uid table) as [|r rs] eqn:E; [congruence|].
  now rewrite D.
Qed.

(** With a tag that names a member of [Object.prototype] among them,
    the recordings are not drawn at all: the [catch] shows the
    placeholder. *)
Lemma generate_inherited uid table before r tag :
  In r (select_tagged uid table) -> In tag (or_nil (tags r)) ->
  inherited tag = true ->
  generateKnowledgeGraph uid (Some table) before
  = mkView initialNodes initialEdges false.
Proof.
  intros Hr Ht Hi. pose proof (derive_inherited _ r tag Hr Ht Hi) as D.
  unfold generateKnowledgeGraph.
  destruct (select_tagged uid table) as [|x rs]; [reflexivity|]. now rewrite D.
Qed.




(** X29.  Away from the names of the members of Object.prototype, graph
    construction is as specified.  Two Recordings tagged [a, b] and [b, c]
    give the nodes a, b, c with counts 1, 2, 1 and exactly the edges a-b
    and b-c.  In general, any two distinct tags that occur together in a
    Recording are joined by one edge, whose weight (connectionStrength) is
    the minimum of the two tags' occurrence counts over all the Recordings;
    the edge is drawn with a stroke of max(1, weight / 2). *)
Theorem graph_construction_on_ordinary_names
    (s1 s2 t1 t2 : option string) (uid : string) (table : list Row)
    (before : View) (a b : string)
    (Hexample : ordinary (two_recordings s1 s2 t1 t2) = true)
    (Hnames : ordinary (select_tagged uid table) = true)
    (Hco : cooccur (select_tagged uid table) a b) (Hab : a <> b) :
  (let v := generateKnowledgeGraph "u1" (Some (two_recordings s1 s2 t1 t2)) before in
   map (fun n => (node_id n, count (data n))) (nodes v)
   = [("a", Some 1); ("b", Some 2); ("c", Some 1)] /\
   map (fun e => (source e, target e)) (edges v) = [("a", "b"); ("b", "c")]) /\
  (let recs := select_tagged uid table in
   let weight := Z.min (occurrences a recs) (occurrences b recs) in
   exists e,
     In e (edges (generateKnowledgeGraph uid (Some table) before)) /\
     joins e a b /\
     connectionStrength (tagCounts (charted recs)) (source e) (target e) = Some weight /\
     strokeWidth e = Some (Qmax 1 (inject_Z weight / 2)) /\
     forall e', In e' (edges (generateKnowledgeGraph uid (Some table) before)) ->
                joins e' a b -> e' = e).
Proof.
  split.
  - cbv zeta.
    destruct (generate_spec "u1" (two_recordings s1 s2 t1 t2) before)
      as [ns [_ [-> [Hmap _]]]]; [discriminate | exact Hexample |].
    change (select_tagged "u1" (two_recordings s1 s2 t1 t2))
      with (two_recordings s1 s2 t1 t2) in *.
    simpl nodes. simpl edges. rewrite Hmap. split; vm_compute; reflexivity.
  - intros recs weight.
    assert (Hne : select_tagged uid table <> []).
    { destruct Hco as [r [Hr _]]. intros E. now rewrite E in Hr. }
    destruct (generate_spec uid table before Hne Hnames) as [ns [_ [-> _]]].
    fold recs. simpl edges.
    assert (Main : forall x y, cooccur recs x y -> str_lt x y = true ->
              Z.min (occurrences x recs) (occurrences y recs) = weight ->
              joins (mkTagEdge (tagCounts (charted recs)) x y) a b ->
              (x = a /\ y = b) \/ (x = b /\ y = a) ->
              exists e,
                In e (make_edges (tagCounts (charted recs))
                                 (tagConnections (charted recs))) /\
                joins e a b /\
                connectionStrength (tagCounts (charted recs)) (source e) (target e)
                = Some weight /\
                strokeWidth e = Some (Qmax 1 (inject_Z weight / 2)) /\
                forall e', In e' (make_edges (tagCounts (charted recs))
                                             (tagConnections (charted recs))) ->
                           joins e' a b -> e' = e).
    { intros x y Hxy L W J Hends.
      destruct (cooccurring_edge recs x y Hxy L) as [Hin Hstr].
      exists (mkTagEdge (tagCounts (charted recs)) x y).
      split; [exact Hin|]. split; [exact J|]. simpl. rewrite Hstr, W.
      split; [reflexivity|]. split; [reflexivity|].
      intros e' He' J'. apply make_edges_In in He'.
      destruct He' as [src [targets [tgt [_ [_ [Wt ->]]]]]].
      unfold wants_edge in Wt. apply andb_true_iff in Wt. destruct Wt as [_ L'].
      unfold joins in J'. simpl in J'.
      assert (Hsame : src = x /\ tgt = y).
      { destruct Hends as [[-> ->]|[-> ->]]; destruct J' as [[-> ->]|[-> ->]]; auto;
          apply str_lt_asym in L; congruence. }
      destruct Hsame as [-> ->]. reflexivity. }
    destruct (str_lt_total a b Hab) as [L|L].
    + apply (Main a b Hco L); [reflexivity | left; simpl; auto | auto].
    + assert (Hco' : cooccur recs b a).
      { destruct Hco as [r H]. exists r. tauto. }
      apply (Main b a Hco' L); [unfold weight; lia | right; simpl; auto | auto].
Qed.

Lemma graph_construction_on_ordinary_names_witness :
  ordinary (two_recordings None None None None) = true /\
  cooccur (select_tagged "u1" (two_recordings None None None None)) "b" "a" /\
  "b" <> "a" /\
  exists e,
    In e (edges (generateKnowledgeGraph "u1"
                   (Some (two_recordings None None None None)) (mkView [] [] true))) /\
    joins e "b" "a" /\ strokeWidth e = Some 1%Q.
Proof.
  assert (N : ordinary (two_recordings None None None None) = true) by reflexivity.
  assert (Hco : cooccur (select_tagged "u1" (two_recordings None None None None)) "b" "a").
  { exists (mkRow "u1" (Some ["a"; "b"]) None None). simpl. tauto. }
  assert (Hab : "b" <> "a") by discriminate.
  split; [exact N|]. split; [exact Hco|]. split; [exact Hab|].
  destruct (proj2 (graph_construction_on_ordinary_names None None None None
                     "u1" (two_recordings None None None None) (mkView [] [] true)
                     "b" "a" N N Hco Hab)) as [e [Hin [J [_ [W _]]]]].
  exists e. split; [exact Hin|]. split; [exact J|]. exact W.
Defined.

(** C7 (where the code departs from it).  A Recording tagged
    "constructor" and "refactoring" bears two co-occurring tags, yet graph
    construction yields neither their nodes nor an edge between them: the
    tag "constructor" is looked up in object literals, which inherit a
    member of that name, the loop throws and the placeholder graph is
    shown instead.  The two Recordings tagged [a, b] and [b, c] are lost in
    the same way when their sentiment is "__proto__", on which the count
    of sentiments stays empty. *)
Theorem inherited_name_loses_the_graph :
  cooccur (select_tagged "u1" code_review) "constructor" "refactoring" /\
  generateKnowledgeGraph "u1" (Some code_review) (mkView [] [] true)
  = mkView initialNodes initialEdges false /\
  (forall e, In e (edges (generateKnowledgeGraph "u1" (Some code_review)
                            (mkView [] [] true))) ->
             ~ joins e "constructor" "refactoring") /\
  generateKnowledgeGraph "u1"
    (Some (two_recordings (Some "__proto__") (Some "__proto__") None None))
    (mkView [] [] true)
  = mkView initialNodes initialEdges false.
Proof.
  split; [|split; [|split]].
  - exists (mkRow "u1" (Some ["constructor"; "refactoring"]) (Some "neutral")
                  (Some "Code review")).
    simpl. tauto.
  - reflexivity.
  - intros e He [[E _]|[E _]];
      simpl in He; repeat (destruct He as [<-|He]; [discriminate E|]);
      contradiction.
  - reflexivity.
Qed.

End GraphFacts.

(** ** The duration display *)

Section RecorderFacts.
Import JS Recorder.

Lemma to_uint_not_Nil n : N.to_uint n <> Decimal.Nil.
Proof.
  intros E. pose proof (DecimalN.Unsigned.of_to n) as H. rewrite E in H.
  simpl in H. subst n. discriminate.
Qed.

Lemma N_toString_digits n :
  N_toString n = NilEmpty.string_of_uint (N.to_uint n).
Proof.
  unfold N_toString, NilZero.string_of_uint.
  destruct (N.to_uint n) eqn:E; try reflexivity.
  now elim (to_uint_not_Nil n).
Qed.

Lemma decimal_N_toString n : decimal (N_toString n) = Some n.
Proof.
  unfold decimal. rewrite N_toString_digits, NilEmpty.usu. simpl.
  now rewrite DecimalN.Unsigned.of_to.
Qed.

Lemma decimal_leading_zeros k s :
  decimal (repeat_char k "0"%char ++ s) = decimal s.
Proof.
  induction k as [|k IH]; simpl; [reflexivity|].
  unfold decimal in *. simpl.
  destruct (NilEmpty.uint_of_string (repeat_char k "0"%char ++ s)) as [d|];
    destruct (NilEmpty.uint_of_string s) as [d'|]; simpl in *; congruence.
Qed.

Lemma decimal_padStart0 n : decimal (padStart0 2 (N_toString n)) = Some n.
Proof.
  unfold padStart0. now rewrite decimal_leading_zeros, decimal_N_toString.
Qed.

Lemma uint_no_colon d : has_char ":"%char (NilEmpty.string_of_uint d) = false.
Proof.
  induction d; simpl; auto.
Qed.

Lemma has_char_append c a b :
  has_char c (a ++ b) = (has_char c a || has_char c b)%bool.
Proof.
  induction a as [|x a IH]; simpl; [reflexivity|].
  now rewrite IH, orb_assoc.
Qed.

Lemma has_char_repeat c x k : x <> c -> has_char c (repeat_char k x) = false.
Proof.
  intros N. induction k as [|k IH]; simpl; [reflexivity|].
  rewrite IH. destruct (Ascii.eqb_spec x c); [contradiction | reflexivity].
Qed.

Lemma padded_no_colon n : has_char ":"%char (padStart0 2 (N_toString n)) = false.
Proof.
  unfold padStart0.
  rewrite has_char_append, has_char_repeat, N_toString_digits, uint_no_colon;
    [reflexivity | discriminate].
Qed.

Lemma split_on_whole sep s : has_char sep s = false -> split_on sep s = [s].
Proof.
  induction s as [|x s IH]; simpl; [reflexivity|].
  destruct (Ascii.eqb x sep); simpl; [discriminate|].
  intros H. now rewrite (IH H).
Qed.

Lemma split_on_first sep a b :
  has_char sep a = false ->
  split_on sep (a ++ String sep b) = a :: split_on sep b.
Proof.
  induction a as [|x a IH]; simpl.
  - now rewrite Ascii.eqb_refl.
  - destruct (Ascii.eqb x sep); simpl; [discriminate|].
    intros H. now rewrite (IH H).
Qed.

Lemma padStart0_length k s : (k <= String.length (padStart0 k s))%nat.
Proof.
  unfold padStart0.
  assert (A : forall a b, String.length (a ++ b) = (String.length a + String.length b)%nat).
  { induction a as [|x a IH]; intros b; simpl; [reflexivity | now rewrite IH]. }
  assert (E : forall n c, String.length (repeat_char n c) = n).
  { induction n; simpl; auto. }
  rewrite A, E. lia.
Qed.

Lemma two_digit_seconds (r : nat) :
  (r < 60)%nat -> String.length (padStart0 2 (N_toString (N.of_nat r))) = 2%nat.
Proof.
  intros H.
  do 60 (destruct r as [|r]; [reflexivity|]). lia.
Qed.

Lemma Z_toString_nonneg z : 0 <= z -> Z_toString z = N_toString (Z.to_N z).
Proof.
  intros H. unfold Z_toString. destruct (Z.ltb_spec z 0); [lia | reflexivity].
Qed.

(** A display produced from a non-negative elapsed time reads back as the
    whole seconds elapsed, split into minutes and seconds below 60. *)
Lemma read_clock_formatElapsed elapsed :
  0 <= elapsed ->
  read_clock (formatElapsed elapsed)
  = Some (Z.to_N (elapsed / 1000 / 60), Z.to_N ((elapsed / 1000) mod 60)).
Proof.
  intros H. unfold formatElapsed; cbv zeta.
  assert (Hs : 0 <= elapsed / 1000) by (apply Z.div_pos; lia).
  assert (Hm : 0 <= elapsed / 1000 / 60) by (apply Z.div_pos; lia).
  rewrite Z.rem_mod_nonneg by lia.
  pose proof (Z.mod_pos_bound (elapsed / 1000) 60 ltac:(lia)) as Hr.
  rewrite !Z_toString_nonneg by lia.
  set (m := Z.to_N (elapsed / 1000 / 60)).
  set (r := Z.to_N ((elapsed / 1000) mod 60)).
  unfold read_clock.
  change (padStart0 2 (N_toString m) ++ ":" ++ padStart0 2 (N_toString r))
    with (padStart0 2 (N_toString m) ++ String ":"%char (padStart0 2 (N_toString r))).
  rewrite split_on_first by apply padded_no_colon.
  rewrite split_on_whole by apply padded_no_colon.
  assert (L1 : Nat.leb 2 (String.length (padStart0 2 (N_toString m))) = true).
  { apply Nat.leb_le. apply padStart0_length. }
  assert (L2 : Nat.eqb (String.length (padStart0 2 (N_toString r))) 2 = true).
  { apply Nat.eqb_eq. replace r with (N.of_nat (Z.to_nat ((elapsed / 1000) mod 60))).
    - apply two_digit_seconds. lia.
    - unfold r. lia. }
  rewrite L1, L2, !decimal_padStart0. reflexivity.
Qed.

Lemma run_snoc evs e h : run (evs ++ [e]) h = react (run evs h) e.
Proof.
  unfold run. now rewrite fold_left_app.
Qed.

(** Ticks and data chunks leave the session as [startRecording] set it up. *)
Lemma uninterrupted_session evs h :
  Forall uninterrupted evs ->
  startTimeRef (run evs h) = startTimeRef h /\
  timers (run evs h) = timers h /\
  isRecording (run evs h) = isRecording h /\
  isPaused (run evs h) = isPaused h.
Proof.
  induction evs as [|e evs IH] using rev_ind; intros F.
  - simpl. repeat split.
  - apply Forall_app in F. destruct F as [F Fe]. inversion Fe as [|? ? He _]; subst.
    destruct (IH F) as [I1 [I2 [I3 I4]]]. rewrite run_snoc.
    rewrite <- I1, <- I2, <- I3, <- I4. clear I1 I2 I3 I4.
    destruct e; simpl in He; try contradiction; simpl;
      generalize (run evs h); intros [r1 r2 r3 r4 r5 r6 r7 r8 r9 r10 r11 r12]; simpl.
    + destruct r11; [repeat split|]. unfold updateDuration. simpl.
      destruct (r9 =? 0); simpl; repeat split.
    + unfold dataAvailable. destruct (strlen c >? 0); simpl; repeat split.
Qed.

Lemma tick_display evs h now :
  Forall uninterrupted evs ->
  startTimeRef h <> 0 -> timers h <> O ->
  duration (run (evs ++ [Tick now]) h) = formatElapsed (now - startTimeRef h).
Proof.
  intros F Hs Ht. destruct (uninterrupted_session evs h F) as [I1 [I2 _]].
  rewrite run_snoc. simpl. rewrite I2.
  destruct (timers h); [congruence|].
  unfold updateDuration. rewrite I1.
  destruct (Z.eqb_spec (startTimeRef h) 0); [contradiction | reflexivity].
Qed.

(** C10.  In a session started at clock value t0 and never paused, the
    display left by a timer tick at clock value t reads, in zero-padded
    MM:SS, the time elapsed since the start rounded down to whole seconds;
    a tick 65 seconds after the start leaves "01:05". *)
Theorem duration_display_is_elapsed_seconds
    (h : Hook) (opus : bool) (events : list Event) (t0 t : Z)
    (Hclock : 0 < t0) (Hlater : t0 <= t)
    (Hsession : Forall uninterrupted events) :
  let shown :=
    duration (run (events ++ [Tick t]) (startRecording t0 Granted opus h)) in
  let seconds := (t - t0) / 1000 in
  read_clock shown = Some (Z.to_N (seconds / 60), Z.to_N (seconds mod 60)) /\
  0 <= seconds mod 60 < 60 /\
  seconds / 60 * 60 + seconds mod 60 = seconds /\
  (seconds = 65 -> shown = "01:05").
Proof.
  cbv zeta.
  rewrite tick_display; [|exact Hsession | simpl; lia | simpl; discriminate].
  simpl startTimeRef. split.
  - apply read_clock_formatElapsed. lia.
  - split; [apply Z.mod_pos_bound; lia|]. split.
    + pose proof (Z.div_mod ((t - t0) / 1000) 60 ltac:(lia)). lia.
    + intros E. unfold formatElapsed. cbv zeta. rewrite E. reflexivity.
Qed.

Lemma duration_display_is_elapsed_seconds_witness :
  0 < 1700000000000 /\ 1700000000000 <= 1700000065400 /\
  Forall uninterrupted [Tick 1700000001003; Data "chunk"; Tick 1700000002001] /\
  duration (run ([Tick 1700000001003; Data "chunk"; Tick 1700000002001]
                   ++ [Tick 1700000065400])
                (startRecording 1700000000000 Granted true initial)) = "01:05".
Proof.
  assert (H1 : 0 < 1700000000000) by lia.
  assert (H2 : 1700000000000 <= 1700000065400) by lia.
  assert (H3 : Forall uninterrupted
                 [Tick 1700000001003; Data "chunk"; Tick 1700000002001])
    by (repeat constructor).
  split; [exact H1|]. split; [exact H2|]. split; [exact H3|].
  exact (proj2 (proj2 (proj2
    (duration_display_is_elapsed_seconds initial true _ _ _ H1 H2 H3))) eq_refl).
Defined.

End RecorderFacts.

(** ** The pipeline *)

Section PipelineFacts.
Import JS Pipeline.

Lemma nullish_no_member v k : nullish v = true -> truthy (opt_prop v k) = false.
Proof.
  unfold opt_prop. now intros ->.
Qed.

Lemma string_length_gt s n :
  n < strlen s -> num_gt (prop (JStr s) "length") n = true.
Proof.
  intros H. simpl. apply negb_true_iff.
  destruct (Qle_bool (inject_Z (strlen s)) (inject_Z n)) eqn:E; [|reflexivity].
  apply Qle_bool_iff in E. rewrite <- Zle_Qle in E. lia.
Qed.

Lemma strlen_iter c n : strlen (N.iter n (String c) "") = Z.of_N n.
Proof.
  induction n as [|n IH] using N.peano_ind; [reflexivity|].
  rewrite N.iter_succ, N2Z.inj_succ. simpl. now rewrite IH.
Qed.

Lemma has_char_iter c x n : x <> c -> has_char c (N.iter n (String x) "") = false.
Proof.
  intros Hx. induction n as [|n IH] using N.peano_ind; [reflexivity|].
  rewrite N.iter_succ. simpl. rewrite IH.
  destruct (Ascii.eqb_spec x c); [contradiction | reflexivity].
Qed.

Lemma base64_part (payload : string) :
  has_char ","%char payload = false ->
  nth_error (split_on ","%char ("data:audio/webm;base64," ++ payload)) 1 = Some payload.
Proof.
  intros H.
  change ("data:audio/webm;base64," ++ payload)
    with ("data:audio/webm;base64" ++ String ","%char payload).
  rewrite split_on_first by reflexivity.
  now rewrite split_on_whole.
Qed.

Local Opaque truthy opt_prop prop nullish num_gt or_else split_on nth_error
  cannot_read Z_toString formatDuration floor_duration String.append select_single
  highlight_rows.

Ltac atomic x :=
  lazymatch x with
  | context [match _ with _ => _ end] => fail
  | _ => idtac
  end.

(** Runs the pipeline symbolically: one case per answer of a collaborator. *)
Ltac run_pipeline :=
  unfold handleSaveAndTranscribe, upload_and_process, process, processing_error,
    base64_of, transcribe, analyze, measure, new_row, save, save_highlights,
    try_catch, bind, emit, throw, never, ret, get_db, put_db;
  repeat (cbn [fst snd db log status component store effects];
          match goal with
          | |- context [match ?x with _ => _ end] => atomic x; destruct x eqn:?
          end);
  cbn [fst snd db log status component store effects app saved existsb
       inserts_recording recordings].

(** Finds which logged effect a membership hypothesis speaks of. *)
Ltac pick_effect H :=
  cbn [In app] in H;
  repeat match type of H with
         | _ \/ _ => destruct H as [H|H]
         | False => contradiction
         | @eq Effect _ _ => first [discriminate H | injection H as H; subst]
         end.

(** Two readings of one error are the same error. *)
Ltac same_error :=
  repeat match goal with
         | H : ?x = Some ?a, H' : ?x = Some ?b |- _ =>
             assert (a = b) by congruence; subst b; clear H'
         | H : ?x = Some _, H' : ?x = None |- _ => congruence
         end.

Lemma transcript_missing w c d r :
  transcription_reply w (handleSaveAndTranscribe w c d) r ->
  truthy (opt_prop (data r) "text") = false ->
  no_row_written d (handleSaveAndTranscribe w c d) /\
  aborted_with
    match error r with
    | Some e => "Transcription failed: "
                ++ or_else (message e) "Unknown transcription error"
    | None => "No transcription text received from the API"
    end
    (handleSaveAndTranscribe w c d).
Proof.
  unfold transcription_reply, no_row_written, aborted_with.
  intros [body [Hin ->]]. revert Hin.
  run_pipeline.
  all: intros Hin Hfail; pick_effect Hin; try congruence.
  all: same_error.
  all: repeat split; cbn [In app]; auto 10.
Qed.

Lemma transcript_present w c d r :
  transcription_reply w (handleSaveAndTranscribe w c d) r ->
  truthy (opt_prop (data r) "text") = true ->
  In (Invoke "analyze-recording" (JObj [("text", opt_prop (data r) "text")]))
     (effects (handleSaveAndTranscribe w c d)).
Proof.
  unfold transcription_reply. intros [body [Hin ->]]. revert Hin.
  run_pipeline.
  all: intros Hin Hok; pick_effect Hin; try congruence.
  all: cbn [In app]; auto 10.
Qed.

Lemma analysis_cases w c d r :
  analysis_reply w (handleSaveAndTranscribe w c d) r ->
  (truthy (opt_prop (data r) "summary") = true ->
   past_analysis (data r) (handleSaveAndTranscribe w c d)) /\
  (truthy (opt_prop (data r) "summary") = false ->
   forall e, error r = Some e ->
     no_row_written d (handleSaveAndTranscribe w c d) /\
     aborted_with ("Analysis failed: " ++ or_else (message e) "Unknown analysis error")
                  (handleSaveAndTranscribe w c d)) /\
  (truthy (opt_prop (data r) "summary") = false ->
   error r = None -> nullish (data r) = false ->
   past_analysis (data r) (handleSaveAndTranscribe w c d)).
Proof.
  unfold analysis_reply, no_row_written, aborted_with, past_analysis.
  intros [body [Hin ->]]. revert Hin.
  run_pipeline.
  all: intros Hin; pick_effect Hin.
  all: repeat match goal with
              | H : nullish ?v = true, H' : truthy (opt_prop ?v ?k) = true |- _ =>
                  rewrite (nullish_no_member v k H) in H'; discriminate H'
              end.
  all: split; [|split].
  all: try (intros; congruence).
  all: try (intros _; right; eexists; split;
            [cbn [In app]; do 3 right; left; reflexivity | repeat split]).
  all: try (intros _; now left).
  all: try (intros _ e' He'; split; [split; reflexivity|];
            split; [reflexivity|]; cbn [In app];
            replace e' with c0 by congruence; auto 10).
  all: try (intros _ _ _; right; eexists; split;
            [cbn [In app]; do 3 right; left; reflexivity | repeat split]).
  all: try (intros _ _ _; now left).
Qed.

Lemma metadata_loaded w c d r dd :
  analysis_reply w (handleSaveAndTranscribe w c d) r ->
  truthy (opt_prop (data r) "summary") = true \/
  (error r = None /\ nullish (data r) = false) ->
  (forall blob, audioBlob c = Some blob -> loadMetadata w blob = Loaded dd) ->
  exists new,
    In (InsertRecording new) (effects (handleSaveAndTranscribe w c d)) /\
    duration_seconds new = floor_duration dd /\
    duration_formatted new = formatDuration (floor_duration dd) /\
    status (handleSaveAndTranscribe w c d) = Settled /\
    (rejectRecording w d new = None ->
     In (mkRecording (gen_random_uuid w d) new)
        (recordings (store (handleSaveAndTranscribe w c d)))).
Proof.
  unfold analysis_reply. intros [body [Hin ->]] Hpast Hmeta. revert Hin.
  run_pipeline.
  all: intros Hin; pick_effect Hin.
  all: try match goal with
           | Hm : forall blob, Some ?b = Some blob -> _ |- _ =>
               specialize (Hm b eq_refl)
           end.
  all: try congruence.
  all: try (destruct Hpast as [Hpast|[Hp1 Hp2]]; congruence).
  all: try (destruct Hpast as [Hpast|[Hp1 Hp2]]; [|congruence];
            match goal with
            | H : nullish ?v = true |- _ =>
                rewrite (nullish_no_member v "summary" H) in Hpast; discriminate Hpast
            end).
  all: assert (Hd : d0 = dd) by congruence; subst d0.
  all: eexists; split; [cbn [In app]; do 3 right; left; reflexivity|].
  all: cbn [duration_seconds duration_formatted].
  all: repeat split; try congruence.
  all: intros _; apply in_or_app; right; left; reflexivity.
Qed.

Lemma transcription_always_invoked w c d blob uid dataUrl b64 :
  audioBlob c = Some blob -> user c = Some uid ->
  upload w (uid ++ "/" ++ Z_toString (Date_now w) ++ ".webm") blob = None ->
  readAsDataURL w blob = Some dataUrl ->
  nth_error (split_on ","%char dataUrl) 1 = Some b64 ->
  In (Invoke "transcribe-audio" (JObj [("audio", JStr b64)]))
     (effects (handleSaveAndTranscribe w c d)).
Proof.
  intros Hb Hu Hup Hr Hn.
  unfold handleSaveAndTranscribe. rewrite Hb, Hu.
  unfold upload_and_process, try_catch, bind at 1, emit at 1.
  cbn [fst snd db log]. rewrite Hup.
  unfold process, bind at 1, base64_of. rewrite Hr, Hn. unfold ret at 1.
  unfold bind at 1, transcribe, bind at 1, emit at 1. cbn [fst snd db log app].
  run_pipeline.
  all: cbn [In app]; auto.
Qed.

End PipelineFacts.

(** ** The orchestrator's error policy *)

Section PipelinePolicy.
Import JS Pipeline.

(** C1.  For every invocation of handleSaveAndTranscribe in which the
    Transcription Service call fails (the invocation returns an error, or
    no text is present in its response), no Recording row is inserted: the
    recordings table is left unchanged, no insert is even attempted, and
    the run ends on a processing error, "Transcription failed: ..." when
    the reply carries an error and "No transcription text received from
    the API" otherwise.  The reply is one that functions.invoke can give:
    with an error it carries no data. *)
Theorem no_row_when_transcription_fails
    (w : World) (c : Component) (d : DB) (r : Reply)
    (Hreply : transcription_reply w (handleSaveAndTranscribe w c d) r)
    (Hinvoke : contractual r)
    (Hfail : transcription_failed r) :
  no_row_written d (handleSaveAndTranscribe w c d) /\
  aborted_with
    match error r with
    | Some e => "Transcription failed: "
                ++ or_else (message e) "Unknown transcription error"
    | None => "No transcription text received from the API"
    end
    (handleSaveAndTranscribe w c d).
Proof.
  apply (transcript_missing w c d r Hreply).
  destruct Hfail as [He | Ht]; [|exact Ht].
  rewrite (Hinvoke He). reflexivity.
Qed.

Lemma no_row_when_transcription_fails_witness :
  transcription_reply world_transcription_error
    (sample_run world_transcription_error)
    (invoke world_transcription_error "transcribe-audio" sent_audio) /\
  contractual (invoke world_transcription_error "transcribe-audio" sent_audio) /\
  transcription_failed (invoke world_transcription_error "transcribe-audio" sent_audio) /\
  no_row_written empty_db (sample_run world_transcription_error) /\
  aborted_with "Transcription failed: Edge Function returned a non-2xx status code"
               (sample_run world_transcription_error).
Proof.
  assert (H1 : transcription_reply world_transcription_error
                 (sample_run world_transcription_error)
                 (invoke world_transcription_error "transcribe-audio" sent_audio)).
  { exists sent_audio. split; [|reflexivity]. vm_compute. right. left. reflexivity. }
  assert (H2 : contractual (invoke world_transcription_error
                                   "transcribe-audio" sent_audio))
    by (intros _; reflexivity).
  assert (H3 : transcription_failed (invoke world_transcription_error
                                            "transcribe-audio" sent_audio))
    by (left; discriminate).
  split; [exact H1|]. split; [exact H2|]. split; [exact H3|].
  exact (no_row_when_transcription_fails world_transcription_error
           (recorded sample_audio) empty_db _ H1 H2 H3).
Defined.

(** C3 (as amended).  In step 4, when the reply of the Analysis Service
    carries a summary the pipeline goes on, with or without an error next
    to it; when it carries no summary but an error, the pipeline aborts
    with "Analysis failed: ..." and writes no Recording row; when it
    carries neither, and the data is an object, the pipeline does not
    abort: it goes on with the partial data and builds the row from it. *)
Theorem analysis_step_policy
    (w : World) (c : Component) (d : DB) (r : Reply)
    (Hreply : analysis_reply w (handleSaveAndTranscribe w c d) r) :
  (truthy (opt_prop (data r) "summary") = true ->
   past_analysis (data r) (handleSaveAndTranscribe w c d)) /\
  (truthy (opt_prop (data r) "summary") = false ->
   forall e, error r = Some e ->
     no_row_written d (handleSaveAndTranscribe w c d) /\
     aborted_with ("Analysis failed: " ++ or_else (message e) "Unknown analysis error")
                  (handleSaveAndTranscribe w c d)) /\
  (truthy (opt_prop (data r) "summary") = false ->
   error r = None -> nullish (data r) = false ->
   past_analysis (data r) (handleSaveAndTranscribe w c d)).
Proof.
  exact (analysis_cases w c d r Hreply).
Qed.

Lemma analysis_step_policy_witness :
  analysis_reply world_summary_with_error (sample_run world_summary_with_error)
    (invoke world_summary_with_error "analyze-recording" sent_text) /\
  past_analysis analysis_ok (sample_run world_summary_with_error).
Proof.
  assert (H1 : analysis_reply world_summary_with_error
                 (sample_run world_summary_with_error)
                 (invoke world_summary_with_error "analyze-recording" sent_text)).
  { exists sent_text. split; [|reflexivity].
    vm_compute. right. right. left. reflexivity. }
  split; [exact H1|].
  exact (proj1 (analysis_step_policy world_summary_with_error
                  (recorded sample_audio) empty_db _ H1) eq_refl).
Defined.

(** C3 as stated fails when the reply carries neither a summary nor an
    error: the run is not aborted and a row is inserted. *)
Lemma no_summary_no_error_counterexample :
  ~ (forall r, analysis_reply world_no_summary_no_error
                 (sample_run world_no_summary_no_error) r ->
               truthy (opt_prop (data r) "summary") = false -> error r = None ->
               no_row_written empty_db (sample_run world_no_summary_no_error)).
Proof.
  intros H.
  destruct (H (invoke world_no_summary_no_error "analyze-recording" sent_text))
    as [Hrec _].
  - exists sent_text. split; [|reflexivity].
    vm_compute. right. right. left. reflexivity.
  - reflexivity.
  - reflexivity.
  - vm_compute in Hrec. discriminate.
Qed.

(** X30.  Whenever the metadata of the audio loads, the measurement
    does not stand in the way of the save.  Once the analysis step is
    passed, whatever duration the audio element reports (a number below
    2^53 in size, NaN or Infinity), the pipeline issues the insert of the
    Recording row with the floored duration and its formatted text, and
    the row is stored as soon as the store accepts it.  NaN is written
    "NaN:NaN" and Infinity "Infinity:NaN". *)
Theorem invalid_duration_is_saved
    (w : World) (c : Component) (d : DB) (r : Reply) (dd : AudioDuration)
    (Hreply : analysis_reply w (handleSaveAndTranscribe w c d) r)
    (Hpast : truthy (opt_prop (data r) "summary") = true \/
             (error r = None /\ nullish (data r) = false))
    (Hmeta : forall blob, audioBlob c = Some blob -> loadMetadata w blob = Loaded dd)
    (Hrange : measurable dd) :
  (exists new,
     In (InsertRecording new) (effects (handleSaveAndTranscribe w c d)) /\
     duration_seconds new = floor_duration dd /\
     duration_formatted new = formatDuration (floor_duration dd) /\
     status (handleSaveAndTranscribe w c d) = Settled /\
     (rejectRecording w d new = None ->
      In (mkRecording (gen_random_uuid w d) new)
         (recordings (store (handleSaveAndTranscribe w c d))))) /\
  formatDuration (floor_duration NotANumber) = "NaN:NaN" /\
  formatDuration (floor_duration Infinite) = "Infinity:NaN" /\
  formatDuration (floor_duration (Seconds (654 # 10))) = "01:05".
Proof.
  split; [exact (metadata_loaded w c d r dd Hreply Hpast Hmeta)|].
  repeat split; reflexivity.
Qed.

Lemma invalid_duration_is_saved_witness :
  analysis_reply (world_with_metadata (Loaded Infinite))
    (sample_run (world_with_metadata (Loaded Infinite)))
    (invoke (world_with_metadata (Loaded Infinite)) "analyze-recording" sent_text) /\
  (forall blob, audioBlob (recorded sample_audio) = Some blob ->
                loadMetadata (world_with_metadata (Loaded Infinite)) blob
                = Loaded Infinite) /\
  measurable Infinite /\
  exists new,
    In (InsertRecording new) (effects (sample_run (world_with_metadata (Loaded Infinite)))) /\
    duration_formatted new = "Infinity:NaN".
Proof.
  assert (H1 : analysis_reply (world_with_metadata (Loaded Infinite))
                 (sample_run (world_with_metadata (Loaded Infinite)))
                 (invoke (world_with_metadata (Loaded Infinite))
                         "analyze-recording" sent_text)).
  { exists sent_text. split; [|reflexivity].
    vm_compute. right. right. left. reflexivity. }
  assert (H2 : forall blob, audioBlob (recorded sample_audio) = Some blob ->
                 loadMetadata (world_with_metadata (Loaded Infinite)) blob
                 = Loaded Infinite) by reflexivity.
  assert (H3 : measurable Infinite) by exact I.
  split; [exact H1|]. split; [exact H2|]. split; [exact H3|].
  destruct (proj1 (invalid_duration_is_saved (world_with_metadata (Loaded Infinite))
                     (recorded sample_audio) empty_db _ Infinite H1
                     (or_introl eq_refl) H2 H3)) as [new [Hin [_ [Hf _]]]].
  exists new. split; [exact Hin | exact Hf].
Defined.

(** C5 (where the code departs from it).  When the metadata of the audio
    never loads, with the upload, the transcription and the analysis all
    successful, the save is neither completed nor given up: the promise
    awaited before the insert is resolved by loadedmetadata only, so the
    run waits for ever with isProcessing still true, the two services have
    been called, no insert is attempted, no row is written and no toast is
    shown. *)
Theorem save_blocked_when_metadata_never_loads :
  let o := sample_run (world_with_metadata NeverLoaded) in
  ~ save_attempted o /\
  status o = Waiting /\
  isProcessing (component o) = true /\
  no_row_written empty_db o /\
  In (Invoke "transcribe-audio" sent_audio) (effects o) /\
  In (Invoke "analyze-recording" sent_text) (effects o) /\
  existsb Run.is_toast (effects o) = false.
Proof.
  cbv zeta. split.
  - intros [H _]. vm_compute in H. discriminate.
  - repeat split; try reflexivity.
    + vm_compute. right. left. reflexivity.
    + vm_compute. right. right. left. reflexivity.
Qed.

(** *** The size ceiling *)

Lemma oversize_rejected env req v audio key :
  Edge.method req <> Edge.OPTIONS ->
  Edge.json req = inr v -> nullish v = false -> prop v "audio" = audio ->
  truthy audio = true -> Edge.configured_key env = inr key ->
  num_gt (prop audio "length") 10000000 = true ->
  Transcribe.serve env req
  = (Transcribe.failure env
       (Error "Audio file too large. Please use shorter recordings."), []).
Proof.
  intros Hm Hj Hv Ha Ht Hk Hbig. unfold Transcribe.serve.
  assert (V : Transcribe.validate env req
              = inl (Error "Audio file too large. Please use shorter recordings.")).
  { unfold Transcribe.validate, Edge.destructure. rewrite Hj. simpl Edge.bind.
    rewrite Hv. simpl Edge.bind. rewrite Ha, Ht. simpl Edge.bind.
    rewrite Hk. simpl Edge.bind. rewrite Hbig. reflexivity. }
  rewrite V. destruct (Edge.method req); [contradiction | reflexivity | reflexivity].
Qed.

Lemma invoked_whatever_the_size (payload : string) :
  has_char ","%char payload = false ->
  In (Invoke "transcribe-audio" (JObj [("audio", JStr payload)]))
     (effects (handleSaveAndTranscribe
                 (world_with_metadata (Loaded (Seconds (32 # 10))))
                 (recorded payload) empty_db)).
Proof.
  intros H.
  apply (transcription_always_invoked _ _ _ payload "u1"
           ("data:audio/webm;base64," ++ payload) payload);
    try reflexivity.
  now apply base64_part.
Qed.

(** C4 (as amended).  The orchestrator makes no size check of its own:
    whenever the upload succeeds and the reader yields the encoded audio,
    it invokes the Transcription Service with it, whatever its length.  The
    ceiling of 10,000,000 encoded characters is enforced by the
    Transcription Service: a request whose audio is longer is answered with
    HTTP 500 and the error "Audio file too large. Please use shorter
    recordings.", and nothing is sent to the generation endpoint. *)
Theorem size_ceiling_enforced_by_service
    (w : World) (c : Component) (d : DB) (blob : Blob) (uid dataUrl b64 : string)
    (env : Edge.Env) (req : Edge.Request) (v audio : JsVal) (key : string)
    (Hblob : audioBlob c = Some blob) (Huser : user c = Some uid)
    (Hupload : upload w (uid ++ "/" ++ Z_toString (Date_now w) ++ ".webm") blob = None)
    (Hread : readAsDataURL w blob = Some dataUrl)
    (Hb64 : nth_error (split_on ","%char dataUrl) 1 = Some b64)
    (Hmethod : Edge.method req <> Edge.OPTIONS)
    (Hjson : Edge.json req = inr v) (Hobj : nullish v = false)
    (Haudio : prop v "audio" = audio) (Hgiven : truthy audio = true)
    (Hkey : Edge.configured_key env = inr key)
    (Hlong : num_gt (prop audio "length") 10000000 = true) :
  In (Invoke "transcribe-audio" (JObj [("audio", JStr b64)]))
     (effects (handleSaveAndTranscribe w c d)) /\
  Transcribe.serve env req
  = (Transcribe.failure env
       (Error "Audio file too large. Please use shorter recordings."), []) /\
  Edge.status (fst (Transcribe.serve env req)) = 500 /\
  (forall s, 10000000 < strlen s -> num_gt (prop (JStr s) "length") 10000000 = true).
Proof.
  split.
  - exact (transcription_always_invoked w c d blob uid dataUrl b64
             Hblob Huser Hupload Hread Hb64).
  - pose proof (oversize_rejected env req v audio key
                  Hmethod Hjson Hobj Haudio Hgiven Hkey Hlong) as E.
    split; [exact E|]. split; [now rewrite E|].
    intros s. apply string_length_gt.
Qed.

Lemma size_ceiling_enforced_by_service_witness :
  In (Invoke "transcribe-audio" sent_audio)
     (effects (sample_run (world_with_metadata (Loaded (Seconds (32 # 10)))))) /\
  Transcribe.serve sample_env long_request
  = (Transcribe.failure sample_env
       (Error "Audio file too large. Please use shorter recordings."), []).
Proof.
  pose proof (size_ceiling_enforced_by_service
                (world_with_metadata (Loaded (Seconds (32 # 10))))
                (recorded sample_audio) empty_db sample_audio "u1"
                ("data:audio/webm;base64," ++ sample_audio) sample_audio
                sample_env long_request
                (JObj [("audio", JObj [("length", JNum 10000001)])])
                (JObj [("length", JNum 10000001)]) "secret"
                eq_refl eq_refl eq_refl eq_refl eq_refl
                ltac:(discriminate) eq_refl eq_refl eq_refl eq_refl eq_refl eq_refl)
    as [H1 [H2 _]].
  split; [exact H1 | exact H2].
Defined.

(** C4 as stated fails on an encoded audio of 10,000,001 characters: the
    orchestrator still calls the Transcription Service with it. *)
Lemma oversized_audio_counterexample :
  ~ (10000000 < strlen oversized ->
     ~ calls_transcription
         (handleSaveAndTranscribe (world_with_metadata (Loaded (Seconds (32 # 10))))
                                  (recorded oversized) empty_db)).
Proof.
  intros H. apply H.
  - unfold oversized. rewrite strlen_iter. reflexivity.
  - exists (JObj [("audio", JStr oversized)]).
    apply invoked_whatever_the_size.
    unfold oversized. apply has_char_iter. discriminate.
Qed.

End PipelinePolicy.

(** ** The Analysis Service *)

Section AnalyzeFacts.
Import JS Edge Analyze.

Lemma unparsable_content_falls_back JSON_parse content e :
  JSON_parse (cleanContent content) = inl e ->
  analysis_of JSON_parse (answer_with content) = inr fallback.
Proof.
  intros H. unfold analysis_of, parse_content. simpl.
  destruct (negb (negb (String.eqb content ""))); simpl; [reflexivity|].
  now rewrite H.
Qed.

(** C2.  For every analyze-recording request whose upstream generation
    call succeeds with a text that does not parse as JSON once the code
    fences are stripped, the service answers HTTP 200 with the fixed
    fallback object: summary "Analysis could not be completed due to
    parsing error", sentiment "neutral", tags ["transcription"], empty
    highlights and actionItems. *)
Theorem analyze_falls_back_on_unparsable_text
    (JSON_parse : string -> Exn + JsVal) (prompt : JsVal -> string)
    (env : Env) (req : Request) (content : string) (e : Exn)
    (Hupstream : upstream_returns prompt env req content)
    (Hparse : JSON_parse (cleanContent content) = inl e) :
  (exists call,
     serve JSON_parse prompt env req = (mkResponse 200 true (Json fallback), [call])) /\
  status (fst (serve JSON_parse prompt env req)) = 200 /\
  body (fst (serve JSON_parse prompt env req)) = Json fallback /\
  prop fallback "summary"
  = JStr "Analysis could not be completed due to parsing error" /\
  prop fallback "sentiment" = JStr "neutral" /\
  prop fallback "tags" = JArr [JStr "transcription"] /\
  prop fallback "highlights" = JArr [] /\
  prop fallback "actionItems" = JArr [].
Proof.
  destruct Hupstream as [call [http [text [result [Hm [Hv [Hf [Hok Hc]]]]]]]].
  assert (E : serve JSON_parse prompt env req
              = (mkResponse 200 true (Json fallback), [call])).
  { unfold serve. rewrite Hv, Hf, Hok. simpl negb. cbv iota.
    assert (A : bind (inr result) (analysis_of JSON_parse) = inr fallback).
    { simpl. unfold analysis_of. rewrite Hc. simpl bind.
      unfold parse_content, throw_if.
      destruct (negb (truthy (JStr content))); simpl; [reflexivity|].
      now rewrite Hparse. }
    rewrite A. destruct (method req); [contradiction | reflexivity | reflexivity]. }
  split; [now exists call|]. rewrite E. repeat split.
Qed.

Lemma analyze_falls_back_on_unparsable_text_witness :
  upstream_returns (fun _ => "Analyze this transcription.") sample_env sample_request
                   fenced_prose /\
  strict_parse (cleanContent fenced_prose)
  = inl (mkExn "SyntaxError" "Unexpected token in JSON") /\
  status (fst (serve strict_parse (fun _ => "Analyze this transcription.")
                     sample_env sample_request)) = 200 /\
  body (fst (serve strict_parse (fun _ => "Analyze this transcription.")
                   sample_env sample_request)) = Json fallback.
Proof.
  assert (H1 : upstream_returns (fun _ => "Analyze this transcription.")
                 sample_env sample_request fenced_prose).
  { eexists _, 200, "", (answer_with fenced_prose).
    split; [discriminate|]. repeat split; reflexivity. }
  assert (H2 : strict_parse (cleanContent fenced_prose)
               = inl (mkExn "SyntaxError" "Unexpected token in JSON"))
    by (vm_compute; reflexivity).
  split; [exact H1|]. split; [exact H2|].
  destruct (analyze_falls_back_on_unparsable_text strict_parse
              (fun _ => "Analyze this transcription.") sample_env sample_request
              fenced_prose _ H1 H2) as [_ [Hs [Hb _]]].
  split; [exact Hs | exact Hb].
Defined.

End AnalyzeFacts.

(** ** Recorder sessions *)

Section SessionFacts.
Import JS Recorder Session.

Lemma react_consistent h e : consistent h -> consistent (react h e).
Proof.
  unfold consistent. intros [Hon Hoff].
  destruct h as [rec pau dur blob ref mime str chunks start itv tm tst].
  simpl in *.
  destruct e as [now [|why|why|why] opus | | | now | c]; simpl.
  - split; [intros _; repeat split; auto; discriminate | discriminate].
  - split; assumption.
  - split; [|exact Hoff]. intros Hr. destruct (Hon Hr) as [Href [_ [Hi Ht]]].
    repeat split; assumption.
  - split.
    + intros Hr. destruct (Hon Hr) as [_ [_ [Hi Ht]]]. repeat split; auto.
    + intros Hr. destruct (Hoff Hr) as [Hp [Hi _]].
      repeat split; auto; discriminate.
  - unfold pauseRecording; simpl. destruct ref as [state|]; [|split; assumption].
    destruct rec; simpl; [|split; assumption].
    destruct (Hon eq_refl) as [Href [Hs [Hi Ht]]].
    destruct state; simpl; (split; [intros _ | discriminate]);
      try (repeat split; assumption);
      (split; [left; now destruct pau | repeat split; assumption]).
  - unfold stopRecording; simpl. destruct ref as [state|]; [|split; assumption].
    destruct rec; simpl; [|split; assumption].
    destruct state; simpl; try (split; assumption);
      (split; [discriminate | intros _; repeat split; discriminate]).
  - destruct tm; [split; assumption|]. unfold updateDuration; simpl.
    destruct (start =? 0); simpl; split; assumption.
  - unfold dataAvailable; simpl. destruct (strlen c >? 0); simpl; split; assumption.
Qed.

Lemma initial_consistent : consistent initial.
Proof.
  split; [discriminate | intros _; repeat split; discriminate].
Qed.

Lemma run_consistent events h : consistent h -> consistent (run events h).
Proof.
  intros H. induction events as [|e events IH] using rev_ind; [exact H|].
  rewrite run_snoc. now apply react_consistent.
Qed.

Lemma reachable_consistent h : reachable h -> consistent h.
Proof.
  intros [events ->]. apply run_consistent, initial_consistent.
Qed.

(** X1.  Whatever calls and callbacks the hook has gone through since it
    was mounted, failed starts included, its flags, its recorder, its
    stream and its interval agree: while [isRecording] holds the stream is
    held, an interval is registered and runs, and the recorder in the ref
    is capturing (or suspended exactly when [isPaused] holds) unless a
    later start, whose [start()] threw, left there a recorder that never
    ran; otherwise [isPaused] is off, no interval is registered and the
    recorder in the ref does not run.  Nothing is said of the stream when
    not recording: a start that fails once the microphone is granted
    leaves it held. *)
Theorem reachable_states_are_consistent (h : Hook) (Hreach : reachable h) :
  consistent h.
Proof.
  destruct Hreach as [events ->].
  induction events as [|e events IH] using rev_ind.
  - exact initial_consistent.
  - rewrite run_snoc. apply react_consistent. exact IH.
Qed.

Lemma reachable_states_are_consistent_witness :
  reachable (run [Start 1700000000000 Granted true; Pause] initial) /\
  consistent (run [Start 1700000000000 Granted true; Pause] initial).
Proof.
  assert (H : reachable (run [Start 1700000000000 Granted true; Pause] initial))
    by (eexists; reflexivity).
  split; [exact H | exact (reachable_states_are_consistent _ H)].
Defined.

(** X2.  In every reachable state, pausing and then resuming (two calls
    of [pauseRecording]) gives the state back unchanged: nothing of the
    session, not the chunks, the start time nor the display, is lost.  (On
    a recorder that never ran, both calls throw and change nothing.) *)
Theorem pause_twice_is_identity (h : Hook) (Hreach : reachable h) :
  pauseRecording (pauseRecording h) = h.
Proof.
  pose proof (reachable_consistent h Hreach) as [Hon Hoff].
  destruct h as [rec pau dur blob ref mime str chunks start itv tm tst].
  simpl in *. unfold pauseRecording; simpl.
  destruct ref as [state|]; [|reflexivity].
  destruct rec; simpl; [|reflexivity].
  destruct (Hon eq_refl) as [[Href | Href] _]; injection Href as ->.
  - destruct pau; reflexivity.
  - reflexivity.
Qed.

Lemma pause_twice_is_identity_witness :
  reachable (run [Start 1700000000000 Granted true; Data "chunk"] initial) /\
  pauseRecording (pauseRecording
                    (run [Start 1700000000000 Granted true; Data "chunk"] initial))
  = run [Start 1700000000000 Granted true; Data "chunk"] initial.
Proof.
  assert (H : reachable (run [Start 1700000000000 Granted true; Data "chunk"] initial))
    by (eexists; reflexivity).
  split; [exact H | exact (pause_twice_is_identity _ H)].
Defined.

Lemma run_cons e events h : run (e :: events) h = run events (react h e).
Proof. reflexivity. Qed.

Lemma react_keeps h e :
  within_session e ->
  chunksRef (react h e) = (chunksRef h ++ delivered [e])%list /\
  isRecording (react h e) = isRecording h /\
  startTimeRef (react h e) = startTimeRef h /\
  timers (react h e) = timers h /\
  (running h -> running (react h e)).
Proof.
  unfold running.
  destruct h as [rec pau dur blob ref mime str chunks start itv tm tst].
  destruct e as [now how opus | | | now | c]; simpl; try contradiction; intros _.
  - unfold pauseRecording; simpl. rewrite app_nil_r.
    destruct ref as [[| |]|]; [destruct rec | destruct rec | destruct rec |];
      simpl; repeat split; auto; destruct pau; auto.
  - rewrite app_nil_r. destruct tm; [repeat split; auto|].
    unfold updateDuration; simpl. destruct (start =? 0); repeat split; auto.
  - unfold dataAvailable; simpl.
    destruct (strlen c >? 0); simpl; rewrite ?app_nil_r; repeat split; auto.
Qed.

Lemma delivered_cons e events :
  delivered (e :: events) = (delivered [e] ++ delivered events)%list.
Proof.
  destruct e as [now how opus | | | now | c]; try reflexivity.
  simpl. now destruct (strlen c >? 0).
Qed.

Lemma session_keeps events h :
  Forall within_session events ->
  chunksRef (run events h) = (chunksRef h ++ delivered events)%list /\
  isRecording (run events h) = isRecording h /\
  startTimeRef (run events h) = startTimeRef h /\
  timers (run events h) = timers h /\
  (running h -> running (run events h)).
Proof.
  revert h. induction events as [|e events IH]; intros h F.
  - simpl. rewrite app_nil_r. repeat split; auto.
  - inversion F as [|? ? He F']; subst. rewrite run_cons.
    destruct (IH (react h e) F') as [I1 [I2 [I3 [I4 I5]]]].
    destruct (react_keeps h e He) as [K1 [K2 [K3 [K4 K5]]]].
    rewrite I1, I2, I3, I4, K1, K2, K3, K4, (delivered_cons e events), app_assoc.
    repeat split; auto.
Qed.

(** X3.  A session started with the microphone granted and then stopped,
    with only pauses, resumes, timer ticks and data callbacks in between,
    yields as its blob exactly the non-empty chunks delivered, in order of
    arrival: chunks that arrive while paused are kept, empty ones are
    dropped; the stop also releases the stream. *)
Theorem stop_returns_delivered_chunks
    (h : Hook) (t : Z) (opus : bool) (events : list Event)
    (Hsession : Forall within_session events) :
  let stopped := stopRecording (run events (startRecording t Granted opus h)) in
  snd stopped = Some (delivered events) /\
  audioBlob (fst stopped) = Some (delivered events) /\
  isRecording (fst stopped) = false /\ streamRef (fst stopped) = false.
Proof.
  cbv zeta.
  destruct (session_keeps events (startRecording t Granted opus h) Hsession)
    as [I1 [I2 [_ [_ I5]]]].
  specialize (I5 (or_introl eq_refl)).
  change (chunksRef (startRecording t Granted opus h)) with (@nil Chunk) in I1.
  change (isRecording (startRecording t Granted opus h)) with true in I2.
  generalize dependent (run events (startRecording t Granted opus h)).
  intros [rec pau dur blob ref mime str chunks start itv tm tst]; unfold running; simpl.
  intros -> -> Href. unfold stopRecording; simpl.
  destruct Href as [-> | ->]; repeat split.
Qed.

Lemma stop_returns_delivered_chunks_witness :
  Forall within_session [Data "a"; Pause; Data ""; Tick 1700000001000; Pause; Data "b"] /\
  snd (stopRecording
         (run [Data "a"; Pause; Data ""; Tick 1700000001000; Pause; Data "b"]
              (startRecording 1700000000000 Granted true initial)))
  = Some ["a"; "b"].
Proof.
  assert (H : Forall within_session
                [Data "a"; Pause; Data ""; Tick 1700000001000; Pause; Data "b"])
    by (repeat constructor).
  split; [exact H|].
  exact (proj1 (stop_returns_delivered_chunks initial 1700000000000 true _ H)).
Defined.

(** X4.  Pausing does not stop the clock: after a start at [t0], and
    whatever pauses, resumes, ticks and chunks follow, the display left by
    a tick at [t] is the whole time elapsed since [t0], paused time
    included, and it reads back as its minutes and seconds. *)
Theorem paused_time_is_counted
    (h : Hook) (opus : bool) (events : list Event) (t0 t : Z)
    (Hclock : 0 < t0) (Hlater : t0 <= t)
    (Hsession : Forall within_session events) :
  let shown :=
    duration (run (events ++ [Tick t]) (startRecording t0 Granted opus h)) in
  shown = formatElapsed (t - t0) /\
  read_clock shown
  = Some (Z.to_N ((t - t0) / 1000 / 60), Z.to_N (((t - t0) / 1000) mod 60)).
Proof.
  cbv zeta.
  destruct (session_keeps events (startRecording t0 Granted opus h) Hsession)
    as [_ [_ [I3 [I4 _]]]].
  change (startTimeRef (startRecording t0 Granted opus h)) with t0 in I3.
  change (timers (startRecording t0 Granted opus h)) with (S (timers h)) in I4.
  assert (E : duration (run (events ++ [Tick t]) (startRecording t0 Granted opus h))
              = formatElapsed (t - t0)).
  { rewrite run_snoc. unfold react. rewrite I4. unfold updateDuration. rewrite I3.
    destruct (Z.eqb_spec t0 0); [lia | reflexivity]. }
  rewrite E. split; [reflexivity|]. apply read_clock_formatElapsed. lia.
Qed.

Lemma paused_time_is_counted_witness :
  0 < 1700000000000 /\ 1700000000000 <= 1700000090000 /\
  Forall within_session [Pause; Tick 1700000030000] /\
  duration (run ([Pause; Tick 1700000030000] ++ [Tick 1700000090000])
                (startRecording 1700000000000 Granted true initial)) = "01:30".
Proof.
  assert (H1 : 0 < 1700000000000) by lia.
  assert (H2 : 1700000000000 <= 1700000090000) by lia.
  assert (H3 : Forall within_session [Pause; Tick 1700000030000])
    by (repeat constructor).
  split; [exact H1|]. split; [exact H2|]. split; [exact H3|].
  exact (proj1 (paused_time_is_counted initial true _ _ _ H1 H2 H3)).
Defined.

Lemma untoasted_react h h' e :
  untoasted h = untoasted h' -> untoasted (react h e) = untoasted (react h' e).
Proof.
  destruct h as [rec pau dur blob ref mime str chunks start itv tm tst].
  destruct h' as [rec' pau' dur' blob' ref' mime' str' chunks' start' itv' tm' tst'].
  unfold untoasted; simpl. intros [= <- <- <- <- <- <- <- <- <- <- <-].
  destruct e as [now [|why|why|why] opus | | | now | c]; simpl; try reflexivity.
  - unfold pauseRecording; simpl.
    destruct ref as [[| |]|]; try destruct rec; reflexivity.
  - unfold stopRecording; simpl.
    destruct ref as [[| |]|]; try destruct rec; reflexivity.
  - destruct tm; [reflexivity|]. unfold updateDuration; simpl.
    destruct (start =? 0); reflexivity.
  - unfold dataAvailable; simpl. destruct (strlen c >? 0); reflexivity.
Qed.

Lemma toasts_react h e :
  toasts (react h e)
  = (toasts h ++ complaints [e])%list.
Proof.
  destruct h as [rec pau dur blob ref mime str chunks start itv tm tst].
  destruct e as [now [|why|why|why] opus | | | now | c]; simpl; rewrite ?app_nil_r;
    try reflexivity.
  - unfold pauseRecording; simpl.
    destruct ref as [[| |]|]; try destruct rec; reflexivity.
  - unfold stopRecording; simpl.
    destruct ref as [[| |]|]; try destruct rec; reflexivity.
  - destruct tm; [reflexivity|]. unfold updateDuration; simpl.
    destruct (start =? 0); reflexivity.
  - unfold dataAvailable; simpl. destruct (strlen c >? 0); reflexivity.
Qed.

Lemma untoasted_refused h e : refused e = true -> untoasted (react h e) = untoasted h.
Proof.
  destruct e as [now [|why|why|why] opus | | | now | c]; simpl; try discriminate.
  reflexivity.
Qed.

Lemma untoasted_run events h h' :
  untoasted h = untoasted h' -> untoasted (run events h) = untoasted (run events h').
Proof.
  revert h h'. induction events as [|e events IH]; intros h h' E; [exact E|].
  rewrite !run_cons. apply IH. now apply untoasted_react.
Qed.

Lemma complaints_cons e events :
  complaints (e :: events) = (complaints [e] ++ complaints events)%list.
Proof.
  destruct e as [now [|why|why|why] opus | | | now | c]; reflexivity.
Qed.

(** X5.  A start for which the microphone is refused changes nothing
    but the toasts: the state reached is the one reached without the
    refused starts, and the toasts shown are the former ones followed by
    one message per start that failed, refused or later, in order. *)
Theorem refused_starts_only_toast (events : list Event) (h : Hook) :
  untoasted (run events h)
  = untoasted (run (filter (fun e => negb (refused e)) events) h) /\
  toasts (run events h) = (toasts h ++ complaints events)%list.
Proof.
  revert h. induction events as [|e events IH]; intros h.
  - simpl. now rewrite app_nil_r.
  - rewrite run_cons. destruct (IH (react h e)) as [I1 I2]. split.
    + rewrite I1. simpl filter. destruct (refused e) eqn:R; simpl negb; cbv iota.
      * apply untoasted_run. now apply untoasted_refused.
      * reflexivity.
    + rewrite I2, toasts_react, (complaints_cons e events), app_assoc. reflexivity.
Qed.

(** X6.  [startRecording] called while a recording is already going on
    (the hook does not guard against it) overwrites [intervalRef] without
    clearing the former interval: after the following stop the session is
    over and [intervalRef] is empty, yet an interval is still running, and
    its next tick rewrites the display of the stopped recorder. *)
Theorem restart_leaves_an_interval_running
    (h : Hook) (t t' : Z) (opus : bool)
    (Hreach : reachable h) (Hrec : isRecording h = true) (Hclock : t <> 0) :
  let after := run [Start t Granted opus; Stop] h in
  isRecording after = false /\ intervalRef after = false /\
  timers after <> O /\
  duration (react after (Tick t')) = formatElapsed (t' - t).
Proof.
  pose proof (reachable_consistent h Hreach) as [Hon _].
  destruct (Hon Hrec) as [_ [_ [_ Ht]]].
  destruct h as [rec pau dur blob ref mime str chunks start itv tm tst].
  simpl in *. repeat split; try assumption.
  destruct tm; [congruence|]. unfold updateDuration; simpl.
  destruct (Z.eqb_spec t 0); [contradiction | reflexivity].
Qed.

Lemma restart_leaves_an_interval_running_witness :
  reachable (run [Start 1700000000000 Granted true] initial) /\
  isRecording (run [Start 1700000000000 Granted true] initial) = true /\
  1700000005000 <> 0 /\
  duration (react (run [Start 1700000005000 Granted true; Stop]
                       (run [Start 1700000000000 Granted true] initial))
                  (Tick 1700000012000)) = "00:07".
Proof.
  assert (H1 : reachable (run [Start 1700000000000 Granted true] initial))
    by (eexists; reflexivity).
  assert (H2 : isRecording (run [Start 1700000000000 Granted true] initial) = true)
    by reflexivity.
  assert (H3 : 1700000005000 <> 0) by discriminate.
  split; [exact H1|]. split; [exact H2|]. split; [exact H3|].
  exact (proj2 (proj2 (proj2
    (restart_leaves_an_interval_running _ 1700000005000 1700000012000 true H1 H2 H3)))).
Defined.




End SessionFacts.

(** ** More on the two edge functions *)

Section TrimFacts.
Import JS.

Lemma trimEnd_idem s : trimEnd (trimEnd s) = trimEnd s.
Proof.
  induction s as [|c s IH]; [reflexivity|]. simpl.
  destruct (trimEnd s) as [|c' r] eqn:E.
  - destruct (is_space c) eqn:Sp; [reflexivity|]. simpl. now rewrite Sp.
  - change (trimEnd (String c (String c' r))
            = String c (String c' r)).
    cbn [trimEnd] in *. now rewrite IH.
Qed.

Lemma trimStart_head s c r : trimStart s = String c r -> is_space c = false.
Proof.
  induction s as [|x s IH]; simpl; [discriminate|].
  destruct (is_space x) eqn:Sp; [exact IH|]. intros [= <- _]. exact Sp.
Qed.

Lemma trimEnd_head c r :
  is_space c = false -> exists r', trimEnd (String c r) = String c r'.
Proof.
  intros Sp. simpl. destruct (trimEnd r); [rewrite Sp|]; eauto.
Qed.

Lemma trimStart_trim s : trimStart (trim s) = trim s.
Proof.
  unfold trim. destruct (trimStart s) as [|c r] eqn:E; [reflexivity|].
  apply trimStart_head in E. destruct (trimEnd_head c r E) as [r' ->].
  simpl. now rewrite E.
Qed.

Lemma trimEnd_trim s : trimEnd (trim s) = trim s.
Proof. apply trimEnd_idem. Qed.

Lemma trim_idem s : trim (trim s) = trim s.
Proof.
  unfold trim at 1. now rewrite trimStart_trim, trimEnd_trim.
Qed.

End TrimFacts.

Section TranscribeFacts.
Import JS Edge Transcribe Exchange.

Lemma validate_inr env req call :
  validate env req = inr call ->
  exists parsed key,
    json req = inr parsed /\
    truthy (prop parsed "audio") = true /\
    GEMINI_API_KEY env = Some key /\ key <> "" /\
    num_gt (prop (prop parsed "audio") "length") 10000000 = false /\
    call = request_for key (prop parsed "audio").
Proof.
  unfold validate, Edge.bind, destructure, throw_if, configured_key.
  destruct (json req) as [e|parsed]; [discriminate|].
  destruct (nullish parsed); [discriminate|].
  destruct (truthy (prop parsed "audio")) eqn:T; simpl; [|discriminate].
  destruct (GEMINI_API_KEY env) as [k|]; [|discriminate].
  destruct (String.eqb_spec k ""); [discriminate|].
  destruct (num_gt (prop (prop parsed "audio") "length") 10000000) eqn:L;
    [discriminate|].
  intros [= <-]. exists parsed, k. repeat split; auto.
Qed.

(** The handler, once the preflight is out of the way. *)
Lemma serve_post env req :
  method req <> OPTIONS ->
  match validate env req with
  | inl e => serve env req = (failure env e, [])
  | inr call =>
      snd (serve env req) = [call] /\
      match fetch env call with
      | Rejected e => fst (serve env req) = failure env e
      | Answered http_status text parsed =>
          if ok http_status
          then match extract parsed with
               | inl e => fst (serve env req) = failure env e
               | inr response => fst (serve env req) = response
               end
          else fst (serve env req) = upstream_failure http_status text
      end
  end.
Proof.
  intros Hm. unfold serve.
  destruct (method req); [now elim Hm | |];
    (destruct (validate env req) as [e|call]; [reflexivity|];
     destruct (fetch env call) as [e|h t p]; [now split|];
     destruct (ok h); simpl; [destruct (extract p)|]; now split).
Qed.

(** X8.  The transcription service contacts the generation endpoint at
    most once per request, and only for a request that carries a truthy
    [audio] whose [length] does not exceed 10,000,000 while a non-empty
    API key is configured; the call made then carries that key and that
    very audio. *)
Theorem transcribe_calls_upstream_only_when_valid
    (env : Env) (req : Request) (call : Call)
    (Hcall : In call (snd (serve env req))) :
  snd (serve env req) = [call] /\
  method req <> OPTIONS /\
  exists parsed key,
    json req = inr parsed /\
    truthy (prop parsed "audio") = true /\
    GEMINI_API_KEY env = Some key /\ key <> "" /\
    num_gt (prop (prop parsed "audio") "length") 10000000 = false /\
    call = request_for key (prop parsed "audio").
Proof.
  assert (Hm : method req <> OPTIONS).
  { intros E. unfold serve in Hcall. rewrite E in Hcall. contradiction. }
  pose proof (serve_post env req Hm) as P.
  destruct (validate env req) as [e|c] eqn:V.
  - rewrite P in Hcall. contradiction.
  - destruct P as [P _]. rewrite P in Hcall. destruct Hcall as [<-|[]].
    split; [exact P|]. split; [exact Hm|]. now apply validate_inr.
Qed.

Lemma transcribe_calls_upstream_only_when_valid_witness :
  In (request_for "secret" (JStr "GkXfo59ChoEBQveBAULygQRC"))
     (snd (serve (answering "  Hello team.  ") audio_request)) /\
  snd (serve (answering "  Hello team.  ") audio_request)
  = [request_for "secret" (JStr "GkXfo59ChoEBQveBAULygQRC")].
Proof.
  assert (H : In (request_for "secret" (JStr "GkXfo59ChoEBQveBAULygQRC"))
                 (snd (serve (answering "  Hello team.  ") audio_request)))
    by (vm_compute; now left).
  split; [exact H|].
  exact (proj1 (transcribe_calls_upstream_only_when_valid _ _ _ H)).
Defined.

Lemma extract_inr parsed response :
  extract parsed = inr response ->
  exists result s,
    parsed = inr result /\ candidate_text result = inr (JStr s) /\ s <> "" /\
    response = mkResponse 200 true
                 (Json (JObj [("text", JStr (trim s)); ("language", JStr "auto-detected")])).
Proof.
  unfold extract, Edge.bind, throw_if, trimmed.
  destruct parsed as [e|result]; [discriminate|].
  destruct (candidate_text result) as [e|t] eqn:C; [discriminate|].
  destruct (truthy t) eqn:T; simpl; [|discriminate].
  destruct t as [| |b|q|s|l|o]; try discriminate.
  intros [= <-]. exists result, s. split; [reflexivity|]. split; [exact C|].
  split; [|reflexivity]. intros ->. discriminate T.
Qed.

(** X9.  The transcription service answers a request other than a
    preflight with 200 or 500 only.  When it answers 200 it has made
    exactly one upstream call, the generation endpoint has answered it
    with a success status and a body whose first candidate text is a
    string that is not empty, and the [text] returned is that very string
    with the white space at both ends removed: trimming it again at either
    end changes nothing. *)
Theorem transcribe_success_returns_trimmed_text (env : Env) (req : Request)
    (Hpost : method req <> OPTIONS) :
  (status (fst (serve env req)) = 200 \/ status (fst (serve env req)) = 500) /\
  (status (fst (serve env req)) = 200 ->
   exists call http_status text result s,
     snd (serve env req) = [call] /\
     fetch env call = Answered http_status text (inr result) /\
     ok http_status = true /\
     candidate_text result = inr (JStr s) /\ s <> "" /\
     body (fst (serve env req))
     = Json (JObj [("text", JStr (trim s)); ("language", JStr "auto-detected")]) /\
     trimStart (trim s) = trim s /\ trimEnd (trim s) = trim s).
Proof.
  pose proof (serve_post env req Hpost) as P.
  destruct (validate env req) as [e|call].
  { rewrite P. split; [now right | discriminate]. }
  destruct P as [C P].
  destruct (fetch env call) as [e|h t p] eqn:F.
  { rewrite P. split; [now right | discriminate]. }
  destruct (ok h) eqn:K.
  2:{ rewrite P. split; [now right | discriminate]. }
  destruct (extract p) as [e|response] eqn:X.
  { rewrite P. split; [now right | discriminate]. }
  rewrite P. destruct (extract_inr _ _ X) as [result [s [-> [Hc [Hs ->]]]]].
  split; [now left|]. intros _. exists call, h, t, result, s.
  repeat split; auto using trimStart_trim, trimEnd_trim.
Qed.

Lemma transcribe_success_returns_trimmed_text_witness :
  method audio_request <> OPTIONS /\
  exists call http_status text result s,
    snd (serve (answering "  Hello team.  ") audio_request) = [call] /\
    fetch (answering "  Hello team.  ") call
    = Answered http_status text (inr result) /\
    ok http_status = true /\
    candidate_text result = inr (JStr s) /\ s <> "" /\
    body (fst (serve (answering "  Hello team.  ") audio_request))
    = Json (JObj [("text", JStr (trim s)); ("language", JStr "auto-detected")]) /\
    trimStart (trim s) = trim s /\ trimEnd (trim s) = trim s.
Proof.
  assert (H : method audio_request <> OPTIONS) by discriminate.
  split; [exact H|].
  exact (proj2 (transcribe_success_returns_trimmed_text
                  (answering "  Hello team.  ") audio_request H) eq_refl).
Defined.

End TranscribeFacts.

Section FenceFacts.
Import JS Edge Analyze Exchange.

Lemma plain_head_no_fence s : plain_head s -> startsWith s "```" = false.
Proof.
  destruct s as [|c s]; [reflexivity|]. cbn [startsWith plain_head]. intros Hc.
  destruct (Ascii.eqb_spec "`"%char c) as [E|E]; [now elim Hc | reflexivity].
Qed.

Lemma has_char_cons c x s :
  has_char c (String x s) = false -> x <> c /\ has_char c s = false.
Proof.
  cbn [has_char]. destruct (Ascii.eqb_spec x c); [discriminate|]. now split.
Qed.

Lemma fence_at_plain c s :
  c <> backtick -> plain_head s -> fence_at (String c s) = None.
Proof.
  intros Hc Hs. unfold fence_at.
  assert (E1 : startsWith (String c s) "```json" = false).
  { cbn [startsWith]. destruct (Ascii.eqb_spec "`"%char c) as [E|E];
      [now elim Hc | reflexivity]. }
  assert (E2 : startsWith (String c s) (String "010"%char "```") = false).
  { cbn [startsWith]. cbn [startsWith] in Hs.
    pose proof (plain_head_no_fence s Hs) as E. cbn [startsWith] in E.
    rewrite E. apply andb_false_r. }
  assert (E3 : startsWith (String c s) "```" = false)
    by (apply plain_head_no_fence; exact Hc).
  now rewrite E1, E2, E3.
Qed.

Lemma drop_fences_body b tail :
  has_char backtick b = false -> plain_head tail ->
  drop_fences 0 (b ++ tail) = b ++ drop_fences 0 tail.
Proof.
  induction b as [|c b IH]; intros Hb Ht; [reflexivity|].
  apply has_char_cons in Hb. destruct Hb as [Hc Hb].
  change (String c b ++ tail) with (String c (b ++ tail)).
  assert (Hn : plain_head (b ++ tail)).
  { destruct b as [|c' b']; [exact Ht|].
    apply has_char_cons in Hb. exact (proj1 Hb). }
  cbn [drop_fences]. rewrite (fence_at_plain c _ Hc Hn).
  change (String c b ++ drop_fences 0 tail)
    with (String c (b ++ drop_fences 0 tail)).
  now rewrite IH.
Qed.

Lemma append_empty s : s ++ "" = s.
Proof. induction s; simpl; congruence. Qed.

Lemma drop_fences_plain b :
  has_char backtick b = false -> drop_fences 0 b = b.
Proof.
  intros Hb. pose proof (drop_fences_body b "" Hb I) as E.
  now rewrite !append_empty in E.
Qed.

Lemma startsWith_empty s : startsWith s "" = true.
Proof. now destruct s. Qed.

Lemma drop_open_json x : drop_fences 0 ("```json" ++ newline ++ x) = drop_fences 0 x.
Proof.
  change ("```json" ++ newline ++ x)
    with (String backtick ("``json" ++ newline ++ x)).
  cbn [drop_fences].
  assert (F : fence_at (String backtick ("``json" ++ newline ++ x)) = Some 8%nat).
  { unfold fence_at. simpl. now rewrite startsWith_empty. }
  rewrite F. reflexivity.
Qed.

Lemma drop_open_plain x :
  drop_fences 0 ("```" ++ newline ++ x) = drop_fences 0 (newline ++ x).
Proof. reflexivity. Qed.

Lemma drop_close : drop_fences 0 (newline ++ "```") = "".
Proof. reflexivity. Qed.

Variable JSON_parse : string -> Exn + JsVal.

Lemma candidate_text_answer content :
  candidate_text (answer_with content) = inr (JStr content).
Proof. reflexivity. Qed.

Lemma analysis_of_answer content :
  content <> "" ->
  analysis_of JSON_parse (answer_with content)
  = inr match JSON_parse (cleanContent content) with
        | inr analysis => analysis
        | inl _ => fallback
        end.
Proof.
  intros Hne. unfold analysis_of. rewrite candidate_text_answer.
  unfold Edge.bind, parse_content, throw_if, Edge.bind.
  assert (T : truthy (JStr content) = true).
  { simpl. destruct (String.eqb_spec content ""); [contradiction | reflexivity]. }
  rewrite T. simpl. now destruct (JSON_parse (cleanContent content)).
Qed.

(** X10.  Markdown fences around the answer are transparent: for a body
    without any backtick, the body alone, the body between [```json] and
    [```] lines, and the body between bare [```] lines are all cleaned to
    the same text, the trimmed body; so, when the body is not empty, the
    analysis drawn from the fenced answers is the one drawn from the bare
    body. *)
Theorem fences_are_transparent (b : string)
    (Hplain : has_char backtick b = false) :
  cleanContent b = trim b /\
  cleanContent (fenced_json b) = trim b /\
  cleanContent (fenced_plain b) = trim b /\
  (b <> "" ->
   analysis_of JSON_parse (answer_with (fenced_json b))
   = analysis_of JSON_parse (answer_with b) /\
   analysis_of JSON_parse (answer_with (fenced_plain b))
   = analysis_of JSON_parse (answer_with b)).
Proof.
  assert (E1 : cleanContent b = trim b).
  { unfold cleanContent. now rewrite drop_fences_plain. }
  assert (E2 : cleanContent (fenced_json b) = trim b).
  { unfold cleanContent, fenced_json. rewrite drop_open_json.
    rewrite (drop_fences_body b (newline ++ "```") Hplain); [|discriminate].
    now rewrite drop_close, append_empty. }
  assert (E3 : cleanContent (fenced_plain b) = trim b).
  { unfold cleanContent, fenced_plain. rewrite drop_open_plain.
    change (newline ++ b ++ newline ++ "```")
      with ((newline ++ b) ++ newline ++ "```").
    rewrite (drop_fences_body (newline ++ b) (newline ++ "```"));
      [|exact Hplain | discriminate].
    rewrite drop_close, append_empty. reflexivity. }
  repeat split; auto.
  - rewrite !analysis_of_answer by (auto; discriminate). now rewrite E1, E2.
  - rewrite !analysis_of_answer by (auto; discriminate). now rewrite E1, E3.
Qed.

End FenceFacts.

Lemma fences_are_transparent_witness :
  JS.has_char Exchange.backtick "{}" = false /\
  Analyze.cleanContent (Exchange.fenced_json "{}") = "{}" /\
  Analyze.cleanContent (Exchange.fenced_plain "{}") = "{}".
Proof.
  assert (H : JS.has_char Exchange.backtick "{}" = false) by reflexivity.
  split; [exact H|].
  pose proof (fences_are_transparent Analyze.strict_parse "{}" H) as [_ [E2 [E3 _]]].
  split; [exact E2 | exact E3].
Defined.

Section AnalyzeStatus.
Import JS Edge Analyze.
Variable JSON_parse : string -> Exn + JsVal.
Variable prompt : JsVal -> string.

Lemma analysis_of_total result :
  nullish result = false -> exists analysis, analysis_of JSON_parse result = inr analysis.
Proof.
  intros Hn. unfold analysis_of, candidate_text, Edge.bind. rewrite Hn.
  destruct (parse_content JSON_parse _); eauto.
Qed.

Lemma analysis_of_nullish result :
  nullish result = true -> exists e, analysis_of JSON_parse result = inl e.
Proof.
  intros Hn. unfold analysis_of, candidate_text, Edge.bind. rewrite Hn. eauto.
Qed.

(** X11.  The analysis service answers a request other than a preflight
    with 200 exactly when the request passes validation and the upstream
    answers with a 2xx status and a JSON body that is neither null nor
    undefined: from there on nothing, not even an answer without any
    candidate, makes it fail.  In every other case it answers 500 with the
    stub analysis (summary "Analysis failed", empty lists, neutral
    sentiment) next to the error message. *)
Theorem analyze_answers_200_iff_upstream_answers (env : Env) (req : Request)
    (Hpost : method req <> OPTIONS) :
  let response := fst (serve JSON_parse prompt env req) in
  (status response = 200 <->
   exists call http_status text result,
     validate prompt env req = inr call /\
     fetch env call = Answered http_status text (inr result) /\
     ok http_status = true /\ nullish result = false) /\
  (status response <> 200 -> exists e, response = failure e).
Proof.
  cbv zeta.
  assert (E : serve JSON_parse prompt env req
              = match validate prompt env req with
                | inl e => (failure e, [])
                | inr call =>
                    match fetch env call with
                    | Rejected e => (failure e, [call])
                    | Answered http_status text parsed =>
                        if negb (ok http_status)
                        then (failure (Error ("Gemini API error: "
                                              ++ Z_toString http_status
                                              ++ " - " ++ text)), [call])
                        else match Edge.bind parsed (analysis_of JSON_parse) with
                             | inl e => (failure e, [call])
                             | inr analysis =>
                                 (mkResponse 200 true (Json analysis), [call])
                             end
                    end
                end).
  { unfold serve. destruct (method req); [now elim Hpost | reflexivity | reflexivity]. }
  rewrite E. clear E.
  destruct (validate prompt env req) as [e|call].
  { split; [split; [discriminate | intros [? [? [? [? [? _]]]]]; discriminate]
           | intros _; now exists e]. }
  destruct (fetch env call) as [e|h t p] eqn:F.
  { split; [split; [discriminate | intros [? [? [? [? [[= <-] [? _]]]]]]; congruence]
           | intros _; now exists e]. }
  destruct (ok h) eqn:K; cbn [negb].
  2:{ split; [split; [discriminate|] | intros _; eexists; reflexivity].
      intros [c [h' [t' [r [[= <-] [F' [K' _]]]]]]].
      rewrite F in F'. injection F' as <- <- _. congruence. }
  destruct p as [e|result]; cbn [Edge.bind].
  { split; [split; [discriminate|] | intros _; now exists e].
    intros [c [h' [t' [r [[= <-] [F' _]]]]]]. rewrite F in F'. discriminate. }
  destruct (nullish result) eqn:N.
  - destruct (analysis_of_nullish result N) as [e ->].
    split; [split; [discriminate|] | intros _; now exists e].
    intros [c [h' [t' [r [[= <-] [F' [_ N']]]]]]].
    rewrite F in F'. injection F' as <- <- <-. congruence.
  - destruct (analysis_of_total result N) as [a ->].
    split; [split; [intros _ | reflexivity] | intros C; now elim C].
    exists call, h, t, result. repeat split; auto.
Qed.

End AnalyzeStatus.

Lemma analyze_answers_200_iff_upstream_answers_witness :
  Edge.method Analyze.sample_request <> Edge.OPTIONS /\
  Edge.status (fst (Analyze.serve Analyze.strict_parse (fun _ => "Analyze.")
                      (Exchange.answering "") Analyze.sample_request)) = 200.
Proof.
  assert (H : Edge.method Analyze.sample_request <> Edge.OPTIONS) by discriminate.
  split; [exact H|].
  apply (proj1 (analyze_answers_200_iff_upstream_answers
                  Analyze.strict_parse (fun _ => "Analyze.")
                  (Exchange.answering "") Analyze.sample_request H)).
  eexists _, _, _, _. repeat split; reflexivity.
Defined.

(** ** More on the search view *)

Section SearchMore.
Import JS Search.
Variable toLocaleDateString : string -> string.

Lemma lower_char_space c : is_space (lower_char c) = is_space c.
Proof.
  destruct c as [[] [] [] [] [] [] [] []]; reflexivity.
Qed.

Lemma toLowerCase_trimStart s : trimStart (toLowerCase s) = toLowerCase (trimStart s).
Proof.
  induction s as [|c s IH]; [reflexivity|]. cbn [toLowerCase trimStart].
  rewrite lower_char_space. now destruct (is_space c).
Qed.

Lemma toLowerCase_trimEnd s : trimEnd (toLowerCase s) = toLowerCase (trimEnd s).
Proof.
  induction s as [|c s IH]; [reflexivity|]. cbn [toLowerCase trimEnd].
  rewrite IH, lower_char_space.
  destruct (trimEnd s); cbn [toLowerCase]; [now destruct (is_space c) | reflexivity].
Qed.

Lemma toLowerCase_trim s : trim (toLowerCase s) = toLowerCase (trim s).
Proof.
  unfold trim. now rewrite toLowerCase_trimStart, toLowerCase_trimEnd.
Qed.

Lemma toLowerCase_empty s : toLowerCase s = "" <-> s = "".
Proof.
  destruct s; simpl; split; congruence.
Qed.

Lemma blank_by_case q q' :
  toLowerCase q = toLowerCase q' ->
  String.eqb (trim q) "" = String.eqb (trim q') "".
Proof.
  intros E.
  assert (T : toLowerCase (trim q) = toLowerCase (trim q'))
    by (now rewrite <- !toLowerCase_trim, E).
  destruct (String.eqb_spec (trim q) "") as [H|H];
    destruct (String.eqb_spec (trim q') "") as [H'|H']; try reflexivity.
  - rewrite H in T. symmetry in T. apply (proj1 (toLowerCase_empty _)) in T.
    now elim H'.
  - rewrite H' in T. apply (proj1 (toLowerCase_empty _)) in T. now elim H.
Qed.

(** X12.  The search does not look at the letter case of the query: two
    queries that are equal once lowercased, run on the same recordings,
    return the same results (and both return none when they are blank). *)
Theorem search_ignores_query_case (st st' : State)
    (Hcase : toLowerCase (query st) = toLowerCase (query st'))
    (Hsame : allRecordings st = allRecordings st') :
  results (handleSearch toLocaleDateString st)
  = results (handleSearch toLocaleDateString st').
Proof.
  unfold handleSearch. rewrite (blank_by_case _ _ Hcase), Hsame.
  destruct (String.eqb (trim (query st')) ""); [reflexivity|].
  cbn [results]. f_equal. apply filter_ext. intros r.
  unfold matches. now rewrite Hcase.
Qed.

Lemma no_content_is_never_built p : p ++ "..." <> "No content available".
Proof.
  intros E.
  do 17 (destruct p as [|? p]; [discriminate | simpl in E; injection E as _ E]).
  do 3 (destruct p as [|? p]; [discriminate | simpl in E; injection E as _ E]).
  destruct p; discriminate.
Qed.

Lemma strlen_take n s : strlen (take n s) <= Z.of_nat n.
Proof.
  revert s. induction n as [|n IH]; intros [|c s]; cbn [take strlen]; try lia.
  specialize (IH s). lia.
Qed.

(** X13.  The snippet of a result is the summary when there is one;
    otherwise it is at most the first 150 characters of the transcription
    followed by three dots, and the text "undefined..." when there is no
    transcription either.  It is never empty, and the alternative
    'No content available' of the source is never used: a snippet reads so
    only when the summary itself does. *)
Theorem snippet_never_falls_back (r : Recording) :
  let s := snippet (toResult toLocaleDateString r) in
  s <> "" /\
  (s = "No content available" -> rec_summary r = Some "No content available") /\
  (forall text, rec_summary r = Some text -> text <> "" -> s = text) /\
  (nonempty (rec_summary r) = None ->
   (exists p, s = p ++ "..." /\ strlen p <= 150) /\
   (forall t, rec_transcription r = Some t -> s = take 150 t ++ "...") /\
   (rec_transcription r = None -> s = "undefined...")).
Proof.
  cbv zeta. unfold toResult; cbn [snippet]. unfold nonempty.
  destruct (rec_summary r) as [text|].
  - destruct (String.eqb_spec text "") as [->|Hne].
    + split; [|split; [|split]].
      * destruct (rec_transcription r) as [t|]; [|discriminate].
        destruct (take 150 t); discriminate.
      * intros E. now apply no_content_is_never_built in E.
      * intros ? [= <-] C. now elim C.
      * intros _. split; [|split].
        -- destruct (rec_transcription r) as [t|]; eexists; split;
             try reflexivity; [apply (strlen_take 150) | simpl; lia].
        -- intros t ->. reflexivity.
        -- intros ->. reflexivity.
    + split; [exact Hne|]. split; [congruence|]. split; [congruence | discriminate].
  - split; [|split; [|split]].
    + destruct (rec_transcription r) as [t|]; [|discriminate].
      destruct (take 150 t); discriminate.
    + intros E. now apply no_content_is_never_built in E.
    + discriminate.
    + intros _. split; [|split].
      * destruct (rec_transcription r) as [t|]; eexists; split;
          try reflexivity; [apply (strlen_take 150) | simpl; lia].
      * intros t ->. reflexivity.
      * intros ->. reflexivity.
Qed.

End SearchMore.

Lemma search_ignores_query_case_witness :
  JS.toLowerCase (Search.query (Search.corpus "ROADMAP"))
  = JS.toLowerCase (Search.query (Search.corpus "roadmap")) /\
  Search.allRecordings (Search.corpus "ROADMAP")
  = Search.allRecordings (Search.corpus "roadmap") /\
  Search.results (Search.handleSearch (fun d => d) (Search.corpus "ROADMAP"))
  = Search.results (Search.handleSearch (fun d => d) (Search.corpus "roadmap")).
Proof.
  assert (H1 : JS.toLowerCase (Search.query (Search.corpus "ROADMAP"))
               = JS.toLowerCase (Search.query (Search.corpus "roadmap")))
    by reflexivity.
  assert (H2 : Search.allRecordings (Search.corpus "ROADMAP")
               = Search.allRecordings (Search.corpus "roadmap")) by reflexivity.
  split; [exact H1|]. split; [exact H2|].
  exact (search_ignores_query_case (fun d => d) _ _ H1 H2).
Defined.

(** ** More on the derived graph *)

Section GraphMore.
Import JS Graph Drawing.

Lemma In_set {V : Type} (k k' : string) (v v' : V) (o : Obj V) :
  NoDup (keys o) -> In (k', v') (set k v o) -> (k' = k /\ v' = v) \/ In (k', v') o.
Proof.
  intros ND H. apply In_get in H; [|now apply NoDup_set].
  destruct (String.eqb_spec k k') as [<-|N].
  - rewrite get_set_same in H. injection H as <-. now left.
  - rewrite (get_set_other _ _ _ _ N) in H. right. now apply get_In.
Qed.

Lemma NoDup_set_add x s : NoDup s -> NoDup (set_add x s).
Proof.
  intros ND. unfold set_add. destruct (existsb (String.eqb x) s) eqn:E; [exact ND|].
  apply NoDup_app; [exact ND | repeat constructor; simpl; tauto |].
  intros y Hy [<-|[]].
  assert (C : existsb (String.eqb x) s = true).
  { apply existsb_exists. exists x. split; [exact Hy | apply String.eqb_refl]. }
  congruence.
Qed.

Lemma NoDup_link tag tgs targets : NoDup targets -> NoDup (link tag tgs targets).
Proof.
  unfold link. revert targets. induction tgs as [|x tgs IH]; intros targets ND; simpl.
  - exact ND.
  - apply IH. destruct (String.eqb tag x); [exact ND | now apply NoDup_set_add].
Qed.

(** Every target list of [tagConnections] is a set. *)
Lemma tagConnections_sets vs src targets :
  In (src, targets) (tagConnections (fold_left step vs (mkTables [] [] []))) ->
  NoDup targets.
Proof.
  revert src targets. induction vs as [|[r x] vs IH] using rev_ind;
    intros src targets; [contradiction|].
  rewrite fold_left_app. simpl.
  pose proof (tagConnections_scan vs) as S. cbv zeta in S. destruct S as [ND _].
  set (t := fold_left step vs (mkTables [] [] [])) in *.
  set (conns0 := match get x (tagConnections t) with
                 | Some _ => tagConnections t
                 | None => set x [] (tagConnections t)
                 end).
  assert (ND0 : NoDup (keys conns0)).
  { unfold conns0. destruct (get x (tagConnections t)); [exact ND|].
    now apply NoDup_set. }
  assert (H0 : forall k l, In (k, l) conns0 -> NoDup l).
  { intros k l. unfold conns0. destruct (get x (tagConnections t)); [apply IH|].
    intros H. apply In_set in H; [|exact ND].
    destruct H as [[_ ->]|H]; [constructor | now apply (IH k)]. }
  intros H. apply In_set in H; [|exact ND0].
  destruct H as [[_ ->]|H]; [|now apply (H0 src)].
  apply NoDup_link. destruct (get x conns0) as [l|] eqn:G; [|constructor].
  apply (H0 x). now apply get_In.
Qed.

Lemma ends_of_targets counts src targets :
  NoDup targets ->
  NoDup (map ends (flat_map (fun tgt => if wants_edge counts src tgt
                                        then [mkTagEdge counts src tgt] else [])
                            targets)) /\
  forall p, In p (map ends (flat_map (fun tgt => if wants_edge counts src tgt
                                                 then [mkTagEdge counts src tgt] else [])
                                     targets)) ->
            fst p = src /\ In (snd p) targets.
Proof.
  induction targets as [|tgt targets IH]; intros ND; simpl.
  - split; [constructor | contradiction].
  - inversion ND as [|? ? Hn ND']; subst. destruct (IH ND') as [IH1 IH2].
    destruct (wants_edge counts src tgt); simpl.
    + split.
      * constructor; [|exact IH1]. intros H. apply IH2 in H. simpl in H. tauto.
      * intros p [<-|H]; [simpl; auto|]. apply IH2 in H. tauto.
    + split; [exact IH1|]. intros p H. apply IH2 in H. tauto.
Qed.

Lemma make_edges_ends counts conns :
  NoDup (keys conns) ->
  (forall src targets, In (src, targets) conns -> NoDup targets) ->
  NoDup (map ends (make_edges counts conns)) /\
  forall p, In p (map ends (make_edges counts conns)) -> In (fst p) (keys conns).
Proof.
  unfold make_edges.
  induction conns as [|[src targets] conns IH]; intros ND Hsets; simpl.
  - split; [constructor | contradiction].
  - inversion ND as [|? ? Hn ND']; subst.
    destruct IH as [IH1 IH2]; [exact ND' | intros s t H; apply (Hsets s t); now right|].
    destruct (ends_of_targets counts src targets) as [T1 T2];
      [apply (Hsets src); now left|].
    rewrite map_app. split.
    + apply NoDup_app; [exact T1 | exact IH1|].
      intros p Hp Hq. apply T2 in Hp. apply IH2 in Hq.
      destruct Hp as [Hp _]. rewrite Hp in Hq. contradiction.
    + intros p Hp. apply in_app_iff in Hp. destruct Hp as [Hp|Hp].
      * left. symmetry. apply (T2 p Hp).
      * right. now apply IH2.
Qed.

Lemma make_nodes_nth sents total entries :
  forall index ns,
    make_nodes sents total index entries = Some ns ->
    List.length ns = List.length entries /\
    map position ns = map (circularPosition total) (seq index (List.length entries)) /\
    forall n, In n ns ->
      exists i c l dom,
        In (node_id n, c) entries /\ get (node_id n) sents = Some l /\
        getDominantSentiment l = Some dom /\
        n = mkTagNode total i (node_id n) c dom.
Proof.
  induction entries as [|[tag c] entries IH]; intros index ns; simpl.
  - intros [= <-]. repeat split. contradiction.
  - destruct (get tag sents) as [l|] eqn:G; [|discriminate].
    destruct (getDominantSentiment l) as [dom|] eqn:D; [|discriminate].
    destruct (make_nodes sents total (S index) entries) as [ns'|] eqn:M; [|discriminate].
    intros [= <-]. destruct (IH _ _ M) as [I1 [I2 I3]]. simpl.
    split; [now rewrite I1|]. split; [now rewrite I2|].
    intros n [<-|Hn].
    + exists index, c, l, dom. simpl. auto.
    + destruct (I3 n Hn) as [i [c' [l' [dom' [K1 K2]]]]].
      exists i, c', l', dom'. auto.
Qed.

(** X14.  When the user has tagged Recordings, none of whose tags and
    sentiments is the name of a member of Object.prototype, the graph
    shows exactly one node per distinct tag: the node ids are pairwise
    different, a tag has a node exactly when some Recording bears it, and
    the nodes occupy the slots 0, 1, ... of one circle, in the order of the
    tag counts (the order of first appearance when no tag is spelled like
    an array index). *)
Theorem one_node_per_distinct_tag
    (uid : string) (table : list Row) (before : View)
    (Hne : select_tagged uid table <> [])
    (Hnames : ordinary (select_tagged uid table) = true) :
  let recs := select_tagged uid table in
  let shown := nodes (generateKnowledgeGraph uid (Some table) before) in
  NoDup (map node_id shown) /\
  (forall tag, In tag (map node_id shown) <->
               exists r, In r recs /\ In tag (or_nil (tags r))) /\
  map position shown
  = map (circularPosition (List.length shown)) (seq 0 (List.length shown)) /\
  (Forall plain (map snd (visits recs)) ->
   map node_id shown = encounter_order (map snd (visits recs))).
Proof.
  cbv zeta.
  destruct (generate_spec uid table before Hne Hnames) as [ns [M [Ev [Hmap _]]]].
  cbv zeta in *. rewrite Ev. cbn [nodes].
  set (recs := select_tagged uid table) in *.
  assert (K : map node_id ns = keys (census (map snd (visits recs)))).
  { rewrite <- tagCounts_census. fold (charted recs). unfold keys.
    apply (f_equal (map fst)) in Hmap. rewrite !map_map in Hmap. exact Hmap. }
  destruct (make_nodes_nth _ _ _ _ _ M) as [L [P _]].
  split; [rewrite K; apply census_NoDup|]. split; [|split].
  - intros tag. rewrite K, census_keys. apply tag_visited.
  - now rewrite L.
  - intros Hp. rewrite K. now apply census_keys_plain.
Qed.

Lemma one_node_per_distinct_tag_witness :
  select_tagged "u1" (two_recordings None None None None) <> [] /\
  ordinary (select_tagged "u1" (two_recordings None None None None)) = true /\
  map node_id (nodes (generateKnowledgeGraph "u1"
                        (Some (two_recordings None None None None))
                        (mkView [] [] true)))
  = ["a"; "b"; "c"].
Proof.
  assert (H : select_tagged "u1" (two_recordings None None None None) <> [])
    by (vm_compute; discriminate).
  assert (N : ordinary (select_tagged "u1" (two_recordings None None None None)) = true)
    by reflexivity.
  split; [exact H|]. split; [exact N|].
  destruct (one_node_per_distinct_tag "u1" (two_recordings None None None None)
              (mkView [] [] true) H N) as [_ [_ [_ E]]].
  apply E. repeat constructor.
Defined.

(** X15.  When the user has tagged Recordings, none of whose tags and
    sentiments is the name of a member of Object.prototype, every node is
    drawn from its tag's figures alone: its count is the number of
    occurrences of the tag, its sentiment is the dominant one among the
    sentiments of the Recordings bearing the tag (none has more votes),
    its colour is that sentiment's palette, and its size is 20 per
    occurrence kept between 60 and 120. *)
Theorem node_drawn_from_count_and_dominant_sentiment
    (uid : string) (table : list Row) (before : View)
    (Hne : select_tagged uid table <> [])
    (Hnames : ordinary (select_tagged uid table) = true) :
  let recs := select_tagged uid table in
  let shown := nodes (generateKnowledgeGraph uid (Some table) before) in
  forall n, In n shown ->
    let heard := sentiments_for (node_id n) (visits recs) in
    let k := occurrences (node_id n) recs in
    exists dom slot,
      getDominantSentiment heard = Some dom /\
      (forall s, votes s heard <= votes dom heard) /\
      n = mkTagNode (List.length shown) slot (node_id n) k dom /\
      background (style n) = pal_background (getSentimentColor dom) /\
      size (style n) = Some (Z.max 60 (Z.min 120 (k * 20))) /\
      60 <= Z.max 60 (Z.min 120 (k * 20)) <= 120.
Proof.
  cbv zeta.
  destruct (generate_spec uid table before Hne Hnames) as [ns [M [Ev [_ Hns]]]].
  cbv zeta in *. rewrite Ev. cbn [nodes].
  set (recs := select_tagged uid table) in *.
  destruct (make_nodes_nth _ _ _ _ _ M) as [L [_ Hn]].
  intros n Hin. destruct (Hn n Hin) as [i [c [l [dom [He [G [D E]]]]]]].
  destruct (Hns n Hin) as [Hc _].
  assert (Ec : c = occurrences (node_id n) recs).
  { rewrite E in Hc. simpl in Hc. congruence. }
  subst c.
  pose proof (tagSentiments_scan (visits recs) (node_id n)) as S. cbv zeta in S.
  fold (charted recs) in S. destruct S as [S _]. rewrite G in S. simpl in S.
  subst l.
  assert (Hl : sentiments_for (node_id n) (visits recs) <> []).
  { intros C. rewrite C in D. discriminate. }
  destruct (getDominantSentiment_spec _ Hl
              (sentiments_for_ordinary recs (node_id n) Hnames))
    as [dom' [D' [_ [Hmax _]]]].
  assert (dom' = dom) by congruence. subst dom'.
  exists dom, i. split; [exact D|]. split; [exact Hmax|].
  rewrite L. split; [exact E|].
  pose proof (f_equal style E) as Hs. cbn [mkTagNode style] in Hs.
  rewrite Hs. cbn [background size]. repeat split; lia.
Qed.

Lemma node_drawn_from_count_and_dominant_sentiment_witness :
  select_tagged "u1" (two_recordings (Some "positive") (Some "negative") None None) <> [] /\
  ordinary (select_tagged "u1"
              (two_recordings (Some "positive") (Some "negative") None None)) = true /\
  forall n,
    In n (nodes (generateKnowledgeGraph "u1"
                   (Some (two_recordings (Some "positive") (Some "negative") None None))
                   (mkView [] [] true))) ->
    exists dom slot,
      n = mkTagNode 3 slot (node_id n)
            (occurrences (node_id n)
               (two_recordings (Some "positive") (Some "negative") None None))
            dom.
Proof.
  assert (H : select_tagged "u1"
                (two_recordings (Some "positive") (Some "negative") None None) <> [])
    by (vm_compute; discriminate).
  assert (N : ordinary (select_tagged "u1"
                          (two_recordings (Some "positive") (Some "negative")
                                          None None)) = true)
    by reflexivity.
  split; [exact H|]. split; [exact N|]. intros n Hn.
  destruct (node_drawn_from_count_and_dominant_sentiment "u1"
              (two_recordings (Some "positive") (Some "negative") None None)
              (mkView [] [] true) H N n Hn) as [dom [slot [_ [_ [E _]]]]].
  exists dom, slot. exact E.
Defined.

(** X16.  When the user has tagged Recordings, none of whose tags and
    sentiments is the name of a member of Object.prototype, no pair of
    tags is drawn twice: the edges have pairwise different ends, every
    edge goes from the smaller tag to the greater one in string order, and
    so no edge has its reverse in the graph. *)
Theorem no_pair_of_tags_joined_twice
    (uid : string) (table : list Row) (before : View)
    (Hne : select_tagged uid table <> [])
    (Hnames : ordinary (select_tagged uid table) = true) :
  let drawn := edges (generateKnowledgeGraph uid (Some table) before) in
  NoDup (map ends drawn) /\
  (forall e, In e drawn -> str_lt (source e) (target e) = true) /\
  (forall e e', In e drawn -> In e' drawn ->
                ~ (source e' = target e /\ target e' = source e)).
Proof.
  cbv zeta.
  destruct (generate_spec uid table before Hne Hnames) as [ns [_ [Ev _]]].
  cbv zeta in Ev. rewrite Ev. cbn [edges].
  set (recs := select_tagged uid table) in *.
  assert (Hlt : forall e,
            In e (make_edges (tagCounts (charted recs)) (tagConnections (charted recs))) ->
            str_lt (source e) (target e) = true).
  { intros e He. apply make_edges_In in He.
    destruct He as [src [targets [tgt [_ [_ [W ->]]]]]]. simpl.
    unfold wants_edge in W. apply andb_true_iff in W. tauto. }
  split; [|split].
  - pose proof (tagConnections_scan (visits recs)) as C. cbv zeta in C.
    destruct C as [ND _]. unfold charted.
    apply make_edges_ends; [exact ND|].
    intros src targets. apply tagConnections_sets.
  - exact Hlt.
  - intros e e' He He' [E1 E2].
    pose proof (Hlt e He) as L. pose proof (Hlt e' He') as L'.
    rewrite E1, E2 in L'. apply str_lt_asym in L. congruence.
Qed.

Lemma no_pair_of_tags_joined_twice_witness :
  select_tagged "u1" (two_recordings None None None None) <> [] /\
  ordinary (select_tagged "u1" (two_recordings None None None None)) = true /\
  NoDup (map ends (edges (generateKnowledgeGraph "u1"
                            (Some (two_recordings None None None None))
                            (mkView [] [] true)))).
Proof.
  assert (H : select_tagged "u1" (two_recordings None None None None) <> [])
    by (vm_compute; discriminate).
  assert (N : ordinary (select_tagged "u1" (two_recordings None None None None)) = true)
    by reflexivity.
  split; [exact H|]. split; [exact N|].
  exact (proj1 (no_pair_of_tags_joined_twice "u1" (two_recordings None None None None)
                  (mkView [] [] true) H N)).
Defined.

End GraphMore.

(** ** More on the pipeline *)

Section DurationText.
Import JS Recorder Pipeline.

Lemma formatDuration_formatElapsed z :
  formatDuration (Whole z) = formatElapsed (z * 1000).
Proof.
  unfold formatDuration, formatElapsed; cbv zeta. cbn [minutes_of seconds_of Floored_toString].
  now rewrite Z.div_mul by lia.
Qed.

(** X17.  The two duration columns of an inserted row tell the same
    time: for an audio whose duration is a number that is not negative and
    is below 2^53 seconds, where the arithmetic of the code is that of
    whole numbers, the text stored in [duration_formatted] reads back as
    the minutes and the seconds below 60 of the whole seconds stored in
    [duration_seconds], and it is the text the recorder displays after as
    many seconds.  The texts produced for NaN and Infinity do not read as
    a time at all. *)
Theorem stored_duration_text_reads_back (q : Q)
    (Hpos : 0 <= Qfloor q) (Hexact : Qfloor q < 2 ^ 53) :
  let seconds := Qfloor q in
  floor_duration (Seconds q) = Whole seconds /\
  formatDuration (Whole seconds) = formatElapsed (seconds * 1000) /\
  read_clock (formatDuration (Whole seconds))
  = Some (Z.to_N (seconds / 60), Z.to_N (seconds mod 60)) /\
  read_clock (formatDuration (floor_duration NotANumber)) = None /\
  read_clock (formatDuration (floor_duration Infinite)) = None.
Proof.
  cbv zeta. split; [reflexivity|]. split; [apply formatDuration_formatElapsed|].
  split; [|split; reflexivity].
  rewrite formatDuration_formatElapsed, read_clock_formatElapsed by lia.
  now rewrite Z.div_mul by lia.
Qed.

Lemma stored_duration_text_reads_back_witness :
  0 <= Qfloor (32 # 10) /\ Qfloor (32 # 10) < 2 ^ 53 /\
  read_clock (formatDuration (Whole (Qfloor (32 # 10)))) = Some (0%N, 3%N).
Proof.
  assert (H : 0 <= Qfloor (32 # 10)) by (vm_compute; discriminate).
  assert (B : Qfloor (32 # 10) < 2 ^ 53) by reflexivity.
  split; [exact H|]. split; [exact B|].
  exact (proj1 (proj2 (proj2 (stored_duration_text_reads_back (32 # 10) H B)))).
Defined.

End DurationText.

Section PipelineMore.
Import JS Pipeline Run.

Lemma highlight_rows_ids rid l rows :
  highlight_rows rid l = inr rows -> forall h, In h rows -> recording_id h = rid.
Proof.
  revert rows. induction l as [|x l IH]; intros rows; simpl.
  - intros [= <-] h [].
  - destruct (nullish x); [discriminate|].
    destruct (highlight_rows rid l) as [e|rows']; [discriminate|].
    intros [= <-] h [<-|H]; [reflexivity | now apply (IH rows')].
Qed.

Lemma select_new url recs i new r :
  audio_url new = url ->
  filter (fun r => String.eqb (audio_url (row r)) url) (recs ++ [mkRecording i new])
  = [r] ->
  r = mkRecording i new.
Proof.
  intros <-. rewrite filter_app. cbn [filter row]. rewrite String.eqb_refl.
  intros E. destruct (filter _ recs) as [|x l].
  - now injection E as <-.
  - destruct l; discriminate.
Qed.

Local Opaque truthy opt_prop prop nullish num_gt or_else split_on nth_error
  cannot_read Z_toString formatDuration floor_duration String.append highlight_rows.

Ltac leaf x :=
  lazymatch x with
  | context [match _ with _ => _ end] => fail
  | _ => idtac
  end.

(** One case per answer of a collaborator. *)
Ltac walk_through :=
  unfold handleSaveAndTranscribe, upload_and_process, process, processing_error,
    base64_of, transcribe, analyze, measure, new_row, save, save_highlights,
    select_single, fileName,
    try_catch, bind, emit, throw, never, ret, get_db, put_db;
  repeat (cbn [fst snd db log status component store effects recordings highlights
               app saved existsb orb is_toast is_alarm filter List.length];
          match goal with
          | |- context [match ?x with _ => _ end] => leaf x; destruct x eqn:?
          end);
  cbn [fst snd db log status component store effects app saved existsb
       inserts_recording recordings highlights].

(** Finds which logged effect a membership hypothesis speaks of. *)
Ltac which_effect H :=
  cbn [In app] in H;
  repeat match type of H with
         | _ \/ _ => destruct H as [H|H]
         | False => contradiction
         | @eq Effect _ _ => first [discriminate H | injection H as H; subst]
         end.

Lemma store_growth (w : World) (c : Component) (d : DB) :
  let o := handleSaveAndTranscribe w c d in
  exists added rows,
    recordings (store o) = (recordings d ++ added)%list /\
    highlights (store o) = (highlights d ++ rows)%list /\
    (added = [] \/
     exists new, added = [mkRecording (gen_random_uuid w d) new] /\
                 In (InsertRecording new) (effects o) /\
                 rejectRecording w d new = None) /\
    (rows <> [] ->
     added <> [] /\ In (InsertHighlights rows) (effects o) /\
     forall h, In h rows -> recording_id h = gen_random_uuid w d).
Proof.
  cbv zeta. walk_through.
  all: try (exists [], []; rewrite !app_nil_r;
            split; [reflexivity|]; split; [reflexivity|];
            split; [now left | intros C; now elim C]).
  all: try (eexists [_], []; rewrite ?app_nil_r;
            split; [reflexivity|]; split; [reflexivity|];
            split; [right; eexists; split; [reflexivity|];
                    split; [cbn [In app]; auto 10 | assumption]
                   | intros C; now elim C]).
  all: match goal with
       | Hf : filter _ (_ ++ [mkRecording _ _])%list = [?r],
         Hh : highlight_rows (id ?r) _ = inr ?rows |- _ =>
           apply select_new in Hf; [|reflexivity]; subst r; cbn [id] in Hh;
           eexists [_], rows; split; [reflexivity|]; split; [reflexivity|];
           split; [right; eexists; split; [reflexivity|];
                   split; [cbn [In app]; auto 10 | assumption]|];
           intros _; split; [discriminate|];
           split; [cbn [In app]; auto 10 | exact (highlight_rows_ids _ _ _ Hh)]
       end.
Qed.

(** X18.  A run only adds to the store: the recordings and the
    highlights that were there stay as they were, in place; at most one
    recording is added, the one whose insert the store accepted, and
    highlights are added only next to it, every one of them referring to
    the new recording. *)
Theorem store_only_grows (w : World) (c : Component) (d : DB) :
  let o := handleSaveAndTranscribe w c d in
  exists added rows,
    recordings (store o) = (recordings d ++ added)%list /\
    highlights (store o) = (highlights d ++ rows)%list /\
    (added = [] \/
     exists new, added = [mkRecording (gen_random_uuid w d) new] /\
                 In (InsertRecording new) (effects o) /\
                 rejectRecording w d new = None) /\
    (rows <> [] ->
     added <> [] /\ In (InsertHighlights rows) (effects o) /\
     forall h, In h rows -> recording_id h = gen_random_uuid w d).
Proof.
  apply store_growth.
Qed.

(** X19.  Once the insert of the row is issued, the store's answer alone
    decides: an accepted row is in the store at the end of the run,
    whatever happens afterwards (nothing rolls it back, even when the
    highlights step throws and the run ends on an error toast); a refused
    row leaves the store as it was, and the run ends on a processing error
    without the saved event. *)
Theorem insert_decides_the_store
    (w : World) (c : Component) (d : DB) (new : RecordingInsert)
    (Hissued : In (InsertRecording new) (effects (handleSaveAndTranscribe w c d))) :
  let o := handleSaveAndTranscribe w c d in
  (rejectRecording w d new = None ->
   recordings (store o)
   = (recordings d ++ [mkRecording (gen_random_uuid w d) new])%list) /\
  (forall e, rejectRecording w d new = Some e ->
     store o = d /\ saved (effects o) = false /\
     In (Toast "Processing Error"
               (if is_Error e then message e
                else Some "Failed to process recording. Please try again.")
               true)
        (effects o)).
Proof.
  cbv zeta. revert Hissued. walk_through.
  all: intros Hin; which_effect Hin.
  all: split; [intros Hok; try congruence; reflexivity|].
  all: intros refusal Hno; try congruence.
  all: match goal with
       | H : rejectRecording _ _ _ = Some ?x, H' : rejectRecording _ _ _ = Some ?y |- _ =>
           tryif constr_eq x y then fail
           else (assert (E : y = x) by congruence; rewrite E in *; clear E)
       end.
  all: repeat match goal with
              | H : is_Error _ = _ |- _ => rewrite H
              end.
  all: split; [now destruct d|]; split; [reflexivity|]; cbn [In app]; auto 10.
Qed.

Lemma insert_decides_the_store_witness :
  In (InsertRecording sample_row) (effects (sample_run sample_world)) /\
  recordings (store (sample_run sample_world))
  = [mkRecording "7b0c1f6e-0000-4000-8000-000000000001" sample_row].
Proof.
  assert (H : In (InsertRecording sample_row) (effects (sample_run sample_world)))
    by (vm_compute; do 3 right; left; reflexivity).
  split; [exact H|].
  exact (proj1 (insert_decides_the_store sample_world (recorded sample_audio)
                  empty_db sample_row H) eq_refl).
Defined.

(** X20.  The saved event tells the truth: when a run dispatches
    'recording-saved', the new row is in the store, the success toast was
    shown and no destructive one, and the component is reset for the next
    recording.  When it does not, the component keeps its title and its
    audio, so that the user can try again. *)
Theorem saved_event_is_sound (w : World) (c : Component) (d : DB) :
  let o := handleSaveAndTranscribe w c d in
  if saved (effects o) then
    status o = Settled /\
    component o = with_processing false (handleDiscard c) /\
    (exists new, recordings (store o)
                 = (recordings d ++ [mkRecording (gen_random_uuid w d) new])%list) /\
    existsb is_alarm (effects o) = false /\
    In (Toast "Recording Saved!"
              (Some "Your recording has been transcribed and analyzed successfully.")
              false)
       (effects o)
  else
    comp_title (component o) = comp_title c /\
    audioUrl (component o) = audioUrl c /\
    audioBlob (component o) = audioBlob c /\
    user (component o) = user c.
Proof.
  cbv zeta. walk_through.
  all: try (repeat split; fail).
  all: repeat split; try (eexists; reflexivity); cbn [In app]; auto 10.
Qed.

Lemma inserted_row_facts
    (w : World) (c : Component) (d : DB) (new : RecordingInsert) :
  In (InsertRecording new) (effects (handleSaveAndTranscribe w c d)) ->
  exists uid blob dataUrl base64Audio,
    user c = Some uid /\ audioBlob c = Some blob /\
    user_id new = uid /\
    upload w (fileName w uid) blob = None /\
    In (Upload (fileName w uid)) (effects (handleSaveAndTranscribe w c d)) /\
    audio_url new = getPublicUrl w (fileName w uid) /\
    title new = or_else (Some (comp_title c)) "Untitled Recording" /\
    readAsDataURL w blob = Some dataUrl /\
    nth_error (split_on ","%char dataUrl) 1 = Some base64Audio /\
    transcription new
    = opt_prop (data (invoke w "transcribe-audio"
                        (JObj [("audio", JStr base64Audio)]))) "text" /\
    truthy (transcription new) = true /\
    duration_formatted new = formatDuration (duration_seconds new).
Proof.
  walk_through.
  all: intros Hin; which_effect Hin.
  all: do 4 eexists; cbn [user_id audio_url title transcription duration_formatted
                          duration_seconds];
       repeat split; try eassumption; try reflexivity.
  all: cbn [In app]; auto 10.
Qed.

(** X21.  Every row the pipeline inserts belongs to the signed-in user,
    points to the public URL of the file uploaded in this very run, and
    carries as its transcription the non-empty text the transcription
    service returned for the audio read from the recorded blob; its two
    duration columns are computed from one and the same number. *)
Theorem inserted_row_provenance
    (w : World) (c : Component) (d : DB) (new : RecordingInsert)
    (Hissued : In (InsertRecording new) (effects (handleSaveAndTranscribe w c d))) :
  exists uid blob dataUrl base64Audio,
    user c = Some uid /\ audioBlob c = Some blob /\
    user_id new = uid /\
    upload w (fileName w uid) blob = None /\
    audio_url new = getPublicUrl w (fileName w uid) /\
    title new = or_else (Some (comp_title c)) "Untitled Recording" /\
    readAsDataURL w blob = Some dataUrl /\
    nth_error (split_on ","%char dataUrl) 1 = Some base64Audio /\
    transcription new
    = opt_prop (data (invoke w "transcribe-audio"
                        (JObj [("audio", JStr base64Audio)]))) "text" /\
    truthy (transcription new) = true /\
    duration_formatted new = formatDuration (duration_seconds new).
Proof.
  destruct (inserted_row_facts w c d new Hissued)
    as [uid [blob [dataUrl [b64 [H1 [H2 [H3 [H4 [_ H5]]]]]]]]].
  destruct H5 as [H5 [H6 [H7 [H8 [H9 [H10 H11]]]]]].
  exists uid, blob, dataUrl, b64. repeat split; assumption.
Qed.

Lemma inserted_row_provenance_witness :
  In (InsertRecording sample_row) (effects (sample_run sample_world)) /\
  exists uid blob dataUrl base64Audio,
    user (recorded sample_audio) = Some uid /\
    audioBlob (recorded sample_audio) = Some blob /\
    user_id sample_row = uid /\
    upload sample_world (fileName sample_world uid) blob = None /\
    audio_url sample_row = getPublicUrl sample_world (fileName sample_world uid) /\
    title sample_row = or_else (Some (comp_title (recorded sample_audio)))
                               "Untitled Recording" /\
    readAsDataURL sample_world blob = Some dataUrl /\
    nth_error (split_on ","%char dataUrl) 1 = Some base64Audio /\
    transcription sample_row
    = opt_prop (data (invoke sample_world "transcribe-audio"
                        (JObj [("audio", JStr base64Audio)]))) "text" /\
    truthy (transcription sample_row) = true /\
    duration_formatted sample_row = formatDuration (duration_seconds sample_row).
Proof.
  assert (H : In (InsertRecording sample_row) (effects (sample_run sample_world)))
    by (vm_compute; do 3 right; left; reflexivity).
  split; [exact H|].
  exact (inserted_row_provenance sample_world (recorded sample_audio) empty_db
           sample_row H).
Defined.

(** X22.  No service is contacted before the upload has gone through,
    and each sees only what it is meant to see: the transcription service
    gets the audio read from the recorded blob, and the analysis service
    is called only after it, with the non-empty text it returned. *)
Theorem services_called_in_order
    (w : World) (c : Component) (d : DB) (function : string) (body : JsVal)
    (Hcalled : In (Invoke function body) (effects (handleSaveAndTranscribe w c d))) :
  exists uid blob dataUrl base64Audio,
    user c = Some uid /\ audioBlob c = Some blob /\
    upload w (fileName w uid) blob = None /\
    readAsDataURL w blob = Some dataUrl /\
    nth_error (split_on ","%char dataUrl) 1 = Some base64Audio /\
    In (Invoke "transcribe-audio" (JObj [("audio", JStr base64Audio)]))
       (effects (handleSaveAndTranscribe w c d)) /\
    ((function = "transcribe-audio" /\ body = JObj [("audio", JStr base64Audio)]) \/
     (function = "analyze-recording" /\
      body = JObj [("text",
                    opt_prop (data (invoke w "transcribe-audio"
                                      (JObj [("audio", JStr base64Audio)]))) "text")] /\
      truthy (opt_prop (data (invoke w "transcribe-audio"
                                (JObj [("audio", JStr base64Audio)]))) "text") = true)).
Proof.
  revert Hcalled. walk_through.
  all: intros Hin; which_effect Hin.
  all: do 4 eexists; repeat split; try eassumption; try reflexivity.
  all: first [ right; left; reflexivity
             | left; split; reflexivity
             | right; repeat split; assumption
             | idtac ].
  all: cbn [In app]; auto 10.
Qed.

Lemma services_called_in_order_witness :
  In (Invoke "analyze-recording" sent_text) (effects (sample_run sample_world)) /\
  In (Invoke "transcribe-audio" sent_audio) (effects (sample_run sample_world)).
Proof.
  assert (H : In (Invoke "analyze-recording" sent_text)
                 (effects (sample_run sample_world)))
    by (vm_compute; do 2 right; left; reflexivity).
  split; [exact H|].
  destruct (services_called_in_order sample_world (recorded sample_audio) empty_db
              "analyze-recording" sent_text H)
    as [uid [blob [dataUrl [b64 [_ [Hb [_ [Hr [Hn [Hin _]]]]]]]]]].
  injection Hb as <-. injection Hr as <-. injection Hn as <-. exact Hin.
Defined.

(** X23.  A run that comes to its end tells the user so exactly once: it
    shows one toast, the success one or an error one.  A run that is
    skipped, or that waits on a promise which never settles, shows
    none. *)
Theorem one_toast_per_settled_run (w : World) (c : Component) (d : DB) :
  let o := handleSaveAndTranscribe w c d in
  List.length (filter is_toast (effects o))
  = match status o with Settled => 1%nat | _ => 0%nat end.
Proof.
  cbv zeta. walk_through.
  all: reflexivity.
Qed.

End PipelineMore.

(** ** The library page *)

Section StatsFacts.
Import JS Library.











End StatsFacts.

Section KeepingFacts.
Import JS Pipeline Run Library.

Lemma append_assoc_string a b c : (a ++ b) ++ c = a ++ b ++ c.
Proof. induction a as [|x a IH]; simpl; [reflexivity | now rewrite IH]. Qed.

Lemma split_on_last sep x y :
  has_char sep y = false ->
  exists p pre, split_on sep (x ++ String sep y) = ((p :: pre) ++ [y])%list.
Proof.
  intros Hy. induction x as [|c x IH].
  - exists "", []. simpl. rewrite Ascii.eqb_refl. now rewrite split_on_whole.
  - destruct IH as [p [pre E]].
    change (String c x ++ String sep y) with (String c (x ++ String sep y)).
    cbn [split_on]. rewrite E. destruct (Ascii.eqb c sep).
    + exists "", (p :: pre). reflexivity.
    + exists (String c p), pre. reflexivity.
Qed.

Lemma pop_segment_last x y :
  has_char "/"%char y = false -> pop_segment (x ++ "/" ++ y) = y.
Proof.
  intros Hy. unfold pop_segment.
  change (x ++ "/" ++ y) with (x ++ String "/"%char y).
  destruct (split_on_last "/"%char x y Hy) as [p [pre ->]].
  apply last_last.
Qed.

Lemma uint_no_slash d : has_char "/"%char (NilEmpty.string_of_uint d) = false.
Proof.
  induction d; simpl; auto.
Qed.

Lemma Z_toString_no_slash z : has_char "/"%char (Z_toString z) = false.
Proof.
  unfold Z_toString. destruct (z <? 0); cbn [has_char];
    rewrite N_toString_digits; apply uint_no_slash.
Qed.

Lemma startsWith_append a b : startsWith (a ++ b) a = true.
Proof.
  induction a as [|x a IH]; simpl; [now destruct b|].
  now rewrite Ascii.eqb_refl, IH.
Qed.

Lemma startsWith_prefix a b c : startsWith (a ++ b ++ c) (a ++ b) = true.
Proof.
  rewrite <- append_assoc_string. apply startsWith_append.
Qed.

Lemma nonempty_with_slash a b : String.eqb (a ++ "/" ++ b) "" = false.
Proof. now destruct a. Qed.

(** X25.  Delete removes the very file the pipeline uploaded: for a row
    inserted by a run of the pipeline, whose public URL ends with the
    storage key of the upload, the key that handleDeleteRecording builds
    from the row's [audio_url] for the same user is the key under which
    the run uploaded the audio. *)
Theorem delete_finds_the_uploaded_file
    (w : World) (c : Component) (d : DB) (new : RecordingInsert) (base : string)
    (Hurl : forall key, getPublicUrl w key = base ++ "/" ++ key)
    (Hissued : In (InsertRecording new) (effects (handleSaveAndTranscribe w c d))) :
  exists uid,
    user c = Some uid /\
    In (Upload (fileName w uid)) (effects (handleSaveAndTranscribe w c d)) /\
    storage_key (user c) (audio_url new) = Some (fileName w uid).
Proof.
  destruct (inserted_row_facts w c d new Hissued)
    as [uid [blob [dataUrl [b64 [Hu [_ [_ [_ [Hup [Hau _]]]]]]]]]].
  exists uid. split; [exact Hu|]. split; [exact Hup|].
  rewrite Hau, Hurl, Hu. unfold storage_key, fileName.
  rewrite nonempty_with_slash.
  assert (P : pop_segment (base ++ "/" ++ uid ++ "/" ++ Z_toString (Date_now w) ++ ".webm")
              = Z_toString (Date_now w) ++ ".webm").
  { replace (base ++ "/" ++ uid ++ "/" ++ Z_toString (Date_now w) ++ ".webm")
      with ((base ++ "/" ++ uid) ++ "/" ++ Z_toString (Date_now w) ++ ".webm")
      by (now rewrite !append_assoc_string).
    apply pop_segment_last. rewrite has_char_append, Z_toString_no_slash.
    reflexivity. }
  rewrite P.
  destruct (String.eqb_spec (Z_toString (Date_now w) ++ ".webm") "") as [E|_];
    [|reflexivity].
  exfalso. destruct (Z_toString (Date_now w)); discriminate.
Qed.

Lemma delete_finds_the_uploaded_file_witness :
  (forall key, getPublicUrl sample_world key
               = "https://storage.example/recordings" ++ "/" ++ key) /\
  In (InsertRecording sample_row) (effects (sample_run sample_world)) /\
  storage_key (Some "u1") (audio_url sample_row) = Some "u1/1700000000000.webm".
Proof.
  assert (H1 : forall key, getPublicUrl sample_world key
                           = "https://storage.example/recordings" ++ "/" ++ key)
    by (intros key; reflexivity).
  assert (H2 : In (InsertRecording sample_row) (effects (sample_run sample_world)))
    by (vm_compute; do 3 right; left; reflexivity).
  split; [exact H1|]. split; [exact H2|].
  destruct (delete_finds_the_uploaded_file sample_world (recorded sample_audio)
              empty_db sample_row _ H1 H2) as [uid [Hu [_ K]]].
  injection Hu as <-. exact K.
Defined.

Lemma integral_retitle target t d : integral d -> integral (retitle target t d).
Proof.
  intros H h Hh. destruct (H h Hh) as [r [Hr E]].
  unfold retitle; cbn [recordings].
  eexists. split; [apply in_map; exact Hr|].
  cbn beta. destruct (String.eqb (id r) target); exact E.
Qed.

Lemma integral_delete target d : integral d -> integral (delete_row target d).
Proof.
  intros H h Hh. unfold delete_row in *. cbn [recordings highlights] in *.
  apply filter_In in Hh. destruct Hh as [Hh Hn].
  destruct (H h Hh) as [r [Hr E]]. exists r. split; [|exact E].
  apply filter_In. split; [exact Hr|]. now rewrite E.
Qed.

(** X26.  Every highlight belongs to a stored recording, and the
    handlers keep it so: if it holds of the store before, it holds after a
    run of the pipeline, after a rename and after a delete (which takes
    the highlights of the deleted recording with it). *)
Theorem highlights_keep_their_recording
    (w : World) (c : Component) (b : Backend) (p : Page)
    (answer : option string) (target : string) (objects : list string) (d : DB)
    (Hbefore : integral d) :
  integral (store (handleSaveAndTranscribe w c d)) /\
  integral (fst (handleRenameRecording b answer target d)) /\
  integral (database (fst (handleDeleteRecording b p target (mkBacking d objects)))).
Proof.
  split; [|split].
  - destruct (store_growth w c d) as [added [rows [Er [Eh [Hadd Hrows]]]]].
    intros h Hh. rewrite Eh in Hh. rewrite Er. apply in_app_iff in Hh.
    destruct Hh as [Hh|Hh].
    + destruct (Hbefore h Hh) as [r [Hr E]]. exists r.
      split; [apply in_or_app; now left | exact E].
    + assert (Hne : rows <> []) by (intros ->; contradiction).
      destruct (Hrows Hne) as [Hadded [_ Hid]].
      destruct Hadd as [->|[new [-> _]]]; [now elim Hadded|].
      eexists. split; [apply in_or_app; right; now left|].
      cbn [id]. symmetry. now apply Hid.
  - unfold handleRenameRecording. destruct answer as [t|]; [|exact Hbefore].
    destruct (_ && _)%bool; [|exact Hbefore].
    destruct (refuseUpdate b d target (trim t)); [exact Hbefore|].
    now apply integral_retitle.
  - unfold handleDeleteRecording.
    destruct (find _ (listed p)) as [recording|]; [|exact Hbefore].
    destruct (storage_key _ _) as [key|];
      [destruct (removeObject b key)|];
      cbn [database fst];
      try (destruct (refuseDelete b d target); cbn [database fst];
           [exact Hbefore | now apply integral_delete]).
    exact Hbefore.
Qed.

Lemma highlights_keep_their_recording_witness :
  integral shelf /\
  integral (database (fst (handleDeleteRecording lenient
                             (mkPage (recordings shelf) (Some "u1"))
                             "7b0c1f6e-0000-4000-8000-000000000001"
                             (mkBacking shelf ["u1/1700000000000.webm"])))).
Proof.
  assert (H : integral shelf).
  { intros h [<-|[]]. eexists. split; [now left | reflexivity]. }
  split; [exact H|].
  exact (proj2 (proj2 (highlights_keep_their_recording
                         sample_world (recorded sample_audio) lenient
                         (mkPage (recordings shelf) (Some "u1")) None
                         "7b0c1f6e-0000-4000-8000-000000000001"
                         ["u1/1700000000000.webm"] shelf H))).
Defined.

(** X27.  A rename stores a title only when the answer to the prompt is
    not blank, and what it stores is the answer trimmed, never empty and
    without white space at either end.  It changes the title of the rows
    with the given id and nothing else: the other rows, the other columns
    and the highlights stay as they were.  A cancelled or blank answer
    asks nothing of the store. *)
Theorem rename_stores_a_trimmed_title
    (b : Backend) (answer : option string) (target : string) (d : DB) :
  let after := fst (handleRenameRecording b answer target d) in
  let asked := snd (handleRenameRecording b answer target d) in
  highlights after = highlights d /\
  map id (recordings after) = map id (recordings d) /\
  others target after = others target d /\
  (asked = [] -> after = d) /\
  (forall newTitle, In (UpdateTitle target newTitle) asked ->
     exists t, answer = Some t /\ newTitle = trim t /\ newTitle <> "" /\
               trimStart newTitle = newTitle /\ trimEnd newTitle = newTitle) /\
  (forall r, In r (recordings after) -> id r = target ->
     In r (recordings d) \/
     exists old, In old (recordings d) /\ id old = target /\
                 In (UpdateTitle target (title (row r))) asked /\
                 row r = {| user_id := user_id (row old); title := title (row r);
                            audio_url := audio_url (row old);
                            transcription := transcription (row old);
                            summary := summary (row old);
                            sentiment := sentiment (row old);
                            tags := tags (row old);
                            duration_seconds := duration_seconds (row old);
                            duration_formatted := duration_formatted (row old) |}).
Proof.
  cbv zeta.
  assert (R : forall t, highlights (retitle target t d) = highlights d /\
                map id (recordings (retitle target t d)) = map id (recordings d) /\
                others target (retitle target t d) = others target d).
  { intros t. unfold retitle, others; cbn [recordings highlights].
    split; [reflexivity|]. split.
    - rewrite map_map. apply map_ext. intros r.
      now destruct (String.eqb (id r) target).
    - induction (recordings d) as [|r l IH]; [reflexivity|]. cbn [map filter].
      destruct (String.eqb (id r) target) eqn:E; cbn [id]; rewrite E; cbn [negb].
      + exact IH.
      + now rewrite IH. }
  unfold handleRenameRecording. destruct answer as [t|].
  2:{ cbn [fst snd]. repeat split; auto. intros ? []. }
  destruct (String.eqb_spec t "") as [Et|Et]; cbn [negb andb].
  { cbn [fst snd]. repeat split; auto. intros ? []. }
  destruct (String.eqb_spec (trim t) "") as [Eb|Eb]; cbn [negb].
  { cbn [fst snd]. repeat split; auto. intros ? []. }
  assert (U : forall newTitle rest,
            In (UpdateTitle target newTitle) (UpdateTitle target (trim t) :: rest) ->
            (forall x, In x rest -> forall k, x <> UpdateTitle target k) ->
            exists t0, Some t = Some t0 /\ newTitle = trim t0 /\ newTitle <> "" /\
                       trimStart newTitle = newTitle /\ trimEnd newTitle = newTitle).
  { intros newTitle rest [E|H] Hrest.
    - injection E as <-. exists t. repeat split; auto using trimStart_trim, trimEnd_trim.
    - now elim (Hrest _ H newTitle). }
  destruct (refuseUpdate b d target (trim t)); cbn [fst snd].
  - repeat split; auto; try discriminate.
    intros newTitle H. apply (U newTitle _ H).
    intros x [<-|[]] k; discriminate.
  - destruct (R (trim t)) as [R1 [R2 R3]].
    split; [exact R1|]. split; [exact R2|]. split; [exact R3|].
    split; [discriminate|]. split.
    + intros newTitle H. apply (U newTitle _ H).
      intros x [<-|[<-|[]]] k; discriminate.
    + intros r Hr Hid. unfold retitle in Hr; cbn [recordings] in Hr.
      apply in_map_iff in Hr. destruct Hr as [old [E Hold]].
      destruct (String.eqb_spec (id old) target) as [Eo|Eo].
      * right. exists old. subst r. cbn [row title id].
        split; [exact Hold|]. split; [exact Eo|]. split; [now left | reflexivity].
      * left. now subst r.
Qed.

(** Finds which action a membership hypothesis speaks of. *)
Ltac pick_action H :=
  cbn [In app] in H; unfold failed in H;
  repeat match type of H with
         | _ \/ _ => destruct H as [H|H]
         | False => contradiction
         | @eq Action _ _ => first [discriminate H | injection H as H; subst]
         end.

(** X28.  A delete stays within its bounds: the only object it asks the
    storage to remove is the one named after the last segment of the
    listed recording's URL, under the folder of the signed-in user; the
    bucket loses nothing else, no other recording is touched, and the
    success notice is shown only when no row with the given id is left.
    The file goes first: when the delete of the row then fails, the row
    is kept as it was. *)
Theorem delete_stays_within_bounds
    (b : Backend) (p : Page) (target : string) (s : Backing) :
  let after := fst (handleDeleteRecording b p target s) in
  let asked := snd (handleDeleteRecording b p target s) in
  (forall key, In (RemoveObject key) asked ->
     exists recording,
       In recording (listed p) /\ id recording = target /\
       storage_key (signed_in p) (audio_url (row recording)) = Some key /\
       forall uid, signed_in p = Some uid -> startsWith key (uid ++ "/") = true) /\
  (forall k, In k (bucket s) -> In k (bucket after) \/ In (RemoveObject k) asked) /\
  incl (bucket after) (bucket s) /\
  others target (database after) = others target (database s) /\
  (In (Notice "Recording deleted" "Recording has been permanently deleted." false) asked ->
   forall r, In r (recordings (database after)) -> id r <> target) /\
  (In (failed "delete") asked -> database after = database s).
Proof.
  cbv zeta. unfold handleDeleteRecording.
  destruct (find _ (listed p)) as [recording|] eqn:F.
  2:{ cbn [fst snd]. repeat split; auto using incl_refl; contradiction. }
  apply find_some in F. destruct F as [Hin Hid]. apply String.eqb_eq in Hid.
  assert (O : others target (delete_row target (database s))
              = others target (database s)).
  { unfold others, delete_row; cbn [recordings].
    induction (recordings (database s)) as [|r l IH]; [reflexivity|]. cbn [filter].
    destruct (String.eqb (id r) target) eqn:E; cbn [negb filter];
      [exact IH | rewrite E; cbn [negb]; now rewrite IH]. }
  assert (G : forall r, In r (recordings (delete_row target (database s))) ->
                        id r <> target).
  { intros r Hr. unfold delete_row in Hr; cbn [recordings] in Hr.
    apply filter_In in Hr. destruct Hr as [_ Hr].
    destruct (String.eqb_spec (id r) target); [discriminate | assumption]. }
  assert (K : forall key,
            storage_key (signed_in p) (audio_url (row recording)) = Some key ->
            forall uid, signed_in p = Some uid -> startsWith key (uid ++ "/") = true).
  { intros key Hk uid Hu. unfold storage_key in Hk. rewrite Hu in Hk.
    destruct (String.eqb (audio_url (row recording)) ""); [discriminate|].
    destruct (String.eqb (pop_segment (audio_url (row recording))) "");
      [discriminate|].
    injection Hk as <-.
    exact (startsWith_prefix uid "/" (pop_segment (audio_url (row recording)))). }
  assert (B : forall key k, In k (bucket s) ->
            In k (filter (fun k' => negb (String.eqb k' key)) (bucket s)) \/ k = key).
  { intros key k Hk. destruct (String.eqb_spec k key) as [E|E]; [now right|].
    left. apply filter_In. split; [exact Hk|].
    destruct (String.eqb_spec k key); [contradiction | reflexivity]. }
  assert (Hrec : forall key,
            storage_key (signed_in p) (audio_url (row recording)) = Some key ->
            exists recording0,
              In recording0 (listed p) /\ id recording0 = target /\
              storage_key (signed_in p) (audio_url (row recording0)) = Some key /\
              forall uid, signed_in p = Some uid -> startsWith key (uid ++ "/") = true).
  { intros key Hk. exists recording. repeat split; auto. }
  clear K.
  destruct (storage_key (signed_in p) (audio_url (row recording))) as [key|].
  - specialize (Hrec key eq_refl).
    destruct (removeObject b key);
      [destruct (refuseDelete b (database s) target)
      |destruct (refuseDelete b (database s) target)|];
      cbn [fst snd database bucket app].
    all: split; [intros k Hk; pick_action Hk; exact Hrec|].
    all: split;
      [intros k Hk; first [ now left
                          | destruct (B key k Hk) as [H | ->];
                            [now left | right; now left] ]|].
    all: split; [first [apply incl_refl | apply incl_filter]|].
    all: split; [first [reflexivity | exact O]|].
    all: split; intros H; pick_action H; first [exact G | reflexivity].
  - clear Hrec.
    destruct (refuseDelete b (database s) target); cbn [fst snd database bucket app].
    all: split; [intros k Hk; pick_action Hk|].
    all: split; [intros k Hk; now left|].
    all: split; [apply incl_refl|].
    all: split; [first [reflexivity | exact O]|].
    all: split; intros H; pick_action H; first [exact G | reflexivity].
Qed.

End KeepingFacts.
